(** * UdemyService: stream-source resolution, response cache and
      course-content orchestration.

    A shallow embedding of the service class of udemy-downloader-gui
    (the [UdemyService] class) and the properties of its specification. *)

From Stdlib Require Import ZArith String Ascii List Lia DecimalString Permutation.
From Stdlib Require DecimalPos.
From stdpp Require Import gmap strings list fin_maps.

Local Open Scope string_scope.
Local Open Scope list_scope.
Local Open Scope Z_scope.

(** ** The JavaScript built-ins the service relies on *)

Module JS.

(** Strings are sequences of bytes. Case folding and white space are
    the ASCII ones: the model agrees with [toLowerCase], [trim] and
    [parseInt] on strings of ASCII characters. *)
Definition lowerChar (c : ascii) : ascii :=
  let n := N_of_ascii c in
  if ((65 <=? n) && (n <=? 90))%N then ascii_of_N (n + 32) else c.

Fixpoint toLowerCase (s : string) : string :=
  match s with
  | EmptyString => EmptyString
  | String c rest => String (lowerChar c) (toLowerCase rest)
  end.

(** [hay.includes(needle)] *)
Fixpoint includes (needle hay : string) : bool :=
  match hay with
  | EmptyString => String.prefix needle EmptyString
  | String _ rest => String.prefix needle hay || includes needle rest
  end.

(** JavaScript numbers are modelled by [Z]: the service only ever holds
    integers, and a double represents every integer between the two
    sentinels below exactly. Beyond them [parseInt] rounds, where the
    model keeps the exact value. *)
Definition MAX_SAFE_INTEGER : Z := 9007199254740991.
Definition MIN_SAFE_INTEGER : Z := -9007199254740991.

Definition isWhiteSpace (c : ascii) : bool :=
  let n := N_of_ascii c in
  ((n =? 32) || ((9 <=? n) && (n <=? 13)))%N.

Fixpoint trimStart (s : string) : string :=
  match s with
  | String c rest => if isWhiteSpace c then trimStart rest else s
  | EmptyString => EmptyString
  end.

Definition digitValue (c : ascii) : option Z :=
  let n := N_of_ascii c in
  if ((48 <=? n) && (n <=? 57))%N then Some (Z.of_N (n - 48)) else None.

(** The longest prefix of decimal digits, read left to right; [None]
    when no digit was read. *)
Fixpoint readDigits (acc : option Z) (s : string) : option Z :=
  match s with
  | EmptyString => acc
  | String c rest =>
      match digitValue c with
      | Some d => readDigits (Some (match acc with
                                    | Some a => 10 * a + d
                                    | None => d
                                    end)) rest
      | None => acc
      end
  end.

(** [parseInt(s, 10)]; [None] is NaN. The value is exact, where
    [parseInt] rounds beyond the safe integers. *)
Definition parseInt10 (s : string) : option Z :=
  match trimStart s with
  | String "-" rest => Z.opp <$> readDigits None rest
  | String "+" rest => readDigits None rest
  | t => readDigits None t
  end.

(** [n.toString()] of an integer. *)
Definition numberToString (n : Z) : string :=
  NilZero.string_of_int (Z.to_int n).

(** [a || b] on two possibly missing strings: the empty string is falsy. *)
Definition orElse (a b : option string) : option string :=
  match a with
  | Some s => if String.eqb s "" then b else a
  | None => b
  end.

(** [Boolean(s)] of a possibly missing string. *)
Definition truthyString (a : option string) : bool :=
  match a with
  | Some s => negb (String.eqb s "")
  | None => false
  end.

(** [s.replace(/pat/g, rep)] for a literal, non-empty pattern: [skip]
    counts the characters of a match still to be dropped. *)
Fixpoint replaceFrom (pat rep : string) (skip : nat) (s : string) : string :=
  match s with
  | EmptyString => EmptyString
  | String c rest =>
      match skip with
      | S k => replaceFrom pat rep k rest
      | O =>
          if String.prefix pat s
          then rep +:+ replaceFrom pat rep (String.length pat - 1)%nat rest
          else String c (replaceFrom pat rep O rest)
      end
  end.

Definition replaceAll (pat rep s : string) : string := replaceFrom pat rep O s.

End JS.

(** ** Errors and results *)

(** An [Error] object: its [name], its [message] and, for a failed HTTP
    exchange, [response.status]. *)
Record JsError : Type := mkError {
  name : string;
  message : string;
  response_status : option Z
}.

Inductive Result (A : Type) : Type :=
| Ok (a : A)
| Throw (e : JsError).
Arguments Ok {A} a.
Arguments Throw {A} e.

Definition _error (name message : string) : JsError :=
  mkError name message None.

(** What the runtime raises on a property access through [undefined]. *)
Definition TypeError (message : string) : JsError :=
  mkError "TypeError" message None.

(** [error?.response?.status === code] *)
Definition hasStatus (code : Z) (error : JsError) : bool :=
  match response_status error with
  | Some status => status =? code
  | None => false
  end.

(** [try { body } catch (error) { throw handler(error) }] *)
Definition tryCatch {A} (body : Result A) (handler : JsError -> Result A) : Result A :=
  match body with
  | Ok a => Ok a
  | Throw e => handler e
  end.

(** ** Stream descriptors and the resolved stream set *)

Record Descriptor : Type := mkDescriptor {
  type : string;
  label : string;
  file : option string;
  src : option string
}.

Record Source : Type := mkSource {
  source_type : string;
  url : option string
}.

Record PlaylistItem : Type := mkPlaylistItem {
  quality : Z;
  playlist_url : string
}.

Record ResolvedStreamSet : Type := mkStreams {
  minQuality : option string;
  maxQuality : option string;
  isEncrypted : bool;
  sources : gmap string Source
}.

(** [video.file || video.src] *)
Definition urlOf (video : Descriptor) : option string :=
  JS.orElse (file video) (src video).

Definition manifestType : string := "application/dash+xml".
Definition encryptedMarker : string := "/encrypted-files".

(** The three variables the callbacks of [_convertToStreams] close over. *)
Record Tracker : Type := mkTracker {
  t_sources : gmap string Source;
  t_min : Z;
  t_max : Z
}.

(** The two [if]s that move the running bounds. *)
Definition track (numericQuality : Z) (t : Tracker) : Tracker :=
  let lo := if (numericQuality <? t_min t)%Z then numericQuality else t_min t in
  let hi := if (numericQuality >? t_max t)%Z then numericQuality else t_max t in
  mkTracker (t_sources t) lo hi.

(** [sources[key] = s] on the object literal [sources], as its own
    properties show it. The name [__proto__] is the accessor of
    [Object.prototype]: assigning to it replaces the prototype of
    [sources] and adds no property. The service reads [sources] under
    "auto" and under decimal numbers only, names that such a prototype
    (a [{type, url}] record) does not answer. *)
Definition assign (key : string) (s : Source) (sources : gmap string Source)
    : gmap string Source :=
  if String.eqb key "__proto__" then sources else <[key := s]> sources.

Definition register (key : string) (s : Source) (t : Tracker) : Tracker :=
  mkTracker (assign key s (t_sources t)) (t_min t) (t_max t).

(** A callback suspended at [await m3u8.loadPlaylist()]: the mime type it
    captured and what the playlist resolver answers. *)
Definition Expansion : Type := (string * Result (list PlaylistItem))%type.

(** [x] put at position [n] of [l], or at its end. *)
Fixpoint insertAt {A} (n : nat) (x : A) (l : list A) : list A :=
  match n, l with
  | O, _ => x :: l
  | S n, y :: rest => y :: insertAt n x rest
  | S _, [] => [x]
  end.

(** The order in which suspended callbacks resume: the k-th one created
    takes position [schedule k] among those created before it. Every
    order is the one of some [schedule]. *)
Fixpoint arrange {A} (schedule : nat -> nat) (k : nat) (pending done : list A) : list A :=
  match pending with
  | [] => done
  | x :: rest => arrange schedule (S k) rest (insertAt (schedule k) x done)
  end.

Section StreamResolver.

(** The adaptive playlist resolver ([M3U8Service], a collaborator of the
    service): the playlist found at a url, or the failure it raises. *)
Variable loadPlaylist : option string -> Result (list PlaylistItem).

(** When each playlist arrives, which orders the suspended callbacks. *)
Variable schedule : nat -> nat.

(** The part of the [streams.map] callback that runs before its first
    [await]: every descriptor, in list order. *)
Definition syncPart (isEncrypted : bool) (st : Tracker * list Expansion)
    (video : Descriptor) : Tracker * list Expansion :=
  let '(t, pending) := st in
  if String.eqb (type video) manifestType then st
  else
    let quality := JS.toLowerCase (label video) in
    let t1 := register quality (mkSource (type video) (urlOf video)) t in
    if negb (String.eqb quality "auto") then
      match JS.parseInt10 quality with
      | Some numericQuality => (track numericQuality t1, pending)
      | None => (t1, pending)
      end
    else if negb isEncrypted then
      (t1, pending ++ [(type video, loadPlaylist (urlOf video))])
    else (t1, pending).

(** One turn of [for (const item of playlist)]. *)
Definition discover (type : string) (t : Tracker) (item : PlaylistItem) : Tracker :=
  let numericQuality := quality item in
  let t1 := track numericQuality t in
  let key := JS.numberToString numericQuality in
  match t_sources t1 !! key with
  | Some _ => t1
  | None => register key (mkSource type (Some (playlist_url item))) t1
  end.

(** The callbacks resumed one after another; the first rejection is
    what [Promise.all] reports. *)
Fixpoint resumeAll (pending : list Expansion) (t : Tracker) : Result Tracker :=
  match pending with
  | [] => Ok t
  | (_, Throw e) :: _ => Throw e
  | (type, Ok playlist) :: rest =>
      resumeAll rest (fold_left (discover type) playlist t)
  end.

(** [streamUrls.filter((v) => !(v.file || v.src).includes("/encrypted-files"))].
    A url that is missing is [undefined] in the text of the TypeError;
    for a [src] that is [null] the runtime's text reads "of null". *)
Fixpoint filterPlain (streamUrls : list Descriptor) : Result (list Descriptor) :=
  match streamUrls with
  | [] => Ok []
  | v :: rest =>
      match urlOf v with
      | None => Throw (TypeError "Cannot read properties of undefined (reading 'includes')")
      | Some u =>
          match filterPlain rest with
          | Ok kept => Ok (if JS.includes encryptedMarker u then kept else v :: kept)
          | Throw e => Throw e
          end
      end
  end.

Definition finalQuality (sentinel bound : Z) (sources : gmap string Source) : option string :=
  if (bound =? sentinel)%Z then
    match sources !! "auto" with
    | Some _ => Some "auto"
    | None => None
    end
  else Some (JS.numberToString bound).

Definition convertBody (streamUrls : option (list Descriptor)) (isEncrypted : bool)
    : Result ResolvedStreamSet :=
  match streamUrls with
  | None => Throw (_error "ENO_STREAMS" "No streams found to convert")
  | Some streamUrls =>
      match (if negb isEncrypted then Ok streamUrls else filterPlain streamUrls) with
      | Throw e => Throw e
      | Ok streams =>
          let isEncrypted :=
            if isEncrypted then Nat.eqb (length streams) 0%nat else isEncrypted in
          let streams :=
            if Nat.ltb 0%nat (length streams) then streams else streamUrls in
          let start :=
            mkTracker ∅ JS.MAX_SAFE_INTEGER JS.MIN_SAFE_INTEGER in
          let '(t, pending) :=
            fold_left (syncPart isEncrypted) streams (start, []) in
          match resumeAll (arrange schedule O pending []) t with
          | Throw e => Throw e
          | Ok t =>
              Ok (mkStreams
                    (finalQuality JS.MAX_SAFE_INTEGER (t_min t) (t_sources t))
                    (finalQuality JS.MIN_SAFE_INTEGER (t_max t) (t_sources t))
                    isEncrypted
                    (t_sources t))
          end
      end
  end.

Definition _convertToStreams (streamUrls : option (list Descriptor))
    (isEncrypted : bool) (title : string) : Result ResolvedStreamSet :=
  tryCatch (convertBody streamUrls isEncrypted)
    (fun error => Throw (_error "ECONVERT_TO_STREAMS" (message error))).

End StreamResolver.

(** ** Curriculum items, assets and collections *)

Record StreamUrls : Type := mkStreamUrls {
  Video : option (list Descriptor)
}.

(** The asset of a lecture. [other] stands for the fields the service
    never reads (filename, body, captions, download_urls, external_url). *)
Record Asset : Type := mkAsset {
  asset_type : option string;
  asset_title : string;
  stream_urls : option StreamUrls;
  media_sources : option (list Descriptor);
  media_license_token : option string;
  streams : option ResolvedStreamSet;
  other : list (string * string)
}.

Record Item : Type := mkItem {
  item_id : Z;
  _class : string;
  title : string;
  asset : option Asset;
  supplementary_assets : option (list string)
}.

Record Collection : Type := mkCollection {
  count : Z;
  next : option string;
  previous : option string;
  results : list Item
}.

(** What the subscriber listing returns: [next] and [previous] are arrays. *)
Record MergedCollection : Type := mkMerged {
  merged_count : Z;
  merged_next : option (list string);
  merged_previous : option (list string);
  merged_results : list Item
}.

(** [response.data]: an empty body (the empty string), a paginated
    collection, or a single lecture record. *)
Inductive Payload : Type :=
| EmptyBody
| Page (c : Collection)
| Lecture (l : Item).

Definition truthy (data : Payload) : bool :=
  match data with
  | EmptyBody => false
  | _ => true
  end.

Inductive Listing : Type :=
| Combined (m : MergedCollection)
| Single (data : Payload).

(** ** The response cache *)

Module NodeCache.

Record Entry : Type := mkEntry {
  value : Payload;
  expires : Z
}.

(** Modelled from the spec: the store behind [#cache], the node-cache
    package, which is a dependency and not part of the sources. An entry
    lives for [stdTTL] seconds after it was set; [get] answers
    [undefined] ([None]) for a missing or expired key; values are
    copied in and out, so no caller shares an object with the store.
    An expired entry stays in the model's store, where node-cache drops
    it: no lookup tells the two apart, and no property below is about the
    entries of the store other than through [get]. *)
Definition stdTTL : Z := 3600.

Definition get (store : gmap string Entry) (now : Z) (key : string) : option Payload :=
  match store !! key with
  | Some e => if expires e <? now then None else Some (value e)
  | None => None
  end.

Definition set (store : gmap string Entry) (now : Z) (key : string) (v : Payload)
    : gmap string Entry :=
  <[key := mkEntry v (now + stdTTL * 1000)]> store.

End NodeCache.

(** ** The world the service runs in *)

Record Request : Type := mkRequest {
  req_method : string;
  req_url : string
}.

(** The cache, the clock (milliseconds) and the log of the requests that
    went out to the network. A response arrives at the instant its
    request is sent; time passes between the operations of the service. *)
Record World : Type := mkWorld {
  cache : gmap string NodeCache.Entry;
  now : Z;
  calls : list Request
}.

(** Time passing between two operations of the service. *)
Definition advance (ms : Z) (w : World) : World :=
  mkWorld (cache w) (now w + ms) (calls w).

(** A synchronous computation; a promise (the part of an async function
    after its [await]); an async call (the part before it, which creates
    the promise). *)
Definition M (A : Type) : Type := World -> Result A * World.
Definition Promise (A : Type) : Type := World -> Result A * World.
Definition Async (A : Type) : Type := World -> Promise A * World.

Definition ret {A} (a : A) : M A := fun w => (Ok a, w).
Definition throw {A} (e : JsError) : M A := fun w => (Throw e, w).

Definition bind {A B} (m : M A) (k : A -> M B) : M B :=
  fun w =>
    match m w with
    | (Ok a, w1) => k a w1
    | (Throw e, w1) => (Throw e, w1)
    end.

Notation "'let*' x ':=' m 'in' k" := (bind m (fun x => k))
  (at level 10, x name, m at level 100, k at level 200).

Definition resolved {A} (a : A) : Async A := fun w => (ret a, w).
Definition rejected {A} (e : JsError) : Async A := fun w => (throw e, w).

(** [await call] *)
Definition await {A} (call : Async A) : M A :=
  fun w => let '(promise, w1) := call w in promise w1.

(** An async function that awaits [call] and then runs [k]. *)
Definition andThen {A B} (call : Async A) (k : A -> M B) : Async B :=
  fun w => let '(promise, w1) := call w in (bind promise k, w1).

(** [try { ... await ... } catch (error) { throw handler(error) }] around
    an async body. *)
Definition rethrow {A} (handler : JsError -> JsError) (call : Async A) : Async A :=
  fun w =>
    let '(promise, w1) := call w in
    (fun w2 =>
       match promise w2 with
       | (Ok a, w3) => (Ok a, w3)
       | (Throw e, w3) => (Throw (handler e), w3)
       end, w1).

(** [list.map(async ...)]: every call runs up to its [await], in order. *)
Fixpoint startAll {A} (tasks : list (Async A)) (w : World) : list (Promise A) * World :=
  match tasks with
  | [] => ([], w)
  | task :: rest =>
      let '(promise, w1) := task w in
      let '(promises, w2) := startAll rest w1 in
      (promise :: promises, w2)
  end.

(** The promises settle in the order they were created; each one runs to
    its end whether or not an earlier one was rejected. *)
Fixpoint settleAll {A} (promises : list (Promise A)) (w : World) : list (Result A) * World :=
  match promises with
  | [] => ([], w)
  | promise :: rest =>
      let '(r, w1) := promise w in
      let '(rs, w2) := settleAll rest w1 in
      (r :: rs, w2)
  end.

(** The join: all the values, or a rejection. Of several rejections
    the model reports the first in list order, where [Promise.all]
    reports the first in time; the properties below are stated so that
    they hold whichever of them is reported. *)
Fixpoint collect {A} (settled : list (Result A)) : Result (list A) :=
  match settled with
  | [] => Ok []
  | Throw e :: _ => Throw e
  | Ok a :: rest =>
      match collect rest with
      | Ok l => Ok (a :: l)
      | Throw e => Throw e
      end
  end.

(** [await Promise.all([first, second])] *)
Definition both {A} (first second : Async A) : M (A * A) :=
  fun w =>
    let '(p1, w1) := first w in
    let '(p2, w2) := second w1 in
    let '(r1, w3) := p1 w2 in
    let '(r2, w4) := p2 w3 in
    (match r1, r2 with
     | Ok a, Ok b => Ok (a, b)
     | Throw e, _ => Throw e
     | _, Throw e => Throw e
     end, w4).

(** [await Promise.all(tasks)] *)
Definition all {A} (tasks : list (Async A)) : M (list A) :=
  fun w =>
    let '(promises, w1) := startAll tasks w in
    let '(settled, w2) := settleAll promises w1 in
    (collect settled, w2).

(** ** The service *)

Definition URL_COURSES : string := "/users/me/subscribed-courses".
Definition URL_COURSES_ENROLL : string := "/users/me/subscription-course-enrollments".
Definition ASSETS_FIELDS : string :=
  "&fields[asset]=asset_type,title,filename,body,captions,media_sources,stream_urls,download_urls,external_url,media_license_token".

Definition placeholderChapter : Item := mkItem 0 "chapter" "Chapter 1" None None.

(** [lecture.asset] and [lecture.supplementary_assets] of a response. *)
Definition assetOf (data : Payload) : option Asset :=
  match data with
  | Lecture l => asset l
  | _ => None
  end.

Definition supplementaryOf (data : Payload) : option (list string) :=
  match data with
  | Lecture l => supplementary_assets l
  | _ => None
  end.

(** [resp.next] of a response: [Some None] is [null], [None] is
    [undefined]. *)
Definition nextOf (resp : Payload) : option (option string) :=
  match resp with
  | Page c => Some (next c)
  | _ => None
  end.

Section Service.

(** [#urlBase], as the constructor computed it. *)
Variable urlBase : string.

(** The remote platform behind axios: what the n-th request sent
    receives, [response.data] or the error axios rejects with. *)
Variable server : nat -> string -> string -> Result Payload.

Variable loadPlaylist : option string -> Result (list PlaylistItem).
Variable schedule : nat -> nat.

(** The runtime's [decodeURI], which can raise a URIError. *)
Variable decodeURI : string -> Result string.

(** [#fetchUrl]: the cache lookup and the request go out at once, the
    rest runs when the response arrives. *)
Definition fetchUrl (url method : string) : Async Payload :=
  fun w =>
    let request : Async Payload :=
      fun w =>
        let n := length (calls w) in
        (fun w1 =>
           match server n method url with
           | Ok data =>
               (Ok data,
                mkWorld (NodeCache.set (cache w1) (now w1) url data) (now w1) (calls w1))
           | Throw e => (Throw e, w1)
           end,
         mkWorld (cache w) (now w) (calls w ++ [mkRequest method url]))
    in
    match NodeCache.get (cache w) (now w) url with
    | Some cachedData =>
        if truthy cachedData then resolved cachedData w else request w
    | None => request w
    end.

Definition fetchEndpoint (endpoint method : string) : Async Payload :=
  fetchUrl (urlBase +:+ "/api-2.0" +:+ endpoint) method.

Definition fetchLoadMore (url : string) : Async Payload :=
  fetchUrl url "GET".

(** The listing two collections are merged into. *)
Definition mergeListings (courses enrolledCourses : Payload) : Result MergedCollection :=
  match courses, enrolledCourses with
  | Page courses, Page enrolledCourses =>
      let next := omap id [next courses; next enrolledCourses] in
      let previous := omap id [previous courses; previous enrolledCourses] in
      Ok (mkMerged
            (count courses + count enrolledCourses)
            (if Nat.ltb 0%nat (length next) then Some next else None)
            (if Nat.ltb 0%nat (length previous) then Some previous else None)
            (results courses ++ results enrolledCourses))
  | Page _, _ => Throw (TypeError "enrolledCourses.results is not iterable")
  | _, _ => Throw (TypeError "courses.results is not iterable")
  end.

(** The tail [fetchCourses] and [fetchSearchCourses] have in common. *)
Definition listCourses (url urlEnroll : string) (isSubscriber : bool) : M Listing :=
  if isSubscriber then
    let* fetched := both (fetchEndpoint url "GET") (fetchEndpoint urlEnroll "GET") in
    let '(courses, enrolledCourses) := fetched in
    match mergeListings courses enrolledCourses with
    | Ok m => ret (Combined m)
    | Throw e => throw e
    end
  else
    let* data := await (fetchEndpoint url "GET") in ret (Single data).

Definition fetchCourses (pageSize : Z) (isSubscriber : bool) : M Listing :=
  let pageSize := Z.max pageSize 10 in
  let param := "page_size=" +:+ JS.numberToString pageSize +:+ "&ordering=-last_accessed" in
  let url := URL_COURSES +:+ "?" +:+ param in
  let urlEnroll := URL_COURSES_ENROLL +:+ "?" +:+ param in
  listCourses url urlEnroll isSubscriber.

Definition fetchSearchCourses (keyword : string) (pageSize : Z) (isSubscriber : bool)
    : M Listing :=
  if String.eqb keyword "" then fetchCourses pageSize isSubscriber
  else
    let pageSize := Z.max pageSize 10 in
    let param :=
      "page=1&ordering=title&fields[user]=job_title&page_size="
        +:+ JS.numberToString pageSize +:+ "&search=" +:+ keyword in
    let url := URL_COURSES +:+ "?" +:+ param in
    let urlEnroll := URL_COURSES_ENROLL +:+ "?" +:+ param in
    listCourses url urlEnroll isSubscriber.

Definition fetchCourse (courseId : Z) : Async Payload :=
  fetchEndpoint
    ("/courses/" +:+ JS.numberToString courseId
       +:+ "/cached-subscriber-curriculum-items?page_size=10000&fields[lecture]=id,title,asset")
    "GET".

Definition fetchLecture (courseId lectureId : Z) (getAttachments allAssets : bool)
    : Async Payload :=
  let url :=
    "/users/me/subscribed-courses/" +:+ JS.numberToString courseId
      +:+ "/lectures/" +:+ JS.numberToString lectureId
      +:+ "?fields[lecture]=id,title,asset"
      +:+ (if getAttachments then ",supplementary_assets" else "") in
  let url := url +:+ (if allAssets then "&fields[asset]=@all" else ASSETS_FIELDS) in
  fetchEndpoint url "GET".

Definition fetchLectureAttachments (lectureId : Z) : Async Payload :=
  fetchEndpoint ("/lectures/" +:+ JS.numberToString lectureId +:+ "/supplementary-assets") "GET".

(** [_prepareStreamSource]: the item as the call leaves it. *)
Definition prepareBody (courseId : Z) (el : Item) : Async Item :=
  if String.eqb (_class el) "lecture" then
    match asset el with
    | None => resolved el
    | Some a =>
        match asset_type a with
        | None =>
            rejected (TypeError "Cannot read properties of undefined (reading 'toLowerCase')")
        | Some ty =>
            let assetType := JS.toLowerCase ty in
            if String.eqb assetType "video" || String.eqb assetType "videomashup" then
              let stream_urls :=
                match stream_urls a with
                | Some (mkStreamUrls (Some l)) => Some l
                | _ => media_sources a
                end in
              let isEncrypted := JS.truthyString (media_license_token a) in
              match stream_urls with
              | Some _ =>
                  match _convertToStreams loadPlaylist schedule
                          stream_urls isEncrypted (asset_title a) with
                  | Ok streams =>
                      resolved
                        (mkItem (item_id el) (_class el) (title el)
                           (Some (mkAsset (asset_type a) (asset_title a) None None
                                    (media_license_token a) (Some streams) (other a)))
                           (supplementary_assets el))
                  | Throw e => rejected e
                  end
              | None => resolved el
              end
            else if String.eqb assetType "presentation" then
              andThen (fetchLecture courseId (item_id el) true true)
                (fun lecture =>
                   ret (mkItem (item_id el) (_class el) (title el)
                          (assetOf lecture) (supplementaryOf lecture)))
            else resolved el
        end
    end
  else resolved el.

Definition _prepareStreamSource (courseId : Z) (el : Item) : Async Item :=
  rethrow (fun error => _error "EPREPARE_STREAM_SOURCE" (message error))
    (prepareBody courseId el).

Definition _prepareStreamsSource (courseId : Z) (items : list Item) : M (list Item) :=
  fun w =>
    match all (map (_prepareStreamSource courseId) items) w with
    | (Ok items, w1) => (Ok items, w1)
    | (Throw error, w1) =>
        (Throw (_error "EPREPARE_STREAMS_SOURCE" (message error)), w1)
    end.

(** [(contentType || "less").toLowerCase()] *)
Definition normalizeContentType (contentType : option string) : string :=
  JS.toLowerCase
    match contentType with
    | Some s => if String.eqb s "" then "less" else s
    | None => "less"
    end.

Definition curriculumUrl (courseId : Z) (contentType : string) : string :=
  let url :=
    urlBase +:+ "/api-2.0/courses/" +:+ JS.numberToString courseId
      +:+ "/cached-subscriber-curriculum-items?page_size=200" in
  let url :=
    if negb (String.eqb contentType "less") then url +:+ "&fields[lecture]=id,title" else url in
  let url :=
    if String.eqb contentType "all" then url +:+ ",asset,supplementary_assets" else url in
  let url := if String.eqb contentType "lectures" then url +:+ ",asset" else url in
  let url :=
    if String.eqb contentType "attachments" then url +:+ ",supplementary_assets" else url in
  if negb (String.eqb contentType "less") then url +:+ ASSETS_FIELDS else url.

(** [!contentData] *)
Definition falsy (contentData : option Payload) : bool :=
  match contentData with
  | None => true
  | Some data => negb (truthy data)
  end.

(** The first statement of the loop body: keep the first page, append
    the results of the later ones. *)
Definition accumulate (contentData : option Payload) (resp : Payload)
    : Result (option Payload) :=
  if falsy contentData then Ok (Some resp)
  else
    match contentData with
    | Some (Page c) =>
        match resp with
        | Page r =>
            Ok (Some (Page (mkCollection (count c) (next c) (previous c)
                              (results c ++ results r))))
        | _ => Throw (TypeError "resp.results is not iterable")
        end
    | _ => Throw (TypeError "Cannot read properties of undefined (reading 'push')")
    end.

(** The url of the next turn: [resp.next], decoded, when it is truthy. *)
Definition followNext (url : string) (resp : Payload) : Result string :=
  match nextOf resp with
  | Some (Some n) =>
      if String.eqb n "" then Ok url
      else
        match decodeURI n with
        | Ok u =>
            Ok (JS.replaceAll "%2C" ","
                  (JS.replaceAll "%5D" "]" (JS.replaceAll "%5B" "[" u)))
        | Throw e => Throw e
        end
  | _ => Ok url
  end.

(** [resp.next != null] *)
Definition hasNext (resp : Payload) : bool :=
  match nextOf resp with
  | Some (Some _) => true
  | _ => false
  end.

(** The [do ... while (loadContent)] loop, at most [fuel] turns of it:
    [None] when it is still running after them. The clock stands still
    while this loop runs; [loadPagesIn] below is the same loop with time
    passing between its turns. *)
Fixpoint loadPages (fuel : nat) (url : string) (contentData : option Payload)
    (w : World) : option (Result (option Payload) * World) :=
  match fuel with
  | O => None
  | S fuel =>
      match await (fetchUrl url "GET") w with
      | (Throw e, w1) => Some (Throw e, w1)
      | (Ok resp, w1) =>
          match accumulate contentData resp with
          | Throw e => Some (Throw e, w1)
          | Ok contentData =>
              match followNext url resp with
              | Throw e => Some (Throw e, w1)
              | Ok url =>
                  if hasNext resp then loadPages fuel url contentData w1
                  else Some (Ok contentData, w1)
              end
          end
      end
  end.

(** The null check and the synthesized first chapter; [Ok None] is the
    [return null]. *)
Definition repair (contentData : option Payload) : Result (option Collection) :=
  if falsy contentData then Ok None
  else
    match contentData with
    | Some (Page c) =>
        if count c =? 0 then Ok None
        else
          match results c with
          | [] => Throw (TypeError "Cannot read properties of undefined (reading '_class')")
          | first :: _ =>
              if negb (String.eqb (_class first) "chapter") then
                Ok (Some (mkCollection (count c + 1) (next c) (previous c)
                            (placeholderChapter :: results c)))
              else Ok (Some c)
          end
    | _ => Throw (TypeError "Cannot read properties of undefined (reading '0')")
    end.

(** The callback of the hydration [map]. *)
Definition hydrate (courseId : Z) (el : Item) : Async Item :=
  if String.eqb (_class el) "lecture" then
    andThen (fetchLecture courseId (item_id el) true false)
      (fun lecture =>
         ret (mkItem (item_id el) (_class el) (title el)
                (assetOf lecture) (supplementaryOf lecture)))
  else resolved el.

(** [fetchCourseContent] from the null check on. *)
Definition complete (courseId : Z) (contentData : option Payload) (loadContent : bool)
    : M (option Collection) :=
  match repair contentData with
  | Throw e => throw e
  | Ok None => ret None
  | Ok (Some c) =>
      let* items :=
        (if loadContent then all (map (hydrate courseId) (results c))
         else ret (results c)) in
      let count := Z.of_nat (length items) in
      let* items := _prepareStreamsSource courseId items in
      ret (Some (mkCollection count (next c) (previous c) items))
  end.

(** The [try]/[catch] of [fetchCourseContent]: the values it leaves in
    [contentData] and [loadContent]. *)
Definition acquire (fuel : nat) (courseId : Z) (contentType : string)
    (w : World) : option (Result (option Payload * bool) * World) :=
  match loadPages fuel (curriculumUrl courseId contentType) None w with
  | None => None
  | Some (Ok contentData, w1) => Some (Ok (contentData, false), w1)
  | Some (Throw error, w1) =>
      if hasStatus 503 error then
        Some ((let* contentData := await (fetchCourse courseId) in
               ret (Some contentData, negb (String.eqb contentType "less"))) w1)
      else Some (Throw error, w1)
  end.

Definition fetchCourseContent (fuel : nat) (courseId : Z) (contentType : option string)
    (w : World) : option (Result (option Collection) * World) :=
  let contentType := normalizeContentType contentType in
  match acquire fuel courseId contentType w with
  | None => None
  | Some (Throw error, w1) => Some (Throw error, w1)
  | Some (Ok (contentData, loadContent), w1) =>
      Some (complete courseId contentData loadContent w1)
  end.

(** The items as hydration, when pending, and stream preparation leave
    them. *)
Definition finishItems (courseId : Z) (loadContent : bool) (items : list Item)
    : M (list Item) :=
  let* items :=
    (if loadContent then all (map (hydrate courseId) items) else ret items) in
  _prepareStreamsSource courseId items.

End Service.

(** ** Vocabulary of the statements about stream resolution *)

Definition isManifest (v : Descriptor) : bool := String.eqb (type v) manifestType.

(** The key a descriptor is registered under. *)
Definition keyOf (v : Descriptor) : string := JS.toLowerCase (label v).

Definition entryOf (v : Descriptor) : Source := mkSource (type v) (urlOf v).

(** A descriptor the resolver treats as the entry point of a playlist. *)
Definition isAuto (v : Descriptor) : bool :=
  negb (isManifest v) && String.eqb (keyOf v) "auto".

(** The sources after the explicit descriptors alone, last writer first. *)
Definition registered (ds : list Descriptor) (m : gmap string Source) : gmap string Source :=
  fold_left (fun m v => if isManifest v then m else assign (keyOf v) (entryOf v) m) ds m.

(** The numeric qualities the explicit descriptors carry. *)
Definition explicitQualities (ds : list Descriptor) : list Z :=
  omap (fun v =>
          if isManifest v then None
          else if String.eqb (keyOf v) "auto" then None
          else JS.parseInt10 (keyOf v)) ds.

Definition expansions (loadPlaylist : option string -> Result (list PlaylistItem))
    (ds : list Descriptor) : list Expansion :=
  omap (fun v => if isAuto v then Some (type v, loadPlaylist (urlOf v)) else None) ds.

(** The qualities found in the playlists of a list of expansions. *)
Definition discoveredQualities (pending : list Expansion) : list Z :=
  flat_map (fun x => match snd x with
                     | Ok playlist => map quality playlist
                     | Throw _ => []
                     end) pending.

(** A string of ASCII characters. *)
Fixpoint isAscii (s : string) : bool :=
  match s with
  | EmptyString => true
  | String c rest => (N_of_ascii c <? 128)%N && isAscii rest
  end.

(** Descriptors whose labels are made of ASCII characters. *)
Definition asciiLabels (ds : list Descriptor) : Prop :=
  Forall (fun v => isAscii (label v) = true) ds.

(** A label made of decimal digits only, and at least one. *)
Fixpoint allDigits (s : string) : bool :=
  match s with
  | EmptyString => true
  | String c rest =>
      match JS.digitValue c with
      | Some _ => allDigits rest
      | None => false
      end
  end.

Definition isNumericLabel (s : string) : bool :=
  negb (String.eqb s "") && allDigits s.

(** An explicit descriptor with a numeric label. *)
Definition numericDescriptor (v : Descriptor) : Prop :=
  isManifest v = false /\ isNumericLabel (label v) = true.

(** The value of a string of digits: its last digit plus ten times the
    value of the digits before it. *)
Fixpoint digitsValue (reversed : list ascii) : Z :=
  match reversed with
  | [] => 0
  | c :: before =>
      match JS.digitValue c with
      | Some d => 10 * digitsValue before + d
      | None => 0
      end
  end.

Definition labelValue (s : string) : Z :=
  digitsValue (rev (list_ascii_of_string s)).

(** ** Sample inputs *)

(** A resolver that finds no variant, and one that finds 480. *)
Definition noPlaylist : option string -> Result (list PlaylistItem) :=
  fun _ => Ok [].
Definition playlist480 : option string -> Result (list PlaylistItem) :=
  fun _ => Ok [mkPlaylistItem 480 "d"].

(** Callbacks resumed in the order of their creation. *)
Definition inOrder : nat -> nat := fun k => k.

Definition mp4 (label url : string) : Descriptor :=
  mkDescriptor "video/mp4" label (Some url) None.

Definition hls (label url : string) : Descriptor :=
  mkDescriptor "application/x-mpegURL" label None (Some url).

Definition encryptedOnly : list Descriptor :=
  [mp4 "720" "https://cdn.example/encrypted-files/720.mp4"].

(** Two encrypted renditions, the second with an upper-case label. *)
Definition encryptedPair : list Descriptor :=
  [mp4 "720" "https://cdn.example/encrypted-files/720.mp4";
   mp4 "HD" "https://cdn.example/encrypted-files/hd.mp4"].

Definition sentinelLabel : list Descriptor :=
  [mp4 "9007199254740991" "a"].


Definition specExample : list Descriptor :=
  [mp4 "360" "a"; mp4 "720" "b"; hls "auto" "c"].

(** A world with an empty cache, at time 0, before any request. *)
Definition freshWorld : World := mkWorld ∅ 0 [].

Definition sampleUrl : string := "https://www.udemy.com/api-2.0/contexts/me/?header=True".

Definition chapter (n : Z) (t : string) : Item := mkItem n "chapter" t None None.
Definition quiz (n : Z) (t : string) : Item := mkItem n "quiz" t None None.

Definition pageOf (items : list Item) : Payload :=
  Page (mkCollection (Z.of_nat (length items)) None None items).

(** A platform that answers every request with an empty body. *)
Definition silentServer : nat -> string -> string -> Result Payload :=
  fun _ _ _ => Ok EmptyBody.

(** A platform whose answer depends on the method alone. *)
Definition methodServer : nat -> string -> string -> Result Payload :=
  fun _ method _ =>
    if String.eqb method "GET" then Ok (pageOf [chapter 1 "got"])
    else Ok (pageOf [chapter 2 "posted"]).

(** The state a request leaves behind once its response is stored. *)
Definition stored (url method : string) (data : Payload) (w : World) : World :=
  mkWorld (NodeCache.set (cache w) (now w) url data) (now w)
    (calls w ++ [mkRequest method url]).

(** The request finds nothing usable in the cache. *)
Definition isMiss (url : string) (w : World) : Prop :=
  match NodeCache.get (cache w) (now w) url with
  | Some cachedData => truthy cachedData = false
  | None => True
  end.

(** [[a, b].filter((n) => n !== null)], or [null] when nothing is left. *)
Definition nonNull (a b : option string) : option (list string) :=
  match a, b with
  | None, None => None
  | Some x, None => Some [x]
  | None, Some y => Some [y]
  | Some x, Some y => Some [x; y]
  end.

Definition merged (c1 c2 : Collection) : MergedCollection :=
  mkMerged (count c1 + count c2)
    (nonNull (next c1) (next c2)) (nonNull (previous c1) (previous c2))
    (results c1 ++ results c2).

(** The three kinds of item that stream preparation has nothing to do
    for: an item that is no lecture; a lecture without asset, or whose
    asset type is none of video, videomashup, presentation; a video
    lecture whose asset has neither stream_urls.Video nor media_sources. *)
Definition otherAssetType (ty : string) : Prop :=
  (JS.toLowerCase ty <> "video") /\ (JS.toLowerCase ty <> "videomashup") /\
  (JS.toLowerCase ty <> "presentation").

Definition noVideoStreams (a : Asset) : Prop :=
  (stream_urls a = None \/ stream_urls a = Some (mkStreamUrls None)) /\
  media_sources a = None.

Inductive nothingToPrepare (el : Item) : Prop :=
| notLecture : _class el <> "lecture" -> nothingToPrepare el
| noAsset : asset el = None -> nothingToPrepare el
| otherAsset a ty :
    asset el = Some a -> asset_type a = Some ty -> otherAssetType ty ->
    nothingToPrepare el
| videoWithoutStreams a ty :
    asset el = Some a -> asset_type a = Some ty ->
    JS.toLowerCase ty = "video" \/ JS.toLowerCase ty = "videomashup" ->
    noVideoStreams a -> nothingToPrepare el.

(** An async call that does nothing to the world and yields [x]. *)
Definition yields {A} (task : Async A) (x : A) : Prop :=
  forall w, exists promise,
    task w = (promise, w) /\ forall w', promise w' = (Ok x, w').

Definition identityDecode : string -> Result string := fun s => Ok s.

Definition sampleBase : string := "https://www.udemy.com".

Definition article (n : Z) (t : string) : Item :=
  mkItem n "lecture" t
    (Some (mkAsset (Some "Article") t None None None None [("body", "text")])) None.

Definition videoNoStreams (n : Z) (t : string) : Item :=
  mkItem n "lecture" t
    (Some (mkAsset (Some "Video") t (Some (mkStreamUrls None)) None None None [])) None.

(** A platform that answers every request with one page of two courses. *)
Definition listingServer : nat -> string -> string -> Result Payload :=
  fun n _ _ =>
    Ok (Page (mkCollection (match n with O => 5 | _ => 3 end)
                (match n with O => Some "u1" | _ => None end) None
                [mkItem (Z.of_nat n) "course" "Course" None None])).

Definition unavailable (code : Z) : JsError :=
  mkError "AxiosError" "Request failed" (Some code).


(** A platform that reports five items and sends none. *)
Definition inconsistentServer : nat -> string -> string -> Result Payload :=
  fun _ _ _ => Ok (Page (mkCollection 5 None None [])).

(** A platform whose curriculum starts with a lecture. *)
Definition lectureFirstServer : nat -> string -> string -> Result Payload :=
  fun _ _ _ => Ok (pageOf [article 11 "Welcome"; quiz 12 "Check"]).

(** ** Vocabulary of the further properties *)

(** A descriptor the filter of an encrypted asset keeps: it has a url,
    and the url does not name an encrypted file. *)
Definition isPlain (v : Descriptor) : bool :=
  match urlOf v with
  | Some u => negb (JS.includes encryptedMarker u)
  | None => false
  end.

(** The descriptors resolution goes through, and the flag it reports. *)
Definition chosen (hint : bool) (ds : list Descriptor) : list Descriptor :=
  if hint then
    match List.filter isPlain ds with
    | [] => ds
    | kept => kept
    end
  else ds.

Definition effectiveFlag (hint : bool) (ds : list Descriptor) : bool :=
  hint && Nat.eqb (length (List.filter isPlain ds)) 0%nat.

Definition mixedSources : list Descriptor :=
  [mp4 "720" "https://cdn.example/encrypted-files/720.mp4";
   mp4 "360" "https://cdn.example/plain/360.mp4"].

Definition brokenPlaylist : option string -> Result (list PlaylistItem) :=
  fun _ => Throw (mkError "M3U8Error" "playlist not found" (Some 404)).

(** The numeric qualities a resolution meets: those of the descriptors it
    goes through and, unless the asset stays encrypted, those of their
    playlists. *)
Definition qualitiesMet (loadPlaylist : option string -> Result (list PlaylistItem))
    (hint : bool) (ds : list Descriptor) : list Z :=
  explicitQualities (chosen hint ds)
    ++ (if effectiveFlag hint ds then []
        else discoveredQualities (expansions loadPlaylist (chosen hint ds))).

(** An entry of sources that a playlist brought in. *)
Definition discoveredEntry (loadPlaylist : option string -> Result (list PlaylistItem))
    (streams : list Descriptor) (k : string) (e : Source) : Prop :=
  exists v playlist item,
    In v streams /\ isAuto v = true /\ loadPlaylist (urlOf v) = Ok playlist /\
    In item playlist /\ k = JS.numberToString (quality item) /\
    e = mkSource (type v) (Some (playlist_url item)).

Definition specExampleResolved : ResolvedStreamSet :=
  mkStreams (Some "360") (Some "720") false
    (<["360" := mkSource "video/mp4" (Some "a")]>
       (<["480" := mkSource "application/x-mpegURL" (Some "d")]>
          (<["720" := mkSource "video/mp4" (Some "b")]>
             {["auto" := mkSource "application/x-mpegURL" (Some "c")]}))).

Definition mixedResolved : ResolvedStreamSet :=
  mkStreams (Some "360") (Some "360") false
    {["360" := mkSource "video/mp4" (Some "https://cdn.example/plain/360.mp4")]}.

Definition withoutUrl : Descriptor := mkDescriptor "video/mp4" "720" None None.

(** What a task promises about the value it resolves with, in whatever
    world it is started and resumed. *)
Definition ensures {A} (task : Async A) (P : A -> Prop) : Prop :=
  forall w promise w1, task w = (promise, w1) ->
  forall w2 v w3, promise w2 = (Ok v, w3) -> P v.

(** A task that does nothing to the world and is rejected with [e]. *)
Definition rejects {A} (task : Async A) (e : JsError) : Prop :=
  forall w, exists promise,
    task w = (promise, w) /\ forall w', promise w' = (Throw e, w').

(** The same item of the curriculum, whatever became of its payload. *)
Definition sameIdentity (el el' : Item) : Prop :=
  item_id el' = item_id el /\ _class el' = _class el /\ title el' = title el.

(** [asset.stream_urls?.Video || asset.media_sources] *)
Definition streamsOf (a : Asset) : option (list Descriptor) :=
  match stream_urls a with
  | Some (mkStreamUrls (Some l)) => Some l
  | _ => media_sources a
  end.

Definition isVideoLecture (el : Item) (a : Asset) : Prop :=
  _class el = "lecture" /\ asset el = Some a /\
  exists ty, asset_type a = Some ty /\
    (JS.toLowerCase ty = "video" \/ JS.toLowerCase ty = "videomashup").

(** The lecture with its raw descriptors replaced by the resolved set. *)
Definition withStreams (el : Item) (a : Asset) (r : ResolvedStreamSet) : Item :=
  mkItem (item_id el) (_class el) (title el)
    (Some (mkAsset (asset_type a) (asset_title a) None None
             (media_license_token a) (Some r) (other a)))
    (supplementary_assets el).

(** An item whose preparation goes through without a request: nothing
    to prepare, or a video lecture whose descriptors are resolved. *)
Definition preparesWell (loadPlaylist : option string -> Result (list PlaylistItem))
    (schedule : nat -> nat) (el : Item) : Prop :=
  nothingToPrepare el \/
  exists a l r,
    isVideoLecture el a /\ streamsOf a = Some l /\
    _convertToStreams loadPlaylist schedule (Some l)
      (JS.truthyString (media_license_token a)) (asset_title a) = Ok r.

(** The curriculum after the structural repair. *)
Definition repairedItems (c : Collection) : list Item :=
  match results c with
  | [] => []
  | first :: _ =>
      if String.eqb (_class first) "chapter" then results c
      else placeholderChapter :: results c
  end.

Definition videoAsset (video : option (list Descriptor)) (media : option (list Descriptor))
    : Asset :=
  mkAsset (Some "Video") "Intro" (Some (mkStreamUrls video)) media None None
    [("filename", "intro.mp4")].

Definition videoLecture (n : Z) (a : Asset) : Item :=
  mkItem n "lecture" "Intro" (Some a) (Some ["slides.pdf"]).

Definition resolved720 : ResolvedStreamSet :=
  mkStreams (Some "720") (Some "720") false
    {["720" := mkSource "video/mp4" (Some "b")]}.

Definition rawVideo : Asset := videoAsset (Some [mp4 "720" "b"]) (Some [mp4 "360" "a"]).
Definition autoVideo : Asset := videoAsset None (Some [hls "auto" "c"]).

(** [decodeURI(next)] with the three replacements made. *)
Definition decodedNext (decodeURI : string -> Result string) (n : string) : Result string :=
  match decodeURI n with
  | Ok u =>
      Ok (JS.replaceAll "%2C" "," (JS.replaceAll "%5D" "]" (JS.replaceAll "%5B" "[" u)))
  | Throw e => Throw e
  end.

(** The first page with the results of a later one appended. *)
Definition appended (first : Collection) (more : list Item) : Collection :=
  mkCollection (count first) (next first) (previous first) (results first ++ more).

(** The pages the loop reads from [url] on: each one is fetched at the
    url that the one before it names, and the last one names none. *)
Inductive pagesRead (server : nat -> string -> string -> Result Payload)
    (decodeURI : string -> Result string)
    : string -> World -> list Collection -> World -> Prop :=
| lastPage url w page w1 :
    await (fetchUrl server url "GET") w = (Ok (Page page), w1) ->
    next page = None ->
    pagesRead server decodeURI url w [page] w1
| morePages url w page w1 url' pages w' :
    await (fetchUrl server url "GET") w = (Ok (Page page), w1) ->
    next page <> None ->
    followNext decodeURI url (Page page) = Ok url' ->
    pagesRead server decodeURI url' w1 pages w' ->
    pagesRead server decodeURI url w (page :: pages) w'.

(** The loop of [fetchCourseContent] as time goes by: [pause k]
    milliseconds pass before its k-th turn. With no pause at all it is
    [loadPages]. *)
Fixpoint loadPagesIn (server : nat -> string -> string -> Result Payload)
    (decodeURI : string -> Result string) (pause : nat -> Z) (turn fuel : nat)
    (url : string) (contentData : option Payload) (w : World)
    : option (Result (option Payload) * World) :=
  match fuel with
  | O => None
  | S fuel =>
      match await (fetchUrl server url "GET") (advance (pause turn) w) with
      | (Throw e, w1) => Some (Throw e, w1)
      | (Ok resp, w1) =>
          match accumulate contentData resp with
          | Throw e => Some (Throw e, w1)
          | Ok contentData =>
              match followNext decodeURI url resp with
              | Throw e => Some (Throw e, w1)
              | Ok url =>
                  if hasNext resp
                  then loadPagesIn server decodeURI pause (S turn) fuel url contentData w1
                  else Some (Ok contentData, w1)
              end
          end
      end
  end.

(** A turn every 2000 seconds: the entry of an hour is found alive once
    and expired the next time. *)
Definition slowTurns : nat -> Z := fun _ => 2000000.

Definition secondPageUrl : string := "https://www.udemy.com/api-2.0/courses/42/items?page=2".

(** A platform that serves a curriculum of two pages. *)
Definition twoPageServer : nat -> string -> string -> Result Payload :=
  fun n _ _ =>
    match n with
    | O => Ok (Page (mkCollection 3 (Some secondPageUrl) None
                       [chapter 1 "Start"; quiz 2 "Check"]))
    | _ => Ok (Page (mkCollection 3 None (Some "first") [quiz 3 "Final"]))
    end.

(** A platform whose page names the empty string as its successor. *)
Definition emptyNextServer : nat -> string -> string -> Result Payload :=
  fun _ _ _ => Ok (Page (mkCollection 1 (Some "") None [chapter 1 "Start"])).

Definition firstOfTwo : Collection :=
  mkCollection 3 (Some secondPageUrl) None [chapter 1 "Start"; quiz 2 "Check"].
Definition secondOfTwo : Collection :=
  mkCollection 3 None (Some "first") [quiz 3 "Final"].

(** The absolute url [fetchLecture] asks for when it hydrates a lecture
    (attachments, the fixed list of asset fields). *)
Definition lectureUrl (urlBase : string) (courseId lectureId : Z) : string :=
  urlBase +:+ "/api-2.0"
    +:+ (("/users/me/subscribed-courses/" +:+ JS.numberToString courseId
            +:+ "/lectures/" +:+ JS.numberToString lectureId
            +:+ "?fields[lecture]=id,title,asset" +:+ ",supplementary_assets")
           +:+ ASSETS_FIELDS).

Definition isLecture (el : Item) : bool := String.eqb (_class el) "lecture".

(** The absolute urls of the two listings. *)
Definition subscribedUrl (urlBase : string) (pageSize : Z) : string :=
  urlBase +:+ "/api-2.0"
    +:+ (URL_COURSES +:+ "?"
           +:+ ("page_size=" +:+ JS.numberToString (Z.max pageSize 10)
                  +:+ "&ordering=-last_accessed")).

Definition enrolledUrl (urlBase : string) (pageSize : Z) : string :=
  urlBase +:+ "/api-2.0"
    +:+ (URL_COURSES_ENROLL +:+ "?"
           +:+ ("page_size=" +:+ JS.numberToString (Z.max pageSize 10)
                  +:+ "&ordering=-last_accessed")).

(** What a call may do to the world: send GET requests to [urls], and
    write to the cache under those urls. *)
Definition reaches (urls : list string) (w w' : World) : Prop :=
  calls w' = calls w ++ map (mkRequest "GET") urls /\
  forall key, ~ In key urls -> cache w' !! key = cache w !! key.

(** A promise that sends nothing and writes under [urls] only. *)
Definition confined {A} (urls : list string) (promise : Promise A) : Prop :=
  forall w,
    calls (snd (promise w)) = calls w /\
    forall key, ~ In key urls -> cache (snd (promise w)) !! key = cache w !! key.

Definition frugalM {A} (m : M A) : Prop :=
  forall w, exists urls, reaches urls w (snd (m w)).

(** An async call that, up to its [await], sends GET requests and leaves
    the cache alone, and whose promise writes under the urls it has
    requested. *)
Definition frugalAsync {A} (task : Async A) : Prop :=
  forall w, exists urls,
    reaches urls w (snd (task w)) /\ cache (snd (task w)) = cache w /\
    confined urls (fst (task w)).

Definition lectureTwice : list Item :=
  [chapter 1 "Start"; mkItem 7 "lecture" "A" None None; mkItem 7 "lecture" "A" None None].

(** A platform on which the subscribed listing fails and every other
    request is answered. *)
Definition halfFailing : nat -> string -> string -> Result Payload :=
  fun n _ _ =>
    match n with
    | O => Throw (unavailable 500)
    | _ => Ok (pageOf [mkItem 1 "course" "Course" None None])
    end.

(** ** The constructor of the service *)

(** [s.trimEnd()], [s.trim()]: white space is the ASCII one, as for
    [trimStart], so that they are [trimEnd] and [trim] on strings of ASCII
    characters. *)
Fixpoint trimEnd (s : string) : string :=
  match s with
  | EmptyString => EmptyString
  | String c rest =>
      match trimEnd rest with
      | EmptyString => if JS.isWhiteSpace c then EmptyString else String c EmptyString
      | kept => String c kept
      end
  end.

Definition trim (s : string) : string := trimEnd (JS.trimStart s).

(** The fields the constructor sets. *)
Record ServiceState : Type := mkService {
  service_urlBase : string;
  service_urlLogin : string;
  service_timeout : Z;
  service_headerAuth : option string
}.

(** [constructor(subDomain = "www", httpTimeout = 40000)], for a
    subdomain of ASCII characters; [None] is an argument left out. *)
Definition constructor (subDomain : option string) (httpTimeout : option Z)
    : ServiceState :=
  let subDomain := match subDomain with Some s => s | None => "www" end in
  let httpTimeout := match httpTimeout with Some t => t | None => 40000 end in
  let subDomain :=
    JS.toLowerCase
      (if Nat.eqb (String.length (trim subDomain)) 0%nat then "www" else trim subDomain) in
  let urlBase := "https://" +:+ subDomain +:+ ".udemy.com" in
  mkService urlBase (urlBase +:+ "/join/login-popup") httpTimeout None.

(** A string of white space only. *)
Fixpoint blank (s : string) : bool :=
  match s with
  | EmptyString => true
  | String c rest => JS.isWhiteSpace c && blank rest
  end.

(** ** The helpers of utils.js *)

Module Utils.

(** The index [Array.prototype.slice] starts or ends at: counted from
    the end when negative, and kept within the array. *)
Definition relativeIndex (len k : Z) : Z :=
  if k <? 0 then Z.max (len + k) 0 else Z.min k len.

(** [array.slice(start, final)] for integer arguments. *)
Definition slice {A} (array : list A) (start final : Z) : list A :=
  let len := Z.of_nat (length array) in
  let k := relativeIndex len start in
  let final := relativeIndex len final in
  firstn (Z.to_nat (final - k)) (skipn (Z.to_nat k) array).

Definition paginate {A} (array : list A) (page_size page_number : Z) : list A :=
  slice array ((page_number - 1) * page_size) (page_number * page_size).

(** [keys.reduce(f)], without an initial value. *)
Definition reduce {A} (f : A -> A -> A) (keys : list A) : Result A :=
  match keys with
  | [] => Throw (TypeError "Reduce of empty array with no initial value")
  | first :: rest => Ok (fold_left f rest first)
  end.

(** [Math.abs(curr - target) < Math.abs(prev - target) ? curr : prev]
    on keys that are integers or NaN ([None]): a comparison with NaN is
    false. *)
Definition closer (target : Z) (prev curr : option Z) : option Z :=
  match prev, curr with
  | Some p, Some c => if Z.abs (c - target) <? Z.abs (p - target) then curr else prev
  | _, _ => prev
  end.

(** The property name a number used as an index stands for. *)
Definition propertyName (key : option Z) : string :=
  match key with
  | Some n => JS.numberToString n
  | None => "NaN"
  end.

(** [obj[name]] of an object given by its own properties in the order
    [Object.keys] lists them. *)
Fixpoint property {V} (name : string) (obj : list (string * V)) : option V :=
  match obj with
  | [] => None
  | (k, v) :: rest => if String.eqb k name then Some v else property name rest
  end.

Record Closest (V : Type) : Type := mkClosest {
  closest_key : option Z;
  closest_value : option V
}.
Arguments mkClosest {V} _ _.
Arguments closest_key {V} _.
Arguments closest_value {V} _.

(** [getClosestValue(obj, target)] for an integer target; [Number] is the
    conversion of a property name, to an integer or to NaN. *)
Definition getClosestValue {V} (Number : string -> option Z)
    (obj : list (string * V)) (target : Z) : Result (Closest V) :=
  let keys := map (fun kv => Number (fst kv)) obj in
  match reduce (closer target) keys with
  | Ok closestKey => Ok (mkClosest closestKey (property (propertyName closestKey) obj))
  | Throw e => Throw e
  end.

End Utils.

(** Property names read as decimal integers. *)
Definition qualityTable : list (string * string) :=
  [("360", "low"); ("720", "high"); ("1080", "full")].

(** An object with no integer-like key: its keys are listed in the
    order they were set, here "auto" before "-5", which reads as a
    number. *)
Definition namedTable : list (string * string) :=
  [("auto", "playlist"); ("-5", "low")].

Definition fiveItems : list Z := [1; 2; 3; 4; 5].

(** The characters a stringified integer is made of. *)
Definition isNumberChar (c : ascii) : bool :=
  match JS.digitValue c with
  | Some _ => true
  | None => Ascii.eqb c "-"
  end.

Fixpoint allNumberChars (s : string) : bool :=
  match s with
  | EmptyString => true
  | String c rest => isNumberChar c && allNumberChars rest
  end.

(** The url [fetchLecture] asks for, which is also its cache key. *)
Definition lectureKey (urlBase : string) (courseId lectureId : Z)
    (getAttachments allAssets : bool) : string :=
  urlBase +:+ "/api-2.0"
    +:+ (("/users/me/subscribed-courses/" +:+ JS.numberToString courseId
            +:+ "/lectures/" +:+ JS.numberToString lectureId
            +:+ "?fields[lecture]=id,title,asset"
            +:+ (if getAttachments then ",supplementary_assets" else ""))
           +:+ (if allAssets then "&fields[asset]=@all" else ASSETS_FIELDS)).

(** ** Stream resolution: lemmas *)

(** *** Assignments to sources *)

Lemma allNumberChars_uint u : allNumberChars (NilEmpty.string_of_uint u) = true.
Proof.
  induction u; cbn [NilEmpty.string_of_uint allNumberChars]; [done|..];
    by rewrite IHu.
Qed.

Lemma allNumberChars_numberToString n : allNumberChars (JS.numberToString n) = true.
Proof.
  unfold JS.numberToString.
  assert (H : forall u, allNumberChars (NilZero.string_of_uint u) = true).
  { intros u. destruct u; try apply allNumberChars_uint. reflexivity. }
  destruct n as [|p|p]; cbn [Z.to_int NilZero.string_of_int]; [reflexivity|apply H|].
  cbn [allNumberChars]. by rewrite H.
Qed.

(** The decimal text of a number is never the name [__proto__]. *)
Lemma numberToString_not_proto n : JS.numberToString n <> "__proto__".
Proof.
  intros H. pose proof (allNumberChars_numberToString n) as Hn.
  rewrite H in Hn. discriminate Hn.
Qed.

Lemma assign_insert key s m : key <> "__proto__" -> assign key s m = <[key := s]> m.
Proof. intros H. unfold assign. by destruct (String.eqb_spec key "__proto__"). Qed.

Lemma assign_number n s m :
  assign (JS.numberToString n) s m = <[JS.numberToString n := s]> m.
Proof. apply assign_insert, numberToString_not_proto. Qed.

Lemma assign_ne key s m k : key <> k -> assign key s m !! k = m !! k.
Proof.
  intros H. unfold assign. destruct (String.eqb key "__proto__"); [done|].
  by apply lookup_insert_ne.
Qed.

Lemma assign_eq key s m :
  key <> "__proto__" -> assign key s m !! key = Some s.
Proof. intros H. rewrite assign_insert by done. apply lookup_insert_eq. Qed.

Lemma assign_proto s m : assign "__proto__" s m = m.
Proof. reflexivity. Qed.

Lemma track_min n t : t_min (track n t) = Z.min n (t_min t).
Proof. unfold track; simpl. destruct (Z.ltb_spec n (t_min t)); lia. Qed.

Lemma track_max n t : t_max (track n t) = Z.max n (t_max t).
Proof.
  unfold track; simpl. rewrite Z.gtb_ltb.
  destruct (Z.ltb_spec (t_max t) n); lia.
Qed.

Lemma track_sources n t : t_sources (track n t) = t_sources t.
Proof. reflexivity. Qed.

Lemma track_eq n t :
  track n t = mkTracker (t_sources t) (Z.min n (t_min t)) (Z.max n (t_max t)).
Proof. rewrite <- track_min, <- track_max. reflexivity. Qed.

Lemma foldr_min_start n s qs :
  foldr Z.min (Z.min n s) qs = Z.min n (foldr Z.min s qs).
Proof. induction qs as [|q qs IH]; simpl; [reflexivity|]. rewrite IH. lia. Qed.

Lemma foldr_max_start n s qs :
  foldr Z.max (Z.max n s) qs = Z.max n (foldr Z.max s qs).
Proof. induction qs as [|q qs IH]; simpl; [reflexivity|]. rewrite IH. lia. Qed.

Lemma foldr_min_perm s (l1 l2 : list Z) :
  Permutation l1 l2 -> foldr Z.min s l1 = foldr Z.min s l2.
Proof. induction 1; simpl; try congruence; lia. Qed.

Lemma foldr_max_perm s (l1 l2 : list Z) :
  Permutation l1 l2 -> foldr Z.max s l1 = foldr Z.max s l2.
Proof. induction 1; simpl; try congruence; lia. Qed.

Lemma foldr_min_app s (l1 l2 : list Z) :
  foldr Z.min s (l1 ++ l2) = foldr Z.min (foldr Z.min s l2) l1.
Proof. apply foldr_app. Qed.

Section StreamLemmas.

Variable loadPlaylist : option string -> Result (list PlaylistItem).
Variable schedule : nat -> nat.

(** The synchronous pass registers every explicit descriptor, tracks
    the numeric ones and suspends one callback per playlist. *)
Lemma syncPart_fold isEnc ds : forall t pending,
  fold_left (syncPart loadPlaylist isEnc) ds (t, pending) =
    (mkTracker (registered ds (t_sources t))
       (foldr Z.min (t_min t) (explicitQualities ds))
       (foldr Z.max (t_max t) (explicitQualities ds)),
     pending ++ (if isEnc then [] else expansions loadPlaylist ds)).
Proof.
  induction ds as [|v ds IH]; intros t pending.
  - simpl. destruct t, isEnc; simpl; by rewrite app_nil_r.
  - cbn [fold_left]. unfold syncPart at 2.
    unfold registered, explicitQualities, expansions, isAuto, isManifest, keyOf, entryOf in *.
    cbn [fold_left omap list_omap].
    destruct (String.eqb (type v) manifestType) eqn:Hm; cbn [negb andb].
    { apply IH. }
    destruct (String.eqb (JS.toLowerCase (label v)) "auto") eqn:Ha; cbn [negb].
    + destruct isEnc; cbn [negb]; rewrite IH; simpl; try reflexivity.
      by rewrite <- app_assoc.
    + destruct (JS.parseInt10 (JS.toLowerCase (label v))) as [n|] eqn:Hp.
      * rewrite IH, track_eq. cbn [t_sources t_min t_max register foldr].
        by rewrite foldr_min_start, foldr_max_start.
      * by rewrite IH.
Qed.

End StreamLemmas.

Lemma insertAt_perm {A} (x : A) l : forall n, Permutation (insertAt n x l) (x :: l).
Proof.
  induction l as [|y l IH]; intros [|n]; simpl; try reflexivity.
  rewrite IH. apply perm_swap.
Qed.

Lemma arrange_perm {A} schedule (pending : list A) : forall k done,
  Permutation (arrange schedule k pending done) (done ++ pending).
Proof.
  induction pending as [|x rest IH]; intros k done; simpl.
  - by rewrite app_nil_r.
  - rewrite IH, insertAt_perm. simpl. apply Permutation_middle.
Qed.

Lemma discoveredQualities_perm l1 l2 :
  Permutation l1 l2 -> Permutation (discoveredQualities l1) (discoveredQualities l2).
Proof. apply Permutation_flat_map. Qed.

Lemma registered_app l1 l2 m :
  registered (l1 ++ l2) m = registered l2 (registered l1 m).
Proof. apply fold_left_app. Qed.

Lemma registered_untouched k l : forall m,
  (forall v, In v l -> isManifest v = false -> keyOf v <> k) ->
  registered l m !! k = m !! k.
Proof.
  induction l as [|v l IH]; intros m Hl; [reflexivity|].
  unfold registered in *. cbn [fold_left].
  rewrite IH by (intros; apply Hl; [by right|done]).
  destruct (isManifest v) eqn:Hm; [reflexivity|].
  apply assign_ne. apply Hl; [by left|done].
Qed.

(** Every key of the explicit pass is the key of a descriptor that is
    not a manifest. *)
Lemma registered_dom k l : forall m,
  is_Some (registered l m !! k) <->
  is_Some (m !! k) \/
  exists v, In v l /\ isManifest v = false /\ keyOf v = k /\ k <> "__proto__".
Proof.
  induction l as [|v l IH]; intros m.
  - simpl. split; [by left|]. intros [H|(v & [] & _)]. done.
  - unfold registered in *. cbn [fold_left]. rewrite IH.
    destruct (isManifest v) eqn:Hm.
    + split.
      * intros [H|(v' & Hin & Hv)]; [by left|]. right. exists v'. split; [by right|done].
      * intros [H|(v' & [->|Hin] & Hm' & Hk)]; [by left| congruence |].
        right. by exists v'.
    + destruct (decide (keyOf v = k)) as [<-|Hne].
      * destruct (decide (keyOf v = "__proto__")) as [Hp|Hp].
        -- rewrite Hp, assign_proto. split.
           ++ intros [H|(v' & Hin & Hv)]; [by left|]. right. exists v'.
              split; [by right|done].
           ++ intros [H|(v' & _ & _ & _ & Hk)]; [by left|done].
        -- split; intros _.
           ++ right. exists v. split; [by left|done].
           ++ left. rewrite assign_eq by done. by eexists.
      * rewrite assign_ne by done. split.
        -- intros [H|(v' & Hin & Hv)]; [by left|]. right. exists v'. split; [by right|done].
        -- intros [H|(v' & [->|Hin] & Hm' & Hk & Hp)]; [by left| congruence |].
           right. by exists v'.
Qed.

Lemma registered_origin k e l : forall m,
  registered l m !! k = Some e ->
  m !! k = Some e \/
  exists v, In v l /\ isManifest v = false /\ keyOf v = k /\ e = entryOf v.
Proof.
  induction l as [|v l IH]; intros m; [by left|].
  unfold registered in *. cbn [fold_left]. intros H.
  destruct (IH _ H) as [Hm|(v' & Hin & Hv)].
  - destruct (isManifest v) eqn:Hman; [by left|].
    destruct (decide (keyOf v = "__proto__")) as [Hp|Hp].
    { rewrite Hp, assign_proto in Hm. by left. }
    destruct (decide (keyOf v = k)) as [Hk|Hk].
    + subst k. rewrite assign_eq in Hm by done. injection Hm as <-.
      right. exists v. split; [by left|done].
    + rewrite assign_ne in Hm by done. by left.
  - right. exists v'. split; [by right|done].
Qed.

(** The entry under a key is that of the last descriptor registered
    under it. *)
Lemma registered_last before v after m :
  isManifest v = false -> keyOf v <> "__proto__" ->
  (forall v', In v' after -> isManifest v' = false -> keyOf v' <> keyOf v) ->
  registered (before ++ v :: after) m !! keyOf v = Some (entryOf v).
Proof.
  intros Hm Hp Hafter. rewrite registered_app. unfold registered at 1. cbn [fold_left].
  fold (registered after). rewrite Hm, registered_untouched by done.
  by apply assign_eq.
Qed.

Lemma discover_min ty t item :
  t_min (discover ty t item) = Z.min (quality item) (t_min t).
Proof.
  unfold discover. destruct (_ !! _); simpl; apply track_min.
Qed.

Lemma discover_max ty t item :
  t_max (discover ty t item) = Z.max (quality item) (t_max t).
Proof.
  unfold discover. destruct (_ !! _); simpl; apply track_max.
Qed.

(** A discovered pair never overwrites a key that is there. *)
Lemma discover_keep ty t item k e :
  t_sources t !! k = Some e -> t_sources (discover ty t item) !! k = Some e.
Proof.
  intros H. unfold discover. rewrite track_sources.
  destruct (t_sources t !! JS.numberToString (quality item)) eqn:Hk; [done|].
  simpl. rewrite assign_number, lookup_insert_ne; [done | congruence].
Qed.

Lemma discover_present ty t item :
  is_Some (t_sources (discover ty t item) !! JS.numberToString (quality item)).
Proof.
  unfold discover. rewrite track_sources.
  destruct (t_sources t !! JS.numberToString (quality item)) eqn:Hk.
  - simpl. rewrite Hk. by eexists.
  - simpl. rewrite assign_number, lookup_insert_eq. by eexists.
Qed.

Lemma discover_origin ty t item k e :
  t_sources (discover ty t item) !! k = Some e ->
  t_sources t !! k = Some e \/
  (t_sources t !! k = None /\ k = JS.numberToString (quality item) /\
   e = mkSource ty (Some (playlist_url item))).
Proof.
  unfold discover. rewrite track_sources.
  destruct (t_sources t !! JS.numberToString (quality item)) eqn:Hk; [by left|].
  simpl. rewrite assign_number.
  destruct (decide (JS.numberToString (quality item) = k)) as [<-|Hne].
  - rewrite lookup_insert_eq. intros [= <-]. by right.
  - rewrite lookup_insert_ne by done. by left.
Qed.

(** What one resumed callback leaves behind. *)
Lemma discover_fold ty playlist : forall t,
  let t' := fold_left (discover ty) playlist t in
  t_min t' = foldr Z.min (t_min t) (map quality playlist) /\
  t_max t' = foldr Z.max (t_max t) (map quality playlist) /\
  (forall k e, t_sources t !! k = Some e -> t_sources t' !! k = Some e) /\
  (forall item, In item playlist ->
     is_Some (t_sources t' !! JS.numberToString (quality item))) /\
  (forall k e, t_sources t' !! k = Some e ->
     t_sources t !! k = Some e \/
     (t_sources t !! k = None /\
      exists item, In item playlist /\ k = JS.numberToString (quality item) /\
                   e = mkSource ty (Some (playlist_url item)))).
Proof.
  induction playlist as [|item playlist IH]; intros t; cbn zeta.
  - simpl. repeat split; try done. by left.
  - cbn [fold_left map foldr].
    destruct (IH (discover ty t item)) as (Hmin & Hmax & Hkeep & Hpres & Horig).
    split; [|split; [|split; [|split]]].
    + rewrite Hmin, discover_min. apply foldr_min_start.
    + rewrite Hmax, discover_max. apply foldr_max_start.
    + intros k e H. by apply Hkeep, discover_keep.
    + intros item' [<-|Hin]; [|by apply Hpres].
      destruct (discover_present ty t item) as [e He].
      exists e. by apply Hkeep.
    + intros k e H. destruct (Horig k e H) as [H1|(H1 & item' & Hin & -> & ->)].
      * destruct (discover_origin _ _ _ _ _ H1) as [H2|(H2 & -> & ->)]; [by left|].
        right. split; [done|]. exists item. split; [by left|done].
      * destruct (t_sources t !! JS.numberToString (quality item')) eqn:Hk.
        -- apply (discover_keep ty t item) in Hk. congruence.
        -- right. split; [done|]. exists item'. split; [by right|done].
Qed.

(** What the resumed callbacks leave behind when every playlist loads. *)
Lemma resumeAll_ok pending : forall t,
  (forall x, In x pending -> exists playlist, snd x = Ok playlist) ->
  exists t', resumeAll pending t = Ok t' /\
    t_min t' = foldr Z.min (t_min t) (discoveredQualities pending) /\
    t_max t' = foldr Z.max (t_max t) (discoveredQualities pending) /\
    (forall k e, t_sources t !! k = Some e -> t_sources t' !! k = Some e) /\
    (forall ty playlist item, In (ty, Ok playlist) pending -> In item playlist ->
       is_Some (t_sources t' !! JS.numberToString (quality item))) /\
    (forall k e, t_sources t' !! k = Some e ->
       t_sources t !! k = Some e \/
       (t_sources t !! k = None /\
        exists ty playlist item, In (ty, Ok playlist) pending /\ In item playlist /\
          k = JS.numberToString (quality item) /\
          e = mkSource ty (Some (playlist_url item)))).
Proof.
  induction pending as [|[ty r] pending IH]; intros t Hall.
  - exists t. simpl. repeat split; try done. by left.
  - destruct (Hall (ty, r)) as [playlist Hr]; [by left|]. simpl in Hr. subst r.
    cbn [resumeAll].
    destruct (discover_fold ty playlist t) as (Hmin & Hmax & Hkeep & Hpres & Horig).
    destruct (IH (fold_left (discover ty) playlist t)) as
      (t' & Hrun & Hmin' & Hmax' & Hkeep' & Hpres' & Horig').
    { intros x Hx. apply Hall. by right. }
    exists t'. split; [done|].
    unfold discoveredQualities in *. cbn [flat_map snd].
    split; [|split; [|split; [|split]]].
    + rewrite Hmin', Hmin, !foldr_app.
      rewrite <- !foldr_app. apply foldr_min_perm, Permutation_app_comm.
    + rewrite Hmax', Hmax, !foldr_app.
      rewrite <- !foldr_app. apply foldr_max_perm, Permutation_app_comm.
    + intros k e H. by apply Hkeep', Hkeep.
    + intros ty' pl' item [[= -> ->]|Hin] Hitem.
      * destruct (Hpres item Hitem) as [e He]. exists e. by apply Hkeep'.
      * by apply (Hpres' ty' pl').
    + intros k e H.
      destruct (Horig' k e H) as [H1|(H1 & ty' & pl' & item & Hin & Hitem & -> & ->)].
      * destruct (Horig k e H1) as [H2|(H2 & item & Hitem & -> & ->)]; [by left|].
        right. split; [done|]. exists ty, playlist, item. split; [by left|done].
      * destruct (t_sources t !! JS.numberToString (quality item)) eqn:Hk.
        -- apply Hkeep in Hk. congruence.
        -- right. split; [done|]. exists ty', pl', item. split; [by right|done].
Qed.


(** ** Stream resolution: the claims *)

(** C1, refuted as stated: an absent descriptor list reaches the caller
    under the name ECONVERT_TO_STREAMS, and an empty list does not fail. *)
Lemma absent_or_empty_never_ENO_STREAMS :
  let absent := _convertToStreams noPlaylist inOrder None false "" in
  let empty := _convertToStreams noPlaylist inOrder (Some []) false "" in
  absent = Throw (mkError "ECONVERT_TO_STREAMS" "No streams found to convert" None) /\
  empty = Ok (mkStreams None None false ∅) /\
  ~ (exists e, absent = Throw e /\ name e = "ENO_STREAMS") /\
  ~ (exists e, empty = Throw e).
Proof.
  cbv zeta. split; [reflexivity|]. split; [reflexivity|]. split.
  - intros (e & He & Hn). cbv in He. injection He as <-. discriminate Hn.
  - intros (e & He). discriminate He.
Qed.

(** C1, amended: for an absent descriptor list the body of
    _convertToStreams raises ENO_STREAMS, the function's own handler wraps
    it, and the caller receives ECONVERT_TO_STREAMS with the message
    "No streams found to convert"; an empty list is resolved, to null
    bounds, the encryption hint and no sources. *)
Theorem absent_descriptors_fail_wrapped loadPlaylist schedule isEnc title :
  convertBody loadPlaylist schedule None isEnc
    = Throw (_error "ENO_STREAMS" "No streams found to convert") /\
  _convertToStreams loadPlaylist schedule None isEnc title
    = Throw (_error "ECONVERT_TO_STREAMS" "No streams found to convert") /\
  _convertToStreams loadPlaylist schedule (Some []) isEnc title
    = Ok (mkStreams None None isEnc ∅).
Proof.
  split; [reflexivity|]. split; [reflexivity|].
  destruct isEnc; reflexivity.
Qed.

Lemma filterPlain_all_encrypted ds :
  Forall (fun v => exists u, urlOf v = Some u /\ JS.includes encryptedMarker u = true) ds ->
  filterPlain ds = Ok [].
Proof.
  induction 1 as [|v ds (u & Hu & Hinc) _ IH]; [reflexivity|].
  simpl. by rewrite Hu, IH, Hinc.
Qed.

Lemma registered_present ds v : forall m,
  In v ds -> isManifest v = false -> keyOf v <> "__proto__" ->
  is_Some (registered ds m !! keyOf v).
Proof.
  intros m Hin Hm Hp. apply registered_dom. right. by exists v.
Qed.

(** C2, refuted as stated: one descriptor, whose url carries the marker,
    resolved under an encryption hint; the flag of the result is true. *)
Lemma all_encrypted_flag_stays_true :
  _convertToStreams noPlaylist inOrder (Some encryptedOnly) true ""
    = Ok (mkStreams (Some "720") (Some "720") true
            {[ "720" := mkSource "video/mp4"
                          (Some "https://cdn.example/encrypted-files/720.mp4") ]}) /\
  ~ (exists r, _convertToStreams noPlaylist inOrder (Some encryptedOnly) true "" = Ok r /\
               isEncrypted r = false).
Proof.
  assert (H : _convertToStreams noPlaylist inOrder (Some encryptedOnly) true ""
    = Ok (mkStreams (Some "720") (Some "720") true
            {[ "720" := mkSource "video/mp4"
                          (Some "https://cdn.example/encrypted-files/720.mp4") ]}))
    by (vm_compute; reflexivity).
  split; [exact H|].
  intros (r & Hr & Hflag). rewrite H in Hr. injection Hr as <-. discriminate Hflag.
Qed.

(** C2, amended: for every non-empty descriptor list resolved under an
    encryption hint whose urls all contain "/encrypted-files", filtering
    empties the candidate set, the isEncrypted flag of the result stays
    true, and the unfiltered list is used: the sources are those of all
    the original descriptors. Every descriptor that is not a manifest has
    its key in sources, unless the key is __proto__, which sets the
    prototype of sources and adds no key; the entry under a key is the
    type and url of the last descriptor that has the key; and sources
    holds nothing else. Labels are made of ASCII characters. *)
Theorem all_encrypted_uses_unfiltered loadPlaylist schedule ds title :
  ds <> [] -> asciiLabels ds ->
  Forall (fun v => exists u, urlOf v = Some u /\ JS.includes encryptedMarker u = true) ds ->
  filterPlain ds = Ok [] /\
  exists r, _convertToStreams loadPlaylist schedule (Some ds) true title = Ok r /\
    isEncrypted r = true /\
    sources r = registered ds ∅ /\
    (forall v, In v ds -> isManifest v = false -> keyOf v <> "__proto__" ->
       is_Some (sources r !! keyOf v)) /\
    (forall before v after,
       ds = before ++ v :: after -> isManifest v = false -> keyOf v <> "__proto__" ->
       (forall v', In v' after -> isManifest v' = false -> keyOf v' <> keyOf v) ->
       sources r !! keyOf v = Some (entryOf v)) /\
    (forall k e, sources r !! k = Some e ->
       k <> "__proto__" /\
       exists v, In v ds /\ isManifest v = false /\ keyOf v = k /\ e = entryOf v).
Proof.
  intros Hne _ Hall. pose proof (filterPlain_all_encrypted ds Hall) as Hf.
  split; [exact Hf|].
  unfold _convertToStreams, convertBody. cbn [negb]. rewrite Hf.
  cbn [length Nat.eqb Nat.ltb Nat.leb].
  rewrite syncPart_fold. cbn [app arrange resumeAll tryCatch t_sources t_min t_max].
  eexists. split; [reflexivity|]. cbn [isEncrypted sources].
  split; [reflexivity|]. split; [reflexivity|]. split; [|split].
  - intros v Hin Hm Hp. by apply registered_present.
  - intros before v after -> Hm Hp Hafter. by apply registered_last.
  - intros k e He. split.
    + intros ->. assert (Hs : is_Some (registered ds ∅ !! "__proto__")) by by eexists.
      apply registered_dom in Hs as [[? Hs]|(v & _ & _ & _ & Hp)]; [|done].
      by rewrite lookup_empty in Hs.
    + destruct (registered_origin _ _ _ _ He) as [H|H]; [|done].
      by rewrite lookup_empty in H.
Qed.

Lemma all_encrypted_uses_unfiltered_witness :
  filterPlain encryptedPair = Ok [] /\
  exists r, _convertToStreams noPlaylist inOrder (Some encryptedPair) true "" = Ok r /\
    isEncrypted r = true /\
    sources r = registered encryptedPair ∅ /\
    (forall v, In v encryptedPair -> isManifest v = false -> keyOf v <> "__proto__" ->
       is_Some (sources r !! keyOf v)) /\
    (forall before v after,
       encryptedPair = before ++ v :: after -> isManifest v = false ->
       keyOf v <> "__proto__" ->
       (forall v', In v' after -> isManifest v' = false -> keyOf v' <> keyOf v) ->
       sources r !! keyOf v = Some (entryOf v)) /\
    (forall k e, sources r !! k = Some e ->
       k <> "__proto__" /\
       exists v, In v encryptedPair /\ isManifest v = false /\ keyOf v = k /\
                 e = entryOf v).
Proof.
  apply (all_encrypted_uses_unfiltered noPlaylist inOrder encryptedPair "").
  - discriminate.
  - repeat constructor.
  - repeat constructor; eexists; split; reflexivity.
Defined.

(** The label __proto__: resolution goes through, and the descriptor
    leaves no key behind. *)
Example proto_label_adds_no_key :
  _convertToStreams noPlaylist inOrder
    (Some [mp4 "__proto__" "https://cdn.example/encrypted-files/x.mp4";
           mp4 "720" "https://cdn.example/encrypted-files/720.mp4"]) true ""
    = Ok (mkStreams (Some "720") (Some "720") true
            {[ "720" := mkSource "video/mp4"
                          (Some "https://cdn.example/encrypted-files/720.mp4") ]}).
Proof. vm_compute. reflexivity. Qed.

(** *** Labels made of digits *)

Lemma digit_cases c d :
  JS.digitValue c = Some d ->
  JS.lowerChar c = c /\ JS.isWhiteSpace c = false /\
  c <> "-"%char /\ c <> "+"%char /\ c <> "a"%char /\ 0 <= d.
Proof.
  destruct c as [[] [] [] [] [] [] [] []]; vm_compute; intros H;
    try discriminate H; injection H as <-;
    (repeat split; try discriminate; reflexivity).
Qed.

Lemma toLowerCase_digits s : allDigits s = true -> JS.toLowerCase s = s.
Proof.
  induction s as [|c s IH]; simpl; [reflexivity|].
  destruct (JS.digitValue c) as [d|] eqn:Hd; [|discriminate].
  intros H. rewrite IH by done.
  by destruct (digit_cases c d Hd) as (-> & _).
Qed.

Lemma digitsValue_nonneg l : 0 <= digitsValue l.
Proof.
  induction l as [|c l IH]; simpl; [lia|].
  destruct (JS.digitValue c) as [d|] eqn:Hd; [|lia].
  destruct (digit_cases c d Hd) as (_ & _ & _ & _ & _ & ?). lia.
Qed.

Lemma readDigits_digits s : forall before,
  allDigits s = true ->
  JS.readDigits (Some (digitsValue before)) s
    = Some (digitsValue (rev (list_ascii_of_string s) ++ before)).
Proof.
  induction s as [|c s IH]; intros before; simpl; [reflexivity|].
  destruct (JS.digitValue c) as [d|] eqn:Hd; [|discriminate].
  intros H. rewrite <- app_assoc. simpl.
  rewrite <- (IH (c :: before) H). simpl. by rewrite Hd.
Qed.

(** On a label of digits [parseInt] reads the whole label. *)
Lemma parseInt10_digits s :
  isNumericLabel s = true -> JS.parseInt10 s = Some (labelValue s).
Proof.
  unfold isNumericLabel, labelValue. destruct s as [|c s]; [discriminate|].
  cbn [String.eqb negb andb allDigits].
  destruct (JS.digitValue c) as [d|] eqn:Hd; [|discriminate].
  intros H. destruct (digit_cases c d Hd) as (_ & Hw & Hm & Hp & _ & Hd0).
  unfold JS.parseInt10. cbn [JS.trimStart]. rewrite Hw.
  assert (Hread : JS.readDigits None (String c s)
                  = Some (digitsValue (rev (list_ascii_of_string (String c s))))).
  { cbn [JS.readDigits list_ascii_of_string rev]. rewrite Hd.
    replace d with (digitsValue [c]) by (simpl; rewrite Hd; lia).
    by rewrite readDigits_digits. }
  destruct c as [[] [] [] [] [] [] [] []]; try exact Hread; congruence.
Qed.

Lemma numericLabel_not_auto s :
  isNumericLabel s = true -> String.eqb s "auto" = false.
Proof.
  unfold isNumericLabel. destruct s as [|c s]; [discriminate|].
  cbn [String.eqb negb andb allDigits].
  destruct (JS.digitValue c) as [d|] eqn:Hd; [|discriminate].
  intros _. destruct (digit_cases c d Hd) as (_ & _ & _ & _ & Ha & _).
  simpl. destruct (Ascii.eqb_spec c "a"); [congruence|reflexivity].
Qed.

Lemma numericLabel_key v :
  isNumericLabel (label v) = true -> keyOf v = label v.
Proof.
  unfold isNumericLabel, keyOf. intros [_ H]%andb_prop. by apply toLowerCase_digits.
Qed.

(** *** Bounds of a non-empty list *)

Lemma foldr_min_spec s qs :
  qs <> [] -> Forall (fun q => q < s) qs ->
  In (foldr Z.min s qs) qs /\ Forall (Z.le (foldr Z.min s qs)) qs.
Proof.
  induction qs as [|q qs IH]; [done|]. intros _ Hall.
  apply Forall_cons in Hall as [Hq Hall]. cbn [foldr].
  destruct qs as [|q' qs].
  - simpl. split; [left; lia|]. repeat constructor. lia.
  - destruct IH as [Hin Hle]; [done|done|].
    set (m := foldr Z.min s (q' :: qs)) in *.
    destruct (Z.min_spec q m) as [[Hlt ->]|[Hge ->]].
    + split; [by left|]. constructor; [lia|].
      eapply Forall_impl; [exact Hle|]. simpl; intros; lia.
    + split; [by right|]. constructor; [lia|done].
Qed.

Lemma foldr_max_spec s qs :
  qs <> [] -> Forall (fun q => s < q) qs ->
  In (foldr Z.max s qs) qs /\ Forall (fun q => q <= foldr Z.max s qs) qs.
Proof.
  induction qs as [|q qs IH]; [done|]. intros _ Hall.
  apply Forall_cons in Hall as [Hq Hall]. cbn [foldr].
  destruct qs as [|q' qs].
  - simpl. split; [left; lia|]. repeat constructor. lia.
  - destruct IH as [Hin Hle]; [done|done|].
    set (m := foldr Z.max s (q' :: qs)) in *.
    destruct (Z.max_spec q m) as [[Hlt ->]|[Hge ->]].
    + split; [by right|]. constructor; [lia|done].
    + split; [by left|]. constructor; [lia|].
      eapply Forall_impl; [exact Hle|]. simpl; intros; lia.
Qed.

Lemma explicitQualities_numeric ds :
  Forall numericDescriptor ds ->
  explicitQualities ds = map (fun v => labelValue (label v)) ds.
Proof.
  induction 1 as [|v ds [Hm Hn] _ IH]; [reflexivity|].
  unfold explicitQualities in *. cbn [omap list_omap map].
  rewrite Hm, (numericLabel_key v Hn), (numericLabel_not_auto _ Hn),
    (parseInt10_digits _ Hn). simpl. by rewrite <- IH.
Qed.

Lemma expansions_numeric loadPlaylist ds :
  Forall numericDescriptor ds -> expansions loadPlaylist ds = [].
Proof.
  induction 1 as [|v ds [Hm Hn] _ IH]; [reflexivity|].
  unfold expansions, isAuto in *. cbn [omap list_omap].
  rewrite Hm, (numericLabel_key v Hn), (numericLabel_not_auto _ Hn). simpl. exact IH.
Qed.

Lemma registered_numeric_dom ds :
  Forall numericDescriptor ds ->
  dom (registered ds ∅) = list_to_set (map label ds).
Proof.
  intros Hall. apply set_eq. intros k.
  rewrite elem_of_dom, registered_dom, elem_of_list_to_set, list_elem_of_In, in_map_iff.
  rewrite List.Forall_forall in Hall. split.
  - intros [[? H]|(v & Hin & _ & Hk & _)]; [by rewrite lookup_empty in H|].
    exists v. split; [|done]. rewrite <- Hk. symmetry.
    apply numericLabel_key, (Hall v Hin).
  - intros (v & Hk & Hin). right. exists v. split; [done|].
    destruct (Hall v Hin) as [Hm Hn]. split; [done|].
    split; [by rewrite (numericLabel_key v Hn)|].
    intros ->. rewrite Hk in Hn. discriminate Hn.
Qed.

(** C3, refuted as stated: a single descriptor whose label is the number
    9007199254740991; no minimum is reported. *)
Lemma sentinel_label_has_no_minimum :
  Forall numericDescriptor sentinelLabel /\
  _convertToStreams noPlaylist inOrder (Some sentinelLabel) false ""
    = Ok (mkStreams None (Some "9007199254740991") false
            {[ "9007199254740991" := mkSource "video/mp4" (Some "a") ]}).
Proof.
  split; [repeat constructor|]. vm_compute. reflexivity.
Qed.

(** C3, amended: for every non-empty list of descriptors that are not
    manifests, resolved without an encryption hint, whose labels are
    strings of decimal digits of value below 9007199254740991
    (Number.MAX_SAFE_INTEGER), minQuality and maxQuality are the
    stringified minimum and maximum of the label values, and the keys of
    sources are exactly the labels: one entry per distinct label. *)
Theorem numeric_labels_bounds loadPlaylist schedule ds title :
  ds <> [] ->
  Forall numericDescriptor ds ->
  Forall (fun v => labelValue (label v) < JS.MAX_SAFE_INTEGER) ds ->
  let values := map (fun v => labelValue (label v)) ds in
  exists r lo hi,
    _convertToStreams loadPlaylist schedule (Some ds) false title = Ok r /\
    minQuality r = Some (JS.numberToString lo) /\
    maxQuality r = Some (JS.numberToString hi) /\
    In lo values /\ Forall (Z.le lo) values /\
    In hi values /\ Forall (fun n => n <= hi) values /\
    isEncrypted r = false /\
    dom (sources r) = list_to_set (map label ds).
Proof.
  intros Hne Hnum Hsafe values.
  assert (Hvals : values <> []) by (subst values; destruct ds; done).
  assert (Hlt : Forall (fun q => q < JS.MAX_SAFE_INTEGER) values).
  { subst values. rewrite List.Forall_forall in Hsafe |- *. intros q (v & <- & Hin)%in_map_iff.
    by apply Hsafe. }
  assert (Hgt : Forall (fun q => JS.MIN_SAFE_INTEGER < q) values).
  { subst values. apply List.Forall_forall. intros q (v & <- & Hin)%in_map_iff.
    pose proof (digitsValue_nonneg (rev (list_ascii_of_string (label v)))).
    unfold labelValue, JS.MIN_SAFE_INTEGER. lia. }
  destruct (foldr_min_spec _ _ Hvals Hlt) as [Hlo1 Hlo2].
  destruct (foldr_max_spec _ _ Hvals Hgt) as [Hhi1 Hhi2].
  set (lo := foldr Z.min JS.MAX_SAFE_INTEGER values) in *.
  set (hi := foldr Z.max JS.MIN_SAFE_INTEGER values) in *.
  unfold _convertToStreams, convertBody. cbn [negb].
  replace (Nat.ltb 0 (length ds)) with true by (destruct ds; done).
  rewrite syncPart_fold, expansions_numeric, explicitQualities_numeric by done.
  cbn [app arrange resumeAll tryCatch t_sources t_min t_max].
  fold values lo hi.
  eexists _, lo, hi. split; [reflexivity|]. cbn [minQuality maxQuality isEncrypted sources].
  assert (Hlo3 : lo < JS.MAX_SAFE_INTEGER).
  { rewrite List.Forall_forall in Hlt. by apply Hlt. }
  assert (Hhi3 : JS.MIN_SAFE_INTEGER < hi).
  { rewrite List.Forall_forall in Hgt. by apply Hgt. }
  unfold finalQuality.
  destruct (Z.eqb_spec lo JS.MAX_SAFE_INTEGER); [lia|].
  destruct (Z.eqb_spec hi JS.MIN_SAFE_INTEGER); [lia|].
  repeat (split; [done|]). by apply registered_numeric_dom.
Qed.

Lemma numeric_labels_bounds_witness :
  exists r lo hi,
    _convertToStreams noPlaylist inOrder (Some [mp4 "720" "b"; mp4 "360" "a"]) false ""
      = Ok r /\
    minQuality r = Some (JS.numberToString lo) /\
    maxQuality r = Some (JS.numberToString hi) /\
    In lo [720; 360] /\ Forall (Z.le lo) [720; 360] /\
    In hi [720; 360] /\ Forall (fun n => n <= hi) [720; 360] /\
    isEncrypted r = false /\
    dom (sources r) = list_to_set ["720"; "360"].
Proof.
  apply (numeric_labels_bounds noPlaylist inOrder [mp4 "720" "b"; mp4 "360" "a"] "").
  - discriminate.
  - repeat constructor.
  - repeat constructor.
Defined.

(** *** Playlists *)

Lemma expansions_In loadPlaylist ds x :
  In x (expansions loadPlaylist ds) <->
  exists v, In v ds /\ isAuto v = true /\ x = (type v, loadPlaylist (urlOf v)).
Proof.
  unfold expansions. rewrite <- list_elem_of_In, list_elem_of_omap. split.
  - intros (v & Hin%list_elem_of_In & Hv). exists v. split; [done|].
    destruct (isAuto v); [|discriminate]. by injection Hv as <-.
  - intros (v & Hin%list_elem_of_In & Ha & ->). exists v. split; [done|]. by rewrite Ha.
Qed.

Lemma select_same {A} (b : bool) (x : A) : (if b then x else x) = x.
Proof. by destruct b. Qed.




(** The example of the specification: 360 and 720 explicit, 480 found in
    the playlist of the "auto" descriptor. *)
Example spec_example_resolution :
  _convertToStreams playlist480 inOrder (Some specExample) false ""
    = Ok (mkStreams (Some "360") (Some "720") false
            (<["360" := mkSource "video/mp4" (Some "a")]>
               (<["480" := mkSource "application/x-mpegURL" (Some "d")]>
                  (<["720" := mkSource "video/mp4" (Some "b")]>
                     {["auto" := mkSource "application/x-mpegURL" (Some "c")]})))).
Proof. vm_compute. reflexivity. Qed.

(** ** The response cache *)

Section CacheLemmas.

Variable server : nat -> string -> string -> Result Payload.

(** A live, truthy entry answers the request; nothing else happens. *)
Lemma fetchUrl_hit url method w e :
  cache w !! url = Some e -> now w <= NodeCache.expires e ->
  truthy (NodeCache.value e) = true ->
  await (fetchUrl server url method) w = (Ok (NodeCache.value e), w).
Proof.
  intros He Hlive Ht. unfold await, fetchUrl, NodeCache.get. rewrite He.
  destruct (Z.ltb_spec (NodeCache.expires e) (now w)); [lia|].
  by rewrite Ht.
Qed.

(** Otherwise exactly one request goes out, and a response is stored
    under the url. *)
Lemma fetchUrl_miss url method w :
  isMiss url w ->
  await (fetchUrl server url method) w =
    match server (length (calls w)) method url with
    | Ok data => (Ok data, stored url method data w)
    | Throw e => (Throw e, mkWorld (cache w) (now w) (calls w ++ [mkRequest method url]))
    end.
Proof.
  unfold isMiss, await, fetchUrl, stored.
  destruct (NodeCache.get (cache w) (now w) url) as [d|]; intros Hm.
  - rewrite Hm. cbn. by destruct (server _ _ _).
  - cbn. by destruct (server _ _ _).
Qed.

Lemma expired_isMiss url method data w ms :
  NodeCache.stdTTL * 1000 < ms -> isMiss url (advance ms (stored url method data w)).
Proof.
  intros Hms. unfold isMiss, advance, stored, NodeCache.get, NodeCache.set. cbn.
  rewrite lookup_insert_eq. cbn.
  destruct (Z.ltb_spec (now w + NodeCache.stdTTL * 1000) (now w + ms)); [done|lia].
Qed.

Lemma stored_hit url m1 m2 data w ms :
  truthy data = true -> 0 <= ms <= NodeCache.stdTTL * 1000 ->
  await (fetchUrl server url m2) (advance ms (stored url m1 data w))
    = (Ok data, advance ms (stored url m1 data w)).
Proof.
  intros Ht Hms.
  apply (fetchUrl_hit url m2 _ (NodeCache.mkEntry data (now w + NodeCache.stdTTL * 1000))).
  - cbn. unfold NodeCache.set. apply lookup_insert_eq.
  - cbn. lia.
  - exact Ht.
Qed.

End CacheLemmas.

(** C8, refuted as stated: the platform answers with an empty body; the
    same request, one second later, goes out to the network again. *)
Lemma empty_body_is_fetched_again :
  let first := await (fetchUrl silentServer sampleUrl "GET") freshWorld in
  let second := await (fetchUrl silentServer sampleUrl "GET") (advance 1000 (snd first)) in
  fst first = Ok EmptyBody /\ fst second = Ok EmptyBody /\
  calls (snd first) = [mkRequest "GET" sampleUrl] /\
  calls (snd second) = [mkRequest "GET" sampleUrl; mkRequest "GET" sampleUrl].
Proof. vm_compute. repeat split. Qed.

(** C8, amended: once a request has stored a truthy response (any JSON
    object; not an empty body), every identical request made within the
    TTL of 3600 seconds is answered with the stored value and sends
    nothing to the network; the first identical request made after the
    TTL has passed sends exactly one request. *)
Theorem repeated_request_hits_cache server url method data w :
  isMiss url w ->
  server (length (calls w)) method url = Ok data ->
  truthy data = true ->
  let w1 := stored url method data w in
  await (fetchUrl server url method) w = (Ok data, w1) /\
  (forall ms, 0 <= ms <= 3600 * 1000 ->
     await (fetchUrl server url method) (advance ms w1) = (Ok data, advance ms w1)) /\
  (forall ms, 3600 * 1000 < ms ->
     calls (snd (await (fetchUrl server url method) (advance ms w1)))
       = calls w1 ++ [mkRequest method url]).
Proof.
  intros Hmiss Hdata Ht w1. split; [|split].
  - by rewrite fetchUrl_miss, Hdata.
  - intros ms Hms. by apply stored_hit.
  - intros ms Hms. rewrite fetchUrl_miss by (by apply expired_isMiss).
    destruct (server (length (calls (advance ms w1))) method url); reflexivity.
Qed.

Lemma repeated_request_hits_cache_witness :
  let w1 := stored sampleUrl "GET" (pageOf [chapter 1 "got"]) freshWorld in
  await (fetchUrl methodServer sampleUrl "GET") freshWorld
    = (Ok (pageOf [chapter 1 "got"]), w1) /\
  (forall ms, 0 <= ms <= 3600 * 1000 ->
     await (fetchUrl methodServer sampleUrl "GET") (advance ms w1)
       = (Ok (pageOf [chapter 1 "got"]), advance ms w1)) /\
  (forall ms, 3600 * 1000 < ms ->
     calls (snd (await (fetchUrl methodServer sampleUrl "GET") (advance ms w1)))
       = calls w1 ++ [mkRequest "GET" sampleUrl]).
Proof.
  apply (repeated_request_hits_cache methodServer sampleUrl "GET"
           (pageOf [chapter 1 "got"]) freshWorld).
  - exact I.
  - reflexivity.
  - reflexivity.
Defined.




(** ** Course listings *)

Lemma mergeListings_pages c1 c2 :
  mergeListings (Page c1) (Page c2) = Ok (merged c1 c2).
Proof.
  unfold mergeListings, merged, nonNull.
  destruct (next c1), (next c2), (previous c1), (previous c2); reflexivity.
Qed.

Lemma listCourses_merge urlBase server url urlEnroll w c1 c2 w' :
  both (fetchEndpoint urlBase server url "GET")
       (fetchEndpoint urlBase server urlEnroll "GET") w
    = (Ok (Page c1, Page c2), w') ->
  listCourses urlBase server url urlEnroll true w = (Ok (Combined (merged c1 c2)), w').
Proof.
  intros H. unfold listCourses, bind. rewrite H, mergeListings_pages. reflexivity.
Qed.

(** C5: when the subscribed and the enrolled collection have been fetched
    for a subscriber, [fetchCourses] and [fetchSearchCourses] return the
    collection whose count is the sum of the two counts, whose results
    are the two result sequences one after the other, and whose next
    (previous) is the array of the next (previous) values that are not
    null, or null when both are. *)
Theorem subscriber_listing_is_merged urlBase server pageSize keyword w c1 c2 w' :
  let plain := "page_size=" +:+ JS.numberToString (Z.max pageSize 10)
                 +:+ "&ordering=-last_accessed" in
  let search := "page=1&ordering=title&fields[user]=job_title&page_size="
                  +:+ JS.numberToString (Z.max pageSize 10) +:+ "&search=" +:+ keyword in
  let expected :=
    Combined
      (mkMerged (count c1 + count c2)
         (match next c1, next c2 with
          | None, None => None
          | Some a, None => Some [a]
          | None, Some b => Some [b]
          | Some a, Some b => Some [a; b]
          end)
         (match previous c1, previous c2 with
          | None, None => None
          | Some a, None => Some [a]
          | None, Some b => Some [b]
          | Some a, Some b => Some [a; b]
          end)
         (results c1 ++ results c2)) in
  (both (fetchEndpoint urlBase server (URL_COURSES +:+ "?" +:+ plain) "GET")
        (fetchEndpoint urlBase server (URL_COURSES_ENROLL +:+ "?" +:+ plain) "GET") w
     = (Ok (Page c1, Page c2), w') ->
   fetchCourses urlBase server pageSize true w = (Ok expected, w')) /\
  (keyword <> "" ->
   both (fetchEndpoint urlBase server (URL_COURSES +:+ "?" +:+ search) "GET")
        (fetchEndpoint urlBase server (URL_COURSES_ENROLL +:+ "?" +:+ search) "GET") w
     = (Ok (Page c1, Page c2), w') ->
   fetchSearchCourses urlBase server keyword pageSize true w = (Ok expected, w')).
Proof.
  cbv zeta. split.
  - intros H. unfold fetchCourses. by apply listCourses_merge.
  - intros Hk H. unfold fetchSearchCourses.
    destruct (String.eqb_spec keyword ""); [done|]. by apply listCourses_merge.
Qed.

(** The example of the specification: counts 5 and 3, next "u1" and null. *)
Example merge_5_and_3 :
  mergeListings (Page (mkCollection 5 (Some "u1") None []))
                (Page (mkCollection 3 None None []))
    = Ok (mkMerged 8 (Some ["u1"]) None []).
Proof. reflexivity. Qed.

Lemma subscriber_listing_is_merged_witness :
  fetchCourses sampleBase listingServer 30 true freshWorld
    = (Ok (Combined
             (mkMerged 8 (Some ["u1"]) None
                [mkItem 0 "course" "Course" None None;
                 mkItem 1 "course" "Course" None None])),
       snd (fetchCourses sampleBase listingServer 30 true freshWorld)) /\
  fetchSearchCourses sampleBase listingServer "rocq" 30 true freshWorld
    = (Ok (Combined
             (mkMerged 8 (Some ["u1"]) None
                [mkItem 0 "course" "Course" None None;
                 mkItem 1 "course" "Course" None None])),
       snd (fetchSearchCourses sampleBase listingServer "rocq" 30 true freshWorld)).
Proof.
  split.
  - apply (subscriber_listing_is_merged sampleBase listingServer 30 "rocq" freshWorld
             (mkCollection 5 (Some "u1") None [mkItem 0 "course" "Course" None None])
             (mkCollection 3 None None [mkItem 1 "course" "Course" None None])).
    vm_compute. reflexivity.
  - apply (subscriber_listing_is_merged sampleBase listingServer 30 "rocq" freshWorld
             (mkCollection 5 (Some "u1") None [mkItem 0 "course" "Course" None None])
             (mkCollection 3 None None [mkItem 1 "course" "Course" None None])).
    + discriminate.
    + vm_compute. reflexivity.
Defined.

(** ** Stream preparation of one item *)

Lemma await_rethrow_resolved {A} handler (x : A) w :
  await (rethrow handler (resolved x)) w = (Ok x, w).
Proof. reflexivity. Qed.

Lemma prepareBody_nothing urlBase server loadPlaylist schedule courseId el :
  nothingToPrepare el ->
  prepareBody urlBase server loadPlaylist schedule courseId el = resolved el.
Proof.
  intros H. unfold prepareBody.
  destruct (String.eqb_spec (_class el) "lecture") as [Hc|Hc]; [|reflexivity].
  destruct H as [H|H|a ty Ha Hty (Hv & Hm & Hp)|a ty Ha Hty Hv [Hs Hms]].
  - done.
  - by rewrite H.
  - rewrite Ha, Hty.
    destruct (String.eqb_spec (JS.toLowerCase ty) "video"); [done|].
    destruct (String.eqb_spec (JS.toLowerCase ty) "videomashup"); [done|].
    destruct (String.eqb_spec (JS.toLowerCase ty) "presentation"); [done|].
    reflexivity.
  - rewrite Ha, Hty.
    replace (String.eqb (JS.toLowerCase ty) "video"
             || String.eqb (JS.toLowerCase ty) "videomashup") with true.
    + rewrite Hms. by destruct Hs as [->| ->].
    + symmetry. apply orb_true_iff. destruct Hv as [->| ->]; [left|right]; reflexivity.
Qed.

(** C10: an item that is no lecture, a lecture whose asset type is none
    of video, videomashup and presentation (in any letter case), and a
    video lecture whose asset has neither stream_urls.Video nor
    media_sources: _prepareStreamSource completes without error, the item
    is the same afterwards, field by field, and so are the cache, the
    clock and the log of requests. *)
Theorem nothing_to_prepare_is_unchanged urlBase server loadPlaylist schedule courseId el w :
  nothingToPrepare el ->
  await (_prepareStreamSource urlBase server loadPlaylist schedule courseId el) w
    = (Ok el, w).
Proof.
  intros H. unfold _prepareStreamSource.
  rewrite (prepareBody_nothing _ _ _ _ _ _ H). apply await_rethrow_resolved.
Qed.

Lemma nothing_to_prepare_is_unchanged_witness :
  await (_prepareStreamSource sampleBase silentServer noPlaylist inOrder 1
           (quiz 12 "Check")) freshWorld = (Ok (quiz 12 "Check"), freshWorld) /\
  await (_prepareStreamSource sampleBase silentServer noPlaylist inOrder 1
           (article 11 "Welcome")) freshWorld = (Ok (article 11 "Welcome"), freshWorld) /\
  await (_prepareStreamSource sampleBase silentServer noPlaylist inOrder 1
           (videoNoStreams 13 "Intro")) freshWorld
    = (Ok (videoNoStreams 13 "Intro"), freshWorld).
Proof.
  split; [|split]; apply nothing_to_prepare_is_unchanged.
  - apply notLecture. discriminate.
  - eapply otherAsset; [reflexivity|reflexivity|]. repeat split; discriminate.
  - eapply videoWithoutStreams; [reflexivity|reflexivity|left; reflexivity|].
    split; [right; reflexivity|reflexivity].
Defined.

(** ** Course content *)



(** A request that misses the cache and is refused ends the loop at once. *)
Lemma loadPages_refused server decodeURI fuel url w error :
  isMiss url w ->
  server (length (calls w)) "GET" url = Throw error ->
  loadPages server decodeURI (S fuel) url None w
    = Some (Throw error, mkWorld (cache w) (now w) (calls w ++ [mkRequest "GET" url])).
Proof.
  intros Hmiss Hs. cbn [loadPages]. by rewrite fetchUrl_miss, Hs.
Qed.



(** *** Joins *)

Lemma startAll_length {A} (tasks : list (Async A)) : forall w promises w',
  startAll tasks w = (promises, w') -> length promises = length tasks.
Proof.
  induction tasks as [|task tasks IH]; intros w promises w'; cbn [startAll].
  - by intros [= <- _].
  - destruct (task w) as [p w1]. destruct (startAll tasks w1) as [ps w2] eqn:Hs.
    intros [= <- _]. simpl. f_equal. by eapply IH.
Qed.

Lemma settleAll_length {A} (promises : list (Promise A)) : forall w settled w',
  settleAll promises w = (settled, w') -> length settled = length promises.
Proof.
  induction promises as [|p promises IH]; intros w settled w'; cbn [settleAll].
  - by intros [= <- _].
  - destruct (p w) as [r w1]. destruct (settleAll promises w1) as [rs w2] eqn:Hs.
    intros [= <- _]. simpl. f_equal. by eapply IH.
Qed.

Lemma collect_length {A} (settled : list (Result A)) : forall values,
  collect settled = Ok values -> length values = length settled.
Proof.
  induction settled as [|[a|e] settled IH]; intros values; cbn [collect].
  - by intros [= <-].
  - destruct (collect settled) as [l|]; [|done]. intros [= <-]. simpl. f_equal. by apply IH.
  - done.
Qed.

(** A join that succeeds yields one value per task. *)
Lemma all_length {A} (tasks : list (Async A)) w values w' :
  all tasks w = (Ok values, w') -> length values = length tasks.
Proof.
  unfold all. destruct (startAll tasks w) as [ps w1] eqn:Hs.
  destruct (settleAll ps w1) as [rs w2] eqn:Hr. intros [= Hc _].
  rewrite (collect_length _ _ Hc), (settleAll_length _ _ _ _ Hr).
  by eapply startAll_length.
Qed.

(** The value of a first task that does nothing is the first of them. *)
Lemma all_head {A} (task : Async A) x tasks w values w' :
  yields task x -> all (task :: tasks) w = (Ok values, w') ->
  exists rest, values = x :: rest.
Proof.
  intros Hy. unfold all. cbn [startAll].
  destruct (Hy w) as (p & -> & Hp).
  destruct (startAll tasks w) as [ps w1]. cbn [settleAll]. rewrite Hp.
  destruct (settleAll ps w1) as [rs w2]. cbn [collect].
  destruct (collect rs) as [l|]; [|done]. intros [= <- _]. by exists l.
Qed.

Lemma hydrate_yields urlBase server courseId el :
  _class el <> "lecture" -> yields (hydrate urlBase server courseId el) el.
Proof.
  intros Hc w. unfold hydrate.
  destruct (String.eqb_spec (_class el) "lecture"); [done|].
  eexists. split; reflexivity.
Qed.

Lemma prepare_yields urlBase server loadPlaylist schedule courseId el :
  nothingToPrepare el ->
  yields (_prepareStreamSource urlBase server loadPlaylist schedule courseId el) el.
Proof.
  intros H w. unfold _prepareStreamSource. rewrite (prepareBody_nothing _ _ _ _ _ _ H).
  eexists. split; reflexivity.
Qed.

Lemma prepareStreams_ok urlBase server loadPlaylist schedule courseId items w items' w' :
  _prepareStreamsSource urlBase server loadPlaylist schedule courseId items w
    = (Ok items', w') ->
  all (map (_prepareStreamSource urlBase server loadPlaylist schedule courseId) items) w
    = (Ok items', w').
Proof.
  unfold _prepareStreamsSource. by destruct (all _ w) as [[l|e] w2].
Qed.

(** Hydration and stream preparation keep the number of items, and keep a
    first item that is no lecture as it is. *)
Lemma finishItems_shape urlBase server loadPlaylist schedule courseId loadContent
    items w items' w' :
  finishItems urlBase server loadPlaylist schedule courseId loadContent items w
    = (Ok items', w') ->
  length items' = length items /\
  (forall x rest, items = x :: rest -> _class x <> "lecture" ->
     exists tail, items' = x :: tail).
Proof.
  unfold finishItems, bind.
  destruct loadContent.
  - destruct (all (map (hydrate urlBase server courseId) items) w)
      as [[hydrated|e] w1] eqn:Hh; [|done].
    intros Hp%prepareStreams_ok. split.
    + rewrite (all_length _ _ _ _ Hp), length_map, (all_length _ _ _ _ Hh).
      apply length_map.
    + intros x rest -> Hx. cbn [map] in Hh.
      destruct (all_head _ x _ _ _ _ (hydrate_yields _ _ _ _ Hx) Hh) as [rest' ->].
      cbn [map] in Hp. eapply all_head; [|exact Hp].
      apply prepare_yields. by apply notLecture.
  - unfold ret. intros Hp%prepareStreams_ok. split.
    + rewrite (all_length _ _ _ _ Hp). apply length_map.
    + intros x rest -> Hx. cbn [map] in Hp. eapply all_head; [|exact Hp].
      apply prepare_yields. by apply notLecture.
Qed.

(** [fetchCourseContent] from the repaired collection on. *)
Lemma complete_repaired urlBase server loadPlaylist schedule courseId contentData
    loadContent c w :
  repair contentData = Ok (Some c) ->
  complete urlBase server loadPlaylist schedule courseId contentData loadContent w =
    match finishItems urlBase server loadPlaylist schedule courseId loadContent
            (results c) w with
    | (Ok items, w') =>
        (Ok (Some (mkCollection (Z.of_nat (length items)) (next c) (previous c) items)), w')
    | (Throw e, w') => (Throw e, w')
    end.
Proof.
  intros Hr. unfold complete, finishItems, bind. rewrite Hr.
  destruct (if loadContent then _ else _) as [[hydrated|e] w1]; [|reflexivity].
  destruct (_prepareStreamsSource _ _ _ _ _ hydrated w1) as [[items|e] w2] eqn:Hp;
    [|reflexivity].
  apply prepareStreams_ok, all_length in Hp. rewrite length_map in Hp.
  unfold ret. by rewrite Hp.
Qed.

Lemma complete_count urlBase server loadPlaylist schedule courseId contentData
    loadContent w c' w' :
  complete urlBase server loadPlaylist schedule courseId contentData loadContent w
    = (Ok (Some c'), w') ->
  count c' = Z.of_nat (length (results c')).
Proof.
  unfold complete, bind, ret. destruct (repair contentData) as [[c|]|e]; try done.
  intros H.
  destruct (if loadContent then _ else _) as [[hydrated|e] w1]; [|done].
  destruct (_prepareStreamsSource _ _ _ _ _ hydrated w1) as [[items|e] w2] eqn:Hp; [|done].
  injection H as <- _. cbn [count results].
  apply prepareStreams_ok, all_length in Hp. rewrite length_map in Hp. by rewrite Hp.
Qed.

(** C6, refuted as stated: the platform reports five items and sends an
    empty result set; fetchCourseContent does not return null, it fails on
    the class of a first item that is not there. *)
Lemma empty_results_with_count_throw :
  fst <$> fetchCourseContent sampleBase inconsistentServer noPlaylist inOrder
            identityDecode 1 42 None freshWorld
    = Some (Throw (TypeError "Cannot read properties of undefined (reading '_class')")).
Proof. vm_compute. reflexivity. Qed.

(** C6, amended: for every fetched curriculum, fetchCourseContent returns
    null when there is no payload or its reported count is zero; when the
    count is not zero and the result set is not empty, a first item that
    is not a chapter gets the placeholder {id: 0, chapter, "Chapter 1"}
    put before it, and the collection returned once hydration and stream
    preparation are through has that placeholder first, one item more
    than were fetched, and a count equal to the length of its results;
    the count of every collection returned equals the length of its
    results. *)
Theorem curriculum_is_repaired urlBase server loadPlaylist schedule decodeURI
    fuel courseId contentType w contentData loadContent w1 :
  acquire urlBase server decodeURI fuel courseId (normalizeContentType contentType) w
    = Some (Ok (contentData, loadContent), w1) ->
  let run :=
    fetchCourseContent urlBase server loadPlaylist schedule decodeURI
      fuel courseId contentType w in
  (falsy contentData = true -> run = Some (Ok None, w1)) /\
  (forall c, contentData = Some (Page c) -> count c = 0 -> run = Some (Ok None, w1)) /\
  (forall c first rest items w2,
     contentData = Some (Page c) -> count c <> 0 -> results c = first :: rest ->
     let repaired :=
       if String.eqb (_class first) "chapter" then results c
       else placeholderChapter :: results c in
     finishItems urlBase server loadPlaylist schedule courseId loadContent repaired w1
       = (Ok items, w2) ->
     run = Some (Ok (Some (mkCollection (Z.of_nat (length items))
                             (next c) (previous c) items)), w2) /\
     length items = length repaired /\
     (_class first <> "chapter" ->
        exists tail, items = placeholderChapter :: tail /\
                     length tail = length (results c))) /\
  (forall c' w2, run = Some (Ok (Some c'), w2) ->
     count c' = Z.of_nat (length (results c'))).
Proof.
  intros Hacq run. subst run. unfold fetchCourseContent. rewrite Hacq.
  split; [|split; [|split]].
  - intros Hf. unfold complete, repair. by rewrite Hf.
  - intros c -> Hc. unfold complete, repair. cbn [falsy truthy negb]. by rewrite Hc.
  - intros c first rest items w2 -> Hc Hres.
    set (repaired := if String.eqb (_class first) "chapter" then _ else _).
    intros Hfin.
    destruct (finishItems_shape _ _ _ _ _ _ _ _ _ _ Hfin) as [Hlen Hhead].
    assert (Hrep : repair (Some (Page c))
                   = Ok (Some (mkCollection
                                 (if String.eqb (_class first) "chapter"
                                  then count c else count c + 1)
                                 (next c) (previous c) repaired))).
    { unfold repair. cbn [falsy truthy negb]. destruct (Z.eqb_spec (count c) 0); [done|].
      rewrite Hres. subst repaired. rewrite Hres.
      destruct (String.eqb (_class first) "chapter"); cbn [negb]; [|reflexivity].
      destruct c; cbn in *. by rewrite Hres. }
    split; [|split].
    + rewrite (complete_repaired _ _ _ _ _ _ _ _ _ Hrep). cbn [results next previous].
      by rewrite Hfin.
    + exact Hlen.
    + intros Hchap. subst repaired.
      destruct (String.eqb_spec (_class first) "chapter"); [done|].
      destruct (Hhead placeholderChapter (results c) eq_refl) as [tail ->]; [discriminate|].
      exists tail. split; [reflexivity|]. simpl in Hlen. lia.
  - intros c' w2 [= H]. by eapply complete_count.
Qed.

Lemma curriculum_is_repaired_witness :
  fst <$> fetchCourseContent sampleBase lectureFirstServer noPlaylist inOrder
            identityDecode 1 42 None freshWorld
    = Some (Ok (Some (mkCollection 3 None None
                        [placeholderChapter; article 11 "Welcome"; quiz 12 "Check"]))) /\
  fst <$> fetchCourseContent sampleBase silentServer noPlaylist inOrder
            identityDecode 1 42 None freshWorld
    = Some (Ok None).
Proof.
  split.
  - pose (url := curriculumUrl sampleBase 42 "less").
    pose (c := mkCollection 2 None None [article 11 "Welcome"; quiz 12 "Check"]).
    pose (w1 := stored url "GET" (Page c) freshWorld).
    assert (Hacq : acquire sampleBase lectureFirstServer identityDecode 1 42
                     (normalizeContentType None) freshWorld
                   = Some (Ok (Some (Page c), false), w1))
      by (vm_compute; reflexivity).
    destruct (curriculum_is_repaired sampleBase lectureFirstServer noPlaylist inOrder
                identityDecode 1 42 None freshWorld (Some (Page c)) false w1 Hacq)
      as (_ & _ & Hrepair & _).
    destruct (Hrepair c (article 11 "Welcome") [quiz 12 "Check"]
                [placeholderChapter; article 11 "Welcome"; quiz 12 "Check"] w1)
      as (-> & _).
    + reflexivity.
    + discriminate.
    + reflexivity.
    + vm_compute. reflexivity.
    + reflexivity.
  - pose (url := curriculumUrl sampleBase 42 "less").
    pose (w1 := stored url "GET" EmptyBody freshWorld).
    assert (Hacq : acquire sampleBase silentServer identityDecode 1 42
                     (normalizeContentType None) freshWorld
                   = Some (Ok (Some EmptyBody, false), w1))
      by (vm_compute; reflexivity).
    destruct (curriculum_is_repaired sampleBase silentServer noPlaylist inOrder
                identityDecode 1 42 None freshWorld (Some EmptyBody) false w1 Hacq)
      as (-> & _); reflexivity.
Defined.

(** *** The pagination loop and its fuel *)

(** A single page that names no successor ends the loop. *)
Lemma loadPages_last_page server decodeURI fuel url w c :
  isMiss url w ->
  server (length (calls w)) "GET" url = Ok (Page c) ->
  next c = None ->
  loadPages server decodeURI (S fuel) url None w
    = Some (Ok (Some (Page c)), stored url "GET" (Page c) w).
Proof.
  intros Hmiss Hs Hn. cbn [loadPages]. rewrite fetchUrl_miss, Hs by done.
  cbn [accumulate falsy]. unfold followNext, hasNext, nextOf. by rewrite Hn.
Qed.

(** Once the loop has ended, more fuel changes nothing. *)
Lemma loadPages_more_fuel server decodeURI fuel : forall url contentData w r extra,
  loadPages server decodeURI fuel url contentData w = Some r ->
  loadPages server decodeURI (fuel + extra) url contentData w = Some r.
Proof.
  induction fuel as [|fuel IH]; intros url contentData w r extra; [done|].
  cbn [loadPages Nat.add].
  destruct (await (fetchUrl server url "GET") w) as [[resp|e] w1]; [|done].
  destruct (accumulate contentData resp) as [cd|e]; [|done].
  destruct (followNext decodeURI url resp) as [url'|e]; [|done].
  destruct (hasNext resp); [apply IH|done].
Qed.

Lemma fetchCourseContent_more_fuel urlBase server loadPlaylist schedule decodeURI
    fuel courseId contentType w r extra :
  fetchCourseContent urlBase server loadPlaylist schedule decodeURI
    fuel courseId contentType w = Some r ->
  fetchCourseContent urlBase server loadPlaylist schedule decodeURI
    (fuel + extra) courseId contentType w = Some r.
Proof.
  unfold fetchCourseContent, acquire.
  destruct (loadPages server decodeURI fuel _ None w) as [r0|] eqn:Hp; [|done].
  by rewrite (loadPages_more_fuel _ _ _ _ _ _ _ extra Hp).
Qed.

(** ** The built-ins at work *)

Example parseInt10_samples :
  JS.parseInt10 "720" = Some 720 /\ JS.parseInt10 " 720p" = Some 720 /\
  JS.parseInt10 "-12x" = Some (-12) /\ JS.parseInt10 "auto" = None /\
  JS.parseInt10 "" = None /\ JS.parseInt10 "+" = None.
Proof. repeat split. Qed.

Example numberToString_samples :
  JS.numberToString 720 = "720" /\ JS.numberToString 0 = "0" /\
  JS.numberToString (-5) = "-5".
Proof. repeat split. Qed.

Example includes_samples :
  JS.includes encryptedMarker "https://cdn.example/encrypted-files/a.mp4" = true /\
  JS.includes encryptedMarker "https://cdn.example/files/a.mp4" = false /\
  JS.includes "" "" = true.
Proof. repeat split. Qed.

Example followNext_sample :
  followNext identityDecode "first"
    (Page (mkCollection 2 (Some "https://x/items?fields%5Blecture%5D=id%2Ctitle&page=2")
             None []))
    = Ok "https://x/items?fields[lecture]=id,title&page=2".
Proof. reflexivity. Qed.

Example curriculumUrl_all :
  curriculumUrl sampleBase 42 (normalizeContentType (Some "ALL"))
    = "https://www.udemy.com/api-2.0/courses/42/cached-subscriber-curriculum-items?page_size=200&fields[lecture]=id,title,asset,supplementary_assets&fields[asset]=asset_type,title,filename,body,captions,media_sources,stream_urls,download_urls,external_url,media_license_token".
Proof. reflexivity. Qed.

Example curriculumUrl_default :
  curriculumUrl sampleBase 42 (normalizeContentType None)
    = "https://www.udemy.com/api-2.0/courses/42/cached-subscriber-curriculum-items?page_size=200".
Proof. reflexivity. Qed.

(** ** Stream resolution: further properties *)

Lemma filterPlain_Ok ds :
  (forall v, In v ds -> urlOf v <> None) ->
  filterPlain ds = Ok (List.filter isPlain ds).
Proof.
  induction ds as [|v ds IH]; intros Hu; [reflexivity|].
  cbn [filterPlain List.filter]. unfold isPlain at 1.
  destruct (urlOf v) as [u|] eqn:Hv.
  - rewrite IH by (intros; apply Hu; by right).
    by destruct (JS.includes encryptedMarker u).
  - exfalso. by apply (Hu v); [left|].
Qed.

Lemma filterPlain_Throw ds v :
  In v ds -> urlOf v = None ->
  filterPlain ds
    = Throw (TypeError "Cannot read properties of undefined (reading 'includes')").
Proof.
  induction ds as [|v' ds IH]; intros Hin Hv; [done|].
  cbn [filterPlain]. destruct (urlOf v') as [u|] eqn:Hv'; [|reflexivity].
  destruct Hin as [->|Hin]; [congruence|]. by rewrite IH.
Qed.

Lemma filterPlain_inv ds kept :
  filterPlain ds = Ok kept ->
  kept = List.filter isPlain ds /\ forall v, In v ds -> urlOf v <> None.
Proof.
  revert kept. induction ds as [|v ds IH]; intros kept; cbn [filterPlain List.filter].
  - intros [= <-]. by split.
  - unfold isPlain at 1. destruct (urlOf v) as [u|] eqn:Hv; [|done].
    destruct (filterPlain ds) as [kept'|]; [|done].
    destruct (IH kept' eq_refl) as [-> Hu]. intros [= <-]. split.
    + by destruct (JS.includes encryptedMarker u).
    + intros v' [<-|Hin]; [congruence|by apply Hu].
Qed.

(** What [_convertToStreams] computes once the filter is through. *)
Lemma convert_unfold loadPlaylist schedule ds hint title :
  (hint = true -> forall v, In v ds -> urlOf v <> None) ->
  let streams := chosen hint ds in
  let flag := effectiveFlag hint ds in
  let start :=
    mkTracker (registered streams ∅)
      (foldr Z.min JS.MAX_SAFE_INTEGER (explicitQualities streams))
      (foldr Z.max JS.MIN_SAFE_INTEGER (explicitQualities streams)) in
  let pending := if flag then [] else expansions loadPlaylist streams in
  _convertToStreams loadPlaylist schedule (Some ds) hint title =
    match resumeAll (arrange schedule 0%nat pending []) start with
    | Ok t =>
        Ok (mkStreams (finalQuality JS.MAX_SAFE_INTEGER (t_min t) (t_sources t))
              (finalQuality JS.MIN_SAFE_INTEGER (t_max t) (t_sources t))
              flag (t_sources t))
    | Throw e => Throw (_error "ECONVERT_TO_STREAMS" (message e))
    end.
Proof.
  intros Hu. cbv zeta. unfold _convertToStreams, convertBody, chosen, effectiveFlag.
  destruct hint; cbn [negb andb].
  - rewrite (filterPlain_Ok ds (Hu eq_refl)).
    destruct (List.filter isPlain ds) as [|v kept] eqn:Hk;
      cbn [length Nat.eqb Nat.ltb Nat.leb]; rewrite syncPart_fold;
      cbn [app t_sources t_min t_max];
      by destruct (resumeAll _ _).
  - rewrite select_same, syncPart_fold. cbn [app t_sources t_min t_max].
    by destruct (resumeAll _ _).
Qed.

Lemma resumeAll_Throw_inv pending : forall t e,
  resumeAll pending t = Throw e -> exists ty, In (ty, Throw e) pending.
Proof.
  induction pending as [|[ty [pl|e0]] pending IH]; intros t e; cbn [resumeAll].
  - done.
  - intros H. destruct (IH _ _ H) as [ty' Hin]. exists ty'. by right.
  - intros [= ->]. exists ty. by left.
Qed.

Lemma resumeAll_Ok_inv pending : forall t t',
  resumeAll pending t = Ok t' ->
  forall x, In x pending -> exists playlist, snd x = Ok playlist.
Proof.
  induction pending as [|[ty [pl|e0]] pending IH]; intros t t'; cbn [resumeAll].
  - by intros _ x [].
  - intros H x [<-|Hin]; [by exists pl|]. by eapply IH.
  - done.
Qed.

Lemma resumeAll_fails pending : forall t,
  (exists x e, In x pending /\ snd x = Throw e) ->
  exists e, resumeAll pending t = Throw e.
Proof.
  intros t Hx. destruct (resumeAll pending t) as [t'|e] eqn:Hr; [|by exists e].
  destruct Hx as (x & e & Hin & Hs).
  destruct (resumeAll_Ok_inv _ _ _ Hr x Hin) as [pl Hpl]. congruence.
Qed.

Lemma hinted_Ok_urls loadPlaylist schedule ds title r :
  _convertToStreams loadPlaylist schedule (Some ds) true title = Ok r ->
  forall v, In v ds -> urlOf v <> None.
Proof.
  unfold _convertToStreams, convertBody. cbn [negb].
  destruct (filterPlain ds) as [kept|e] eqn:Hf; [|done].
  intros _. by destruct (filterPlain_inv _ _ Hf).
Qed.

(** The anatomy of a successful resolution. *)
Lemma convert_Ok_inv loadPlaylist schedule ds hint title r :
  _convertToStreams loadPlaylist schedule (Some ds) hint title = Ok r ->
  let streams := chosen hint ds in
  let qualities := qualitiesMet loadPlaylist hint ds in
  isEncrypted r = effectiveFlag hint ds /\
  minQuality r
    = finalQuality JS.MAX_SAFE_INTEGER (foldr Z.min JS.MAX_SAFE_INTEGER qualities)
        (sources r) /\
  maxQuality r
    = finalQuality JS.MIN_SAFE_INTEGER (foldr Z.max JS.MIN_SAFE_INTEGER qualities)
        (sources r) /\
  (forall k e, registered streams ∅ !! k = Some e -> sources r !! k = Some e) /\
  (forall k e, sources r !! k = Some e ->
     registered streams ∅ !! k = Some e \/
     (effectiveFlag hint ds = false /\ discoveredEntry loadPlaylist streams k e)).
Proof.
  intros Hr streams qualities.
  assert (Hu : hint = true -> forall v, In v ds -> urlOf v <> None).
  { intros ->. by eapply hinted_Ok_urls. }
  rewrite (convert_unfold _ _ _ _ _ Hu) in Hr. cbv zeta in Hr.
  fold streams in Hr.
  set (pending := if effectiveFlag hint ds then [] else expansions loadPlaylist streams) in *.
  set (order := arrange schedule 0%nat pending []) in *.
  assert (Hperm : Permutation order pending).
  { subst order. by rewrite arrange_perm. }
  set (t0 := mkTracker _ _ _) in *.
  destruct (resumeAll order t0) as [t|e] eqn:Hrun; [|done].
  injection Hr as <-. cbn [isEncrypted minQuality maxQuality sources].
  destruct (resumeAll_ok order t0 (resumeAll_Ok_inv _ _ _ Hrun))
    as (t' & Hrun' & Hmin & Hmax & Hkeep & _ & Horig).
  rewrite Hrun in Hrun'. injection Hrun' as <-.
  assert (Hq : Permutation (discoveredQualities order ++ explicitQualities streams)
                 qualities).
  { subst qualities. unfold qualitiesMet. fold streams. rewrite Permutation_app_comm.
    apply Permutation_app_head. rewrite (discoveredQualities_perm _ _ Hperm).
    subst pending. by destruct (effectiveFlag hint ds). }
  split; [reflexivity|]. split; [|split; [|split]].
  - rewrite Hmin. subst t0. cbn [t_min]. f_equal.
    rewrite <- foldr_app. by apply foldr_min_perm.
  - rewrite Hmax. subst t0. cbn [t_max]. f_equal.
    rewrite <- foldr_app. by apply foldr_max_perm.
  - exact Hkeep.
  - intros k e He.
    destruct (Horig k e He) as [H|(_ & ty & pl & item & Hx & Hitem & -> & ->)];
      [by left|].
    right. eapply Permutation_in in Hx; [|exact Hperm]. subst pending.
    destruct (effectiveFlag hint ds); [done|]. split; [done|].
    apply expansions_In in Hx as (v & Hin & Ha & [= -> Hpl]).
    exists v, pl, item. by repeat split.
Qed.

(** X1: whatever the descriptors and the hint, when every numeric quality
    met lies strictly between the two sentinels the bounds of a resolved
    set go together: no numeric quality was met and both are null (no
    "auto" key) or both are "auto" (an "auto" key); or both are the
    stringified least and greatest quality met, which are qualities met. *)
Theorem resolved_bounds_go_together loadPlaylist schedule ds hint title r :
  _convertToStreams loadPlaylist schedule (Some ds) hint title = Ok r ->
  let qualities := qualitiesMet loadPlaylist hint ds in
  Forall (fun q => JS.MIN_SAFE_INTEGER < q < JS.MAX_SAFE_INTEGER) qualities ->
  (qualities = [] /\
   ((minQuality r = None /\ maxQuality r = None /\ sources r !! "auto" = None) \/
    (minQuality r = Some "auto" /\ maxQuality r = Some "auto" /\
     is_Some (sources r !! "auto")))) \/
  (exists lo hi,
     In lo qualities /\ In hi qualities /\
     Forall (Z.le lo) qualities /\ Forall (fun q => q <= hi) qualities /\
     minQuality r = Some (JS.numberToString lo) /\
     maxQuality r = Some (JS.numberToString hi)).
Proof.
  intros Hr qualities Hsafe.
  destruct (convert_Ok_inv _ _ _ _ _ _ Hr) as (_ & Hmin & Hmax & _).
  fold qualities in Hmin, Hmax. rewrite Hmin, Hmax.
  destruct (decide (qualities = [])) as [Hq|Hq].
  - left. split; [done|]. rewrite Hq. cbn [foldr]. unfold finalQuality.
    rewrite !Z.eqb_refl. destruct (sources r !! "auto"); [right|left]; by eauto.
  - right.
    assert (Hlt : Forall (fun q => q < JS.MAX_SAFE_INTEGER) qualities)
      by (eapply Forall_impl; [exact Hsafe|]; simpl; intros; lia).
    assert (Hgt : Forall (fun q => JS.MIN_SAFE_INTEGER < q) qualities)
      by (eapply Forall_impl; [exact Hsafe|]; simpl; intros; lia).
    destruct (foldr_min_spec _ _ Hq Hlt) as [Hlo1 Hlo2].
    destruct (foldr_max_spec _ _ Hq Hgt) as [Hhi1 Hhi2].
    set (lo := foldr Z.min JS.MAX_SAFE_INTEGER qualities) in *.
    set (hi := foldr Z.max JS.MIN_SAFE_INTEGER qualities) in *.
    exists lo, hi. repeat (split; [done|]).
    rewrite List.Forall_forall in Hlt, Hgt. unfold finalQuality.
    pose proof (Hlt lo Hlo1). pose proof (Hgt hi Hhi1).
    destruct (Z.eqb_spec lo JS.MAX_SAFE_INTEGER); [lia|].
    destruct (Z.eqb_spec hi JS.MIN_SAFE_INTEGER); [lia|]. done.
Qed.

Lemma resolved_bounds_go_together_witness :
  let qualities := qualitiesMet playlist480 false specExample in
  (qualities = [] /\
   ((minQuality specExampleResolved = None /\ maxQuality specExampleResolved = None /\
     sources specExampleResolved !! "auto" = None) \/
    (minQuality specExampleResolved = Some "auto" /\
     maxQuality specExampleResolved = Some "auto" /\
     is_Some (sources specExampleResolved !! "auto")))) \/
  (exists lo hi,
     In lo qualities /\ In hi qualities /\
     Forall (Z.le lo) qualities /\ Forall (fun q => q <= hi) qualities /\
     minQuality specExampleResolved = Some (JS.numberToString lo) /\
     maxQuality specExampleResolved = Some (JS.numberToString hi)).
Proof.
  apply (resolved_bounds_go_together playlist480 inOrder specExample false ""
           specExampleResolved).
  - vm_compute. reflexivity.
  - repeat constructor.
Defined.

(** X2: no entry of a resolved set has the manifest mime type
    application/dash+xml, whether it comes from a descriptor or from a
    playlist. *)
Theorem sources_hold_no_manifest loadPlaylist schedule ds hint title r k e :
  _convertToStreams loadPlaylist schedule (Some ds) hint title = Ok r ->
  sources r !! k = Some e ->
  source_type e <> manifestType.
Proof.
  intros Hr He.
  destruct (convert_Ok_inv _ _ _ _ _ _ Hr) as (_ & _ & _ & _ & Horig).
  destruct (Horig k e He) as [H|(_ & v & pl & item & _ & Ha & _ & _ & _ & ->)].
  - destruct (registered_origin _ _ _ _ H) as [H0|(v & _ & Hm & _ & ->)].
    + by rewrite lookup_empty in H0.
    + cbn. unfold isManifest in Hm. by apply String.eqb_neq.
  - cbn. apply andb_prop in Ha as [Hm%negb_true_iff _].
    unfold isManifest in Hm. by apply String.eqb_neq.
Qed.

Lemma sources_hold_no_manifest_witness :
  source_type (mkSource "application/x-mpegURL" (Some "d")) <> manifestType.
Proof.
  apply (sources_hold_no_manifest playlist480 inOrder specExample false ""
           specExampleResolved "480").
  - vm_compute. reflexivity.
  - vm_compute. reflexivity.
Defined.

Lemma filter_none_iff ds :
  length (List.filter isPlain ds) = 0%nat <-> forall v, In v ds -> isPlain v = false.
Proof.
  induction ds as [|v ds IH]; cbn [List.filter]; [by split|].
  destruct (isPlain v) eqn:Hv.
  - split; [done|]. intros H. specialize (H v (or_introl eq_refl)). congruence.
  - rewrite IH. split.
    + intros H v' [<-|Hin]; [done|by apply H].
    + intros H v' Hin. apply H. by right.
Qed.

(** X3: under an encryption hint, the flag of a resolved set is true
    exactly when no descriptor has a url free of "/encrypted-files"; when
    it is false only the descriptors with such a url were used: every
    entry of sources is that of one of them, or was found in the playlist
    of one of them. *)
Theorem hinted_flag_tells_plain loadPlaylist schedule ds title r :
  _convertToStreams loadPlaylist schedule (Some ds) true title = Ok r ->
  (isEncrypted r = true <-> forall v, In v ds -> isPlain v = false) /\
  (isEncrypted r = false ->
   forall k e, sources r !! k = Some e ->
     (exists v, In v ds /\ isPlain v = true /\ isManifest v = false /\
                keyOf v = k /\ e = entryOf v) \/
     discoveredEntry loadPlaylist (List.filter isPlain ds) k e).
Proof.
  intros Hr.
  destruct (convert_Ok_inv _ _ _ _ _ _ Hr) as (Hflag & _ & _ & _ & Horig).
  unfold effectiveFlag in *. cbn [andb] in *. split.
  - rewrite Hflag, Nat.eqb_eq. apply filter_none_iff.
  - intros Hfalse k e He. rewrite Hflag in Hfalse.
    assert (Hc : chosen true ds = List.filter isPlain ds).
    { unfold chosen. destruct (List.filter isPlain ds); [discriminate Hfalse|done]. }
    rewrite Hc in Horig.
    destruct (Horig k e He) as [H|[_ H]]; [|by right]. left.
    destruct (registered_origin _ _ _ _ H) as [H0|(v & Hin & Hm & Hk & ->)].
    + by rewrite lookup_empty in H0.
    + apply filter_In in Hin as [Hin Hp]. by exists v.
Qed.

Lemma hinted_flag_tells_plain_witness :
  (isEncrypted mixedResolved = true <->
     forall v, In v mixedSources -> isPlain v = false) /\
  (isEncrypted mixedResolved = false ->
   forall k e, sources mixedResolved !! k = Some e ->
     (exists v, In v mixedSources /\ isPlain v = true /\ isManifest v = false /\
                keyOf v = k /\ e = entryOf v) \/
     discoveredEntry noPlaylist (List.filter isPlain mixedSources) k e).
Proof.
  apply (hinted_flag_tells_plain noPlaylist inOrder mixedSources "").
  vm_compute. reflexivity.
Defined.

(** X4: when every descriptor of a hinted list has a url (no condition
    without a hint), resolution fails only through a playlist: the asset
    is not reported encrypted, one of the "auto" descriptors gone through
    has a playlist that failed to load, and the error is named
    ECONVERT_TO_STREAMS and carries the message of that failure; and as
    soon as one such playlist fails, resolution fails. *)
Theorem resolution_fails_with_a_playlist loadPlaylist schedule ds hint title :
  (hint = true -> forall v, In v ds -> urlOf v <> None) ->
  let run := _convertToStreams loadPlaylist schedule (Some ds) hint title in
  let failing v e0 :=
    effectiveFlag hint ds = false /\ In v (chosen hint ds) /\ isAuto v = true /\
    loadPlaylist (urlOf v) = Throw e0 in
  (forall e, run = Throw e ->
     exists v e0, failing v e0 /\ e = _error "ECONVERT_TO_STREAMS" (message e0)) /\
  ((exists v e0, failing v e0) -> exists e, run = Throw e).
Proof.
  intros Hu run failing. subst run failing. rewrite (convert_unfold _ _ _ _ _ Hu).
  cbv zeta.
  set (pending := if effectiveFlag hint ds then [] else _).
  set (order := arrange schedule 0%nat pending []).
  assert (Hperm : Permutation order pending).
  { subst order. by rewrite arrange_perm. }
  set (t0 := mkTracker _ _ _). split.
  - intros e. destruct (resumeAll order t0) as [t|e0] eqn:Hrun; [done|].
    intros [= <-]. destruct (resumeAll_Throw_inv _ _ _ Hrun) as [ty Hin].
    eapply Permutation_in in Hin; [|exact Hperm]. subst pending.
    destruct (effectiveFlag hint ds); [done|].
    apply expansions_In in Hin as (v & Hv & Ha & [= -> Hl]).
    exists v, e0. by repeat split.
  - intros (v & e0 & Hf & Hv & Ha & Hl).
    destruct (resumeAll_fails order t0) as [e He].
    + exists (type v, Throw e0), e0. split; [|done].
      eapply Permutation_in; [symmetry; exact Hperm|]. subst pending. rewrite Hf.
      apply expansions_In. exists v. by rewrite Hl.
    + rewrite He. by eexists.
Qed.

Lemma resolution_fails_with_a_playlist_witness :
  let run := _convertToStreams brokenPlaylist inOrder (Some specExample) false "" in
  let failing v e0 :=
    effectiveFlag false specExample = false /\ In v (chosen false specExample) /\
    isAuto v = true /\ brokenPlaylist (urlOf v) = Throw e0 in
  (forall e, run = Throw e ->
     exists v e0, failing v e0 /\ e = _error "ECONVERT_TO_STREAMS" (message e0)) /\
  ((exists v e0, failing v e0) -> exists e, run = Throw e).
Proof.
  apply (resolution_fails_with_a_playlist brokenPlaylist inOrder specExample false "").
  discriminate.
Defined.

(** A playlist that is not found: the caller gets the message, not the
    status. *)
Example broken_playlist_resolution :
  _convertToStreams brokenPlaylist inOrder (Some specExample) false ""
    = Throw (mkError "ECONVERT_TO_STREAMS" "playlist not found" None).
Proof. reflexivity. Qed.

Lemma no_auto_no_expansions loadPlaylist ds :
  (forall v, In v ds -> isAuto v = false) -> expansions loadPlaylist ds = [].
Proof.
  induction ds as [|v ds IH]; intros H; [reflexivity|].
  unfold expansions in *. cbn [omap list_omap].
  rewrite (H v) by by left. apply IH. intros; apply H; by right.
Qed.

(** X5: a descriptor that has neither file nor src makes resolution fail
    under an encryption hint: the error is named ECONVERT_TO_STREAMS, has
    no status, and carries the message of the TypeError raised on reading
    includes of a url that is undefined or null. Without the hint, and
    with no "auto" descriptor, the same list is resolved, and the
    descriptor, if it is no manifest, its label is made of ASCII
    characters and its key is not __proto__, has its key in sources. *)
Theorem missing_url_fails_only_under_hint loadPlaylist schedule ds v title :
  In v ds -> urlOf v = None ->
  (exists e,
     _convertToStreams loadPlaylist schedule (Some ds) true title = Throw e /\
     name e = "ECONVERT_TO_STREAMS" /\ response_status e = None /\
     (message e = "Cannot read properties of undefined (reading 'includes')" \/
      message e = "Cannot read properties of null (reading 'includes')")) /\
  ((forall v', In v' ds -> isAuto v' = false) ->
   exists r, _convertToStreams loadPlaylist schedule (Some ds) false title = Ok r /\
             isEncrypted r = false /\
             (isManifest v = false -> isAscii (label v) = true ->
              keyOf v <> "__proto__" -> is_Some (sources r !! keyOf v))).
Proof.
  intros Hin Hv. split.
  - unfold _convertToStreams, convertBody. cbn [negb].
    rewrite (filterPlain_Throw ds v Hin Hv). eexists. split; [reflexivity|].
    split; [reflexivity|]. split; [reflexivity|]. by left.
  - intros Hno. rewrite convert_unfold by done. cbv zeta.
    cbn [effectiveFlag chosen andb]. rewrite (no_auto_no_expansions _ _ Hno).
    cbn [arrange resumeAll]. eexists. split; [reflexivity|].
    cbn [sources t_sources isEncrypted]. split; [reflexivity|].
    intros Hm _ Hp. by apply registered_present.
Qed.

Lemma missing_url_fails_only_under_hint_witness :
  (exists e,
     _convertToStreams noPlaylist inOrder (Some [mp4 "360" "a"; withoutUrl]) true ""
       = Throw e /\
     name e = "ECONVERT_TO_STREAMS" /\ response_status e = None /\
     (message e = "Cannot read properties of undefined (reading 'includes')" \/
      message e = "Cannot read properties of null (reading 'includes')")) /\
  ((forall v', In v' [mp4 "360" "a"; withoutUrl] -> isAuto v' = false) ->
   exists r, _convertToStreams noPlaylist inOrder (Some [mp4 "360" "a"; withoutUrl])
               false "" = Ok r /\
             isEncrypted r = false /\
             (isManifest withoutUrl = false -> isAscii (label withoutUrl) = true ->
              keyOf withoutUrl <> "__proto__" ->
              is_Some (sources r !! keyOf withoutUrl))).
Proof.
  apply (missing_url_fails_only_under_hint noPlaylist inOrder
           [mp4 "360" "a"; withoutUrl] withoutUrl "").
  - right. left. reflexivity.
  - reflexivity.
Defined.

(** ** Joins: what they keep *)

Lemma startAll_Forall2 {A B} (f : B -> Async A) items : forall w promises w',
  startAll (map f items) w = (promises, w') ->
  Forall2 (fun x p => exists wa wb, f x wa = (p, wb)) items promises.
Proof.
  induction items as [|x items IH]; intros w promises w'; cbn [map startAll].
  - intros [= <- _]. constructor.
  - destruct (f x w) as [p w1] eqn:Hx.
    destruct (startAll (map f items) w1) as [ps w2] eqn:Hs.
    intros [= <- _]. constructor; [by eauto|by eapply IH].
Qed.

Lemma settleAll_Forall2 {A} (promises : list (Promise A)) : forall w settled w',
  settleAll promises w = (settled, w') ->
  Forall2 (fun p r => exists wa wb, p wa = (r, wb)) promises settled.
Proof.
  induction promises as [|p promises IH]; intros w settled w'; cbn [settleAll].
  - intros [= <- _]. constructor.
  - destruct (p w) as [r w1] eqn:Hp.
    destruct (settleAll promises w1) as [rs w2] eqn:Hs.
    intros [= <- _]. constructor; [by eauto|by eapply IH].
Qed.

Lemma collect_Ok {A} (settled : list (Result A)) : forall values,
  collect settled = Ok values -> settled = map Ok values.
Proof.
  induction settled as [|[a|e] settled IH]; intros values; cbn [collect].
  - by intros [= <-].
  - destruct (collect settled) as [l|]; [|done]. intros [= <-].
    cbn [map]. f_equal. by apply IH.
  - done.
Qed.

(** A join that succeeds yields, task by task, what each task ensures. *)
Lemma all_Forall2 {A B} (f : B -> Async A) (R : B -> A -> Prop) items w values w' :
  (forall x, In x items -> ensures (f x) (R x)) ->
  all (map f items) w = (Ok values, w') ->
  Forall2 R items values.
Proof.
  intros Hens. unfold all.
  destruct (startAll (map f items) w) as [ps w1] eqn:Hs.
  destruct (settleAll ps w1) as [rs w2] eqn:Hr. intros [= Hc _].
  apply collect_Ok in Hc. subst rs.
  apply startAll_Forall2 in Hs. apply settleAll_Forall2 in Hr.
  clear w w1 w2 w'. revert ps values Hs Hr.
  induction items as [|x items IH]; intros ps values Hs Hr.
  - inversion Hs; subst. inversion Hr as [|? ? ? ? ? ? Hnil Hv]; subst.
    destruct values; [constructor|discriminate].
  - inversion Hs as [|? p ? ps' (wa & wb & Hx) Hs']; subst.
    destruct values as [|v values]; [inversion Hr|]. cbn [map] in Hr.
    inversion Hr as [|? ? ? ? (wc & wd & Hp) Hr']; subst.
    constructor.
    + eapply (Hens x); [by left|exact Hx|exact Hp].
    + apply (IH (fun y Hy => Hens y (or_intror Hy)) ps' values Hs' Hr').
Qed.


(** ** Stream preparation and hydration: further properties *)

Lemma resolved_ensures {A} (x : A) (P : A -> Prop) : P x -> ensures (resolved x) P.
Proof. intros HP w p w1 [= <- _] w2 v w3 [= <- _]. exact HP. Qed.

Lemma rejected_ensures {A} e (P : A -> Prop) : ensures (rejected e) P.
Proof. intros w p w1 [= <- _] w2 v w3. discriminate. Qed.

Lemma andThen_ensures {A B} (call : Async A) (k : A -> B) (P : B -> Prop) :
  (forall a, P (k a)) -> ensures (andThen call (fun a => ret (k a))) P.
Proof.
  intros HP w p w1. unfold andThen. destruct (call w) as [q w0].
  intros [= <- _] w2 v w3. unfold bind, ret.
  destruct (q w2) as [[a|e] w4]; [|done]. intros [= <- _]. apply HP.
Qed.

Lemma rethrow_ensures {A} handler (call : Async A) (P : A -> Prop) :
  ensures call P -> ensures (rethrow handler call) P.
Proof.
  intros Hc w p w1. unfold rethrow. destruct (call w) as [q w0] eqn:Hq.
  intros [= <- _] w2 v w3. destruct (q w2) as [[a|e] w4] eqn:Hq2; [|done].
  intros [= <- _]. by eapply Hc.
Qed.

Lemma prepare_ensures urlBase server loadPlaylist schedule courseId el :
  ensures (_prepareStreamSource urlBase server loadPlaylist schedule courseId el)
    (sameIdentity el).
Proof.
  apply rethrow_ensures. unfold prepareBody.
  destruct (String.eqb (_class el) "lecture"); [|by apply resolved_ensures].
  destruct (asset el) as [a|]; [|by apply resolved_ensures].
  destruct (asset_type a) as [ty|]; [|apply rejected_ensures].
  destruct (_ || _).
  - destruct (match stream_urls a with Some (mkStreamUrls (Some l)) => Some l
              | _ => media_sources a end); [|by apply resolved_ensures].
    destruct (_convertToStreams _ _ _ _ _); [by apply resolved_ensures|].
    apply rejected_ensures.
  - destruct (String.eqb _ "presentation"); [|by apply resolved_ensures].
    by apply (andThen_ensures _ (fun lecture => mkItem _ _ _ _ _)).
Qed.

Lemma hydrate_ensures urlBase server courseId el :
  ensures (hydrate urlBase server courseId el) (sameIdentity el).
Proof.
  unfold hydrate.
  destruct (String.eqb (_class el) "lecture"); [|by apply resolved_ensures].
  by apply (andThen_ensures _ (fun lecture => mkItem _ _ _ _ _)).
Qed.

(** X6: when the batch preparation succeeds it returns the items it was
    given, one for one and in the same order, each with the id, the class
    and the title it had. *)
Theorem prepared_batch_keeps_items urlBase server loadPlaylist schedule courseId
    items w items' w' :
  _prepareStreamsSource urlBase server loadPlaylist schedule courseId items w
    = (Ok items', w') ->
  Forall2 sameIdentity items items'.
Proof.
  intros H%prepareStreams_ok. eapply all_Forall2; [|exact H].
  intros x _. apply prepare_ensures.
Qed.



Lemma prepareBody_video urlBase server loadPlaylist schedule courseId el a l :
  isVideoLecture el a -> streamsOf a = Some l ->
  prepareBody urlBase server loadPlaylist schedule courseId el =
    match _convertToStreams loadPlaylist schedule (Some l)
            (JS.truthyString (media_license_token a)) (asset_title a) with
    | Ok r => resolved (withStreams el a r)
    | Throw e => rejected e
    end.
Proof.
  intros (Hc & Ha & ty & Hty & Hv) Hl.
  destruct el as [id cls ttl ast sup]. destruct a as [aty atl su ms tok st oth].
  unfold prepareBody, streamsOf, withStreams in *.
  cbn [_class asset asset_type item_id title supplementary_assets asset_title
       stream_urls media_sources media_license_token other] in *.
  subst cls ast aty. rewrite String.eqb_refl.
  cbn [_class asset asset_type item_id title supplementary_assets asset_title
       stream_urls media_sources media_license_token other].
  replace (String.eqb (JS.toLowerCase ty) "video"
           || String.eqb (JS.toLowerCase ty) "videomashup") with true.
  - cbv zeta. rewrite Hl. reflexivity.
  - symmetry. apply orb_true_iff. destruct Hv as [->| ->]; [left|right]; reflexivity.
Qed.

(** X8: a video (or videomashup) lecture with raw descriptors, those of
    stream_urls.Video when there are any and else those of media_sources,
    is resolved in place: stream_urls and media_sources go, streams is the
    resolved set, every other field stays, and the world is left alone.
    When resolution fails the failure is named EPREPARE_STREAM_SOURCE and
    keeps the message. *)
Theorem video_lecture_is_resolved_in_place urlBase server loadPlaylist schedule
    courseId el a l w :
  isVideoLecture el a -> streamsOf a = Some l ->
  let resolution :=
    _convertToStreams loadPlaylist schedule (Some l)
      (JS.truthyString (media_license_token a)) (asset_title a) in
  (forall r, resolution = Ok r ->
     await (_prepareStreamSource urlBase server loadPlaylist schedule courseId el) w
       = (Ok (withStreams el a r), w)) /\
  (forall e, resolution = Throw e ->
     await (_prepareStreamSource urlBase server loadPlaylist schedule courseId el) w
       = (Throw (_error "EPREPARE_STREAM_SOURCE" (message e)), w)).
Proof.
  intros Hv Hl resolution. unfold _prepareStreamSource.
  rewrite (prepareBody_video _ _ _ _ _ _ _ _ Hv Hl). fold resolution.
  split; intros x ->; reflexivity.
Qed.

Lemma prepared_batch_keeps_items_witness :
  Forall2 sameIdentity
    [chapter 1 "Start"; videoLecture 5 rawVideo]
    [chapter 1 "Start"; withStreams (videoLecture 5 rawVideo) rawVideo resolved720].
Proof.
  apply (prepared_batch_keeps_items sampleBase silentServer noPlaylist inOrder 42
           [chapter 1 "Start"; videoLecture 5 rawVideo] freshWorld _ freshWorld).
  vm_compute. reflexivity.
Defined.

Lemma video_lecture_is_resolved_in_place_witness :
  let resolution :=
    _convertToStreams noPlaylist inOrder (Some [mp4 "720" "b"])
      (JS.truthyString (media_license_token rawVideo)) (asset_title rawVideo) in
  (forall r, resolution = Ok r ->
     await (_prepareStreamSource sampleBase silentServer noPlaylist inOrder 42
              (videoLecture 5 rawVideo)) freshWorld
       = (Ok (withStreams (videoLecture 5 rawVideo) rawVideo r), freshWorld)) /\
  (forall e, resolution = Throw e ->
     await (_prepareStreamSource sampleBase silentServer noPlaylist inOrder 42
              (videoLecture 5 rawVideo)) freshWorld
       = (Throw (_error "EPREPARE_STREAM_SOURCE" (message e)), freshWorld)).
Proof.
  apply (video_lecture_is_resolved_in_place sampleBase silentServer noPlaylist inOrder 42
           (videoLecture 5 rawVideo) rawVideo [mp4 "720" "b"] freshWorld).
  - split; [reflexivity|]. split; [reflexivity|].
    exists "Video". split; [reflexivity|]. left. reflexivity.
  - reflexivity.
Defined.

(** *** Which rejection a join reports *)

Lemma Forall2_In_l {A B} (R : A -> B -> Prop) l l' x :
  Forall2 R l l' -> In x l -> exists y, In y l' /\ R x y.
Proof.
  induction 1 as [|a b l l' Hab _ IH]; [done|].
  intros [<-|Hin]; [exists b; split; [by left|done]|].
  destruct (IH Hin) as (y & Hy & HR). exists y. split; [by right|done].
Qed.

Lemma Forall2_In_r {A B} (R : A -> B -> Prop) l l' y :
  Forall2 R l l' -> In y l' -> exists x, In x l /\ R x y.
Proof.
  induction 1 as [|a b l l' Hab _ IH]; [done|].
  intros [<-|Hin]; [exists a; split; [by left|done]|].
  destruct (IH Hin) as (x & Hx & HR). exists x. split; [by right|done].
Qed.

Lemma collect_Throw {A} (settled : list (Result A)) e :
  collect settled = Throw e -> In (Throw e) settled.
Proof.
  induction settled as [|[a|e0] settled IH]; cbn [collect]; [done| |].
  - destruct (collect settled) as [l|e1]; [done|]. intros [= ->]. right. by apply IH.
  - intros [= ->]. by left.
Qed.

Lemma collect_rejected {A} (settled : list (Result A)) e :
  In (Throw e) settled -> exists e', collect settled = Throw e'.
Proof.
  induction settled as [|[a|e0] settled IH]; [done| |].
  - intros [[=]|Hin]. cbn [collect]. destruct (IH Hin) as [e' ->]. by exists e'.
  - intros _. by exists e0.
Qed.

(** The rejection a join reports is that of one of its tasks. *)
Lemma all_Throw_origin {A B} (f : B -> Async A) items w e w' :
  all (map f items) w = (Throw e, w') ->
  exists x wa p wb wc wd,
    In x items /\ f x wa = (p, wb) /\ p wc = (Throw e, wd).
Proof.
  unfold all. destruct (startAll (map f items) w) as [ps w1] eqn:Hs.
  destruct (settleAll ps w1) as [rs w2] eqn:Hr. intros [= Hc _].
  apply collect_Throw in Hc. apply startAll_Forall2 in Hs. apply settleAll_Forall2 in Hr.
  destruct (Forall2_In_r _ _ _ _ Hr Hc) as (p & Hp & wc & wd & Hrun).
  destruct (Forall2_In_r _ _ _ _ Hs Hp) as (x & Hx & wa & wb & Hstart).
  by exists x, wa, p, wb, wc, wd.
Qed.

(** A join with a task that is rejected is rejected. *)
Lemma all_rejected {A B} (f : B -> Async A) items x e w :
  In x items -> rejects (f x) e -> exists e', fst (all (map f items) w) = Throw e'.
Proof.
  intros Hx Hrej. unfold all.
  destruct (startAll (map f items) w) as [ps w1] eqn:Hs.
  destruct (settleAll ps w1) as [rs w2] eqn:Hr. cbn [fst].
  apply startAll_Forall2 in Hs. apply settleAll_Forall2 in Hr.
  destruct (Forall2_In_l _ _ _ _ Hs Hx) as (p & Hp & wa & wb & Hstart).
  destruct (Forall2_In_l _ _ _ _ Hr Hp) as (r & Hin & wc & wd & Hrun).
  destruct (Hrej wa) as (p' & Hstart' & Hthrow). rewrite Hstart in Hstart'.
  injection Hstart' as -> _. rewrite Hthrow in Hrun. injection Hrun as <- _.
  by apply (collect_rejected _ e).
Qed.

Lemma prepare_rejection urlBase server loadPlaylist schedule courseId el wa p wb wc e wd :
  _prepareStreamSource urlBase server loadPlaylist schedule courseId el wa = (p, wb) ->
  p wc = (Throw e, wd) ->
  name e = "EPREPARE_STREAM_SOURCE" /\ response_status e = None.
Proof.
  unfold _prepareStreamSource, rethrow.
  destruct (prepareBody urlBase server loadPlaylist schedule courseId el wa) as [q w0].
  intros [= <- _]. destruct (q wc) as [[a|e0] w3]; [done|]. by intros [= <- _].
Qed.

Lemma preparesWell_yields urlBase server loadPlaylist schedule courseId el :
  preparesWell loadPlaylist schedule el ->
  exists el',
    yields (_prepareStreamSource urlBase server loadPlaylist schedule courseId el) el'.
Proof.
  intros [H|(a & l & r & Hv & Hl & Hr)].
  - exists el. by apply prepare_yields.
  - exists (withStreams el a r). intros w. unfold _prepareStreamSource.
    rewrite (prepareBody_video _ _ _ _ _ _ _ _ Hv Hl), Hr.
    eexists. split; reflexivity.
Qed.

Lemma failed_video_rejects urlBase server loadPlaylist schedule courseId el a l e :
  isVideoLecture el a -> streamsOf a = Some l ->
  _convertToStreams loadPlaylist schedule (Some l)
    (JS.truthyString (media_license_token a)) (asset_title a) = Throw e ->
  rejects (_prepareStreamSource urlBase server loadPlaylist schedule courseId el)
    (_error "EPREPARE_STREAM_SOURCE" (message e)).
Proof.
  intros Hv Hl He w. unfold _prepareStreamSource.
  rewrite (prepareBody_video _ _ _ _ _ _ _ _ Hv Hl), He.
  eexists. split; reflexivity.
Qed.

(** X9: which failure a batch reports. When the batch preparation fails,
    the error is named EPREPARE_STREAMS_SOURCE, has no HTTP status, and
    carries the message with which the preparation of one of the items
    was rejected. A video lecture whose resolution fails makes the batch
    fail; and when every other item is prepared without failure, the
    batch carries the message of that resolution failure. *)
Theorem batch_fails_with_an_item_message urlBase server loadPlaylist schedule courseId
    items w :
  let prepare := _prepareStreamSource urlBase server loadPlaylist schedule courseId in
  let batch :=
    fst (_prepareStreamsSource urlBase server loadPlaylist schedule courseId items w) in
  let fails el e :=
    exists a l,
      isVideoLecture el a /\ streamsOf a = Some l /\
      _convertToStreams loadPlaylist schedule (Some l)
        (JS.truthyString (media_license_token a)) (asset_title a) = Throw e in
  (forall e, batch = Throw e ->
     name e = "EPREPARE_STREAMS_SOURCE" /\ response_status e = None /\
     exists el wa p wb wc e0 wd,
       In el items /\ prepare el wa = (p, wb) /\ p wc = (Throw e0, wd) /\
       name e0 = "EPREPARE_STREAM_SOURCE" /\ message e = message e0) /\
  (forall el e0, In el items -> fails el e0 -> exists e, batch = Throw e) /\
  (forall before el after e0,
     items = before ++ el :: after ->
     Forall (preparesWell loadPlaylist schedule) (before ++ after) ->
     fails el e0 ->
     batch = Throw (mkError "EPREPARE_STREAMS_SOURCE" (message e0) None)).
Proof.
  intros prepare batch fails.
  assert (Horigin : forall e, batch = Throw e ->
            exists error el wa p wb wc wd,
              e = _error "EPREPARE_STREAMS_SOURCE" (message error) /\
              In el items /\ prepare el wa = (p, wb) /\ p wc = (Throw error, wd)).
  { intros e. subst batch. unfold _prepareStreamsSource.
    destruct (all (map (_prepareStreamSource urlBase server loadPlaylist schedule
                          courseId) items) w) as [[l|error] w1] eqn:Hall; [done|].
    cbn [fst]. intros [= <-].
    destruct (all_Throw_origin _ _ _ _ _ Hall) as (el & wa & p & wb & wc & wd & H).
    exists error, el, wa, p, wb, wc, wd. by split. }
  assert (Hfail : forall el e0, In el items -> fails el e0 -> exists e, batch = Throw e).
  { intros el e0 Hin (a & l & Hv & Hl & He). subst batch. unfold _prepareStreamsSource.
    destruct (all_rejected (_prepareStreamSource urlBase server loadPlaylist schedule
                              courseId) items el _ w Hin
                (failed_video_rejects urlBase server _ _ courseId el a l e0 Hv Hl He))
      as [e' He'].
    destruct (all _ w) as [[l'|error] w1]; cbn [fst] in *; [done|]. by eexists. }
  split; [|split; [exact Hfail|]].
  - intros e He.
    destruct (Horigin e He) as (error & el & wa & p & wb & wc & wd & -> & Hin & Hs & Hp).
    split; [reflexivity|]. split; [reflexivity|].
    exists el, wa, p, wb, wc, error, wd.
    destruct (prepare_rejection _ _ _ _ _ _ _ _ _ _ _ _ Hs Hp) as [Hname _].
    by repeat split.
  - intros before el after e0 -> Hwell Hel.
    destruct (Hfail el e0) as [e He]; [apply in_elt|exact Hel|].
    destruct (Horigin e He) as (error & x & wa & p & wb & wc & wd & -> & Hin & Hs & Hp).
    rewrite He. f_equal. unfold _error. f_equal.
    destruct Hel as (a & l & Hv & Hl & Hres).
    assert (Hx : x = el \/ In x (before ++ after)).
    { apply in_app_or in Hin as [H|[H|H]]; [right|by left|right]; apply in_or_app;
        [by left|by right]. }
    destruct Hx as [->|Hx].
    + destruct (failed_video_rejects urlBase server _ _ courseId el a l e0 Hv Hl Hres wa)
        as (p' & Hs' & Hp').
      fold prepare in Hs'. rewrite Hs in Hs'. injection Hs' as -> _.
      rewrite Hp' in Hp. by injection Hp as <-.
    + rewrite List.Forall_forall in Hwell.
      destruct (preparesWell_yields urlBase server _ _ courseId x (Hwell x Hx))
        as (x' & Hy).
      destruct (Hy wa) as (p' & Hs' & Hp'). fold prepare in Hs'.
      rewrite Hs in Hs'. injection Hs' as -> _. rewrite Hp' in Hp. discriminate Hp.
Qed.

Lemma batch_fails_with_an_item_message_witness :
  fst (_prepareStreamsSource sampleBase silentServer brokenPlaylist inOrder 42
         ([chapter 1 "Start"] ++ videoLecture 5 autoVideo :: [quiz 12 "Check"])
         freshWorld)
    = Throw (mkError "EPREPARE_STREAMS_SOURCE" "playlist not found" None).
Proof.
  destruct (batch_fails_with_an_item_message sampleBase silentServer brokenPlaylist
              inOrder 42
              ([chapter 1 "Start"] ++ videoLecture 5 autoVideo :: [quiz 12 "Check"])
              freshWorld) as (_ & _ & H).
  apply (H [chapter 1 "Start"] (videoLecture 5 autoVideo) [quiz 12 "Check"]
           (mkError "ECONVERT_TO_STREAMS" "playlist not found" None)).
  - reflexivity.
  - apply List.Forall_cons; [|apply List.Forall_cons; [|apply List.Forall_nil]];
      left; apply notLecture; discriminate.
  - exists autoVideo, [hls "auto" "c"]. split; [|split; reflexivity].
    split; [reflexivity|]. split; [reflexivity|].
    exists "Video". split; [reflexivity|]. left. reflexivity.
Defined.

(** ** Course content: further properties *)

Lemma sameIdentity_trans a b c :
  sameIdentity a b -> sameIdentity b c -> sameIdentity a c.
Proof. intros (H1 & H2 & H3) (H4 & H5 & H6). repeat split; congruence. Qed.

Lemma Forall2_sameIdentity_trans l1 : forall l2 l3,
  Forall2 sameIdentity l1 l2 -> Forall2 sameIdentity l2 l3 ->
  Forall2 sameIdentity l1 l3.
Proof.
  induction l1 as [|a l1 IH]; intros l2 l3 H12 H23.
  - inversion H12; subst. inversion H23; subst. constructor.
  - inversion H12; subst. inversion H23; subst. constructor.
    + by eapply sameIdentity_trans.
    + by eapply IH.
Qed.

Lemma Forall2_sameIdentity_refl l : Forall2 sameIdentity l l.
Proof. induction l; constructor; [by repeat split|done]. Qed.

Lemma finishItems_identity urlBase server loadPlaylist schedule courseId loadContent
    items w items' w' :
  finishItems urlBase server loadPlaylist schedule courseId loadContent items w
    = (Ok items', w') ->
  Forall2 sameIdentity items items'.
Proof.
  unfold finishItems, bind. destruct loadContent.
  - destruct (all (map (hydrate urlBase server courseId) items) w)
      as [[hydrated|e] w1] eqn:Hh; [|done].
    intros Hp%prepareStreams_ok.
    eapply Forall2_sameIdentity_trans.
    + eapply all_Forall2; [|exact Hh]. intros x _. apply hydrate_ensures.
    + eapply all_Forall2; [|exact Hp]. intros x _. apply prepare_ensures.
  - unfold ret. intros Hp%prepareStreams_ok.
    eapply all_Forall2; [|exact Hp]. intros x _. apply prepare_ensures.
Qed.

Lemma repair_Some contentData c' :
  repair contentData = Ok (Some c') ->
  exists c, contentData = Some (Page c) /\ count c <> 0 /\
    results c' = repairedItems c /\ results c <> [] /\
    next c' = next c /\ previous c' = previous c.
Proof.
  unfold repair. destruct contentData as [[|c|l]|]; cbn [falsy truthy negb]; try done.
  destruct (Z.eqb_spec (count c) 0); [done|].
  destruct (results c) as [|first rest] eqn:Hres; [done|].
  intros H. exists c. unfold repairedItems. rewrite Hres.
  destruct (String.eqb (_class first) "chapter"); cbn [negb] in H;
    injection H as <-; cbn [results next previous]; rewrite ?Hres; by repeat split.
Qed.

(** X10: the collection fetchCourseContent returns holds the items of the
    fetched curriculum, after the placeholder chapter if the first of them
    is no chapter, one for one and in their order, each with its id, class
    and title; its first item is a chapter; its next and previous are
    those of the payload pagination started with. *)
Theorem returned_curriculum_keeps_items urlBase server loadPlaylist schedule decodeURI
    fuel courseId contentType w contentData loadContent w1 c' w2 :
  acquire urlBase server decodeURI fuel courseId (normalizeContentType contentType) w
    = Some (Ok (contentData, loadContent), w1) ->
  fetchCourseContent urlBase server loadPlaylist schedule decodeURI
    fuel courseId contentType w = Some (Ok (Some c'), w2) ->
  exists c,
    contentData = Some (Page c) /\
    Forall2 sameIdentity (repairedItems c) (results c') /\
    (exists first rest, results c' = first :: rest /\ _class first = "chapter") /\
    next c' = next c /\ previous c' = previous c.
Proof.
  intros Hacq. unfold fetchCourseContent. rewrite Hacq. intros [= Hrun].
  destruct (repair contentData) as [[cr|]|e] eqn:Hrep.
  - rewrite (complete_repaired _ _ _ _ _ _ _ _ _ Hrep) in Hrun.
    destruct (finishItems _ _ _ _ _ _ (results cr) w1) as [[items|e] w3] eqn:Hfin;
      [|done].
    injection Hrun as <- <-. cbn [results next previous].
    destruct (repair_Some _ _ Hrep) as (c & -> & Hc & Hres & Hne & Hn & Hp).
    apply finishItems_identity in Hfin. rewrite Hres in Hfin.
    exists c. split; [done|]. split; [done|]. split; [|by split].
    unfold repairedItems in Hfin. destruct (results c) as [|first rest]; [done|].
    destruct (String.eqb_spec (_class first) "chapter") as [Hch|Hch].
    + inversion Hfin as [|? first' ? rest' (_ & Hcl & _) _]; subst.
      exists first', rest'. split; [done|]. congruence.
    + inversion Hfin as [|? first' ? rest' (_ & Hcl & _) _]; subst.
      exists first', rest'. by split.
  - unfold complete in Hrun. rewrite Hrep in Hrun. discriminate Hrun.
  - unfold complete in Hrun. rewrite Hrep in Hrun. discriminate Hrun.
Qed.

Lemma returned_curriculum_keeps_items_witness :
  exists c,
    Some (Page (mkCollection 2 None None [article 11 "Welcome"; quiz 12 "Check"]))
      = Some (Page c) /\
    Forall2 sameIdentity (repairedItems c)
      (results (mkCollection 3 None None
                  [placeholderChapter; article 11 "Welcome"; quiz 12 "Check"])) /\
    (exists first rest,
       results (mkCollection 3 None None
                  [placeholderChapter; article 11 "Welcome"; quiz 12 "Check"])
         = first :: rest /\ _class first = "chapter") /\
    next (mkCollection 3 None None
            [placeholderChapter; article 11 "Welcome"; quiz 12 "Check"]) = next c /\
    previous (mkCollection 3 None None
                [placeholderChapter; article 11 "Welcome"; quiz 12 "Check"])
      = previous c.
Proof.
  apply (returned_curriculum_keeps_items sampleBase lectureFirstServer noPlaylist inOrder
           identityDecode 1 42 None freshWorld _ false
           (stored (curriculumUrl sampleBase 42 "less") "GET"
              (Page (mkCollection 2 None None [article 11 "Welcome"; quiz 12 "Check"]))
              freshWorld)
           _
           (stored (curriculumUrl sampleBase 42 "less") "GET"
              (Page (mkCollection 2 None None [article 11 "Welcome"; quiz 12 "Check"]))
              freshWorld)).
  - vm_compute. reflexivity.
  - vm_compute. reflexivity.
Defined.

(** *** Pagination *)

Lemma followNext_Page decodeURI url c :
  followNext decodeURI url (Page c) =
    match next c with
    | Some n => if String.eqb n "" then Ok url else decodedNext decodeURI n
    | None => Ok url
    end.
Proof.
  unfold followNext, decodedNext, nextOf. destruct (next c) as [n|]; [|done].
  by destruct (String.eqb n "").
Qed.

Lemma hasNext_Page c : hasNext (Page c) = true <-> next c <> None.
Proof. unfold hasNext, nextOf. by destruct (next c). Qed.

Lemma appended_nil c : appended c [] = c.
Proof. unfold appended. rewrite app_nil_r. by destruct c. Qed.

Lemma appended_appended c l1 l2 : appended (appended c l1) l2 = appended c (l1 ++ l2).
Proof. unfold appended. cbn [count next previous results]. by rewrite <- app_assoc. Qed.

(** From the second turn on: the pages read, and their results appended
    in the order they were read. *)
Lemma loadPages_reads server decodeURI fuel : forall url acc w contentData w',
  loadPages server decodeURI fuel url (Some (Page acc)) w = Some (Ok contentData, w') ->
  exists pages,
    pagesRead server decodeURI url w pages w' /\
    contentData = Some (Page (appended acc (concat (map results pages)))).
Proof.
  induction fuel as [|fuel IH]; intros url acc w contentData w'; [done|].
  cbn [loadPages].
  destruct (await (fetchUrl server url "GET") w) as [[resp|e] w1] eqn:Hfetch; [|done].
  cbn [accumulate falsy truthy negb].
  destruct resp as [|r|l]; try done.
  destruct (followNext decodeURI url (Page r)) as [url'|e] eqn:Hnext; [|done].
  destruct (hasNext (Page r)) eqn:Hhas.
  - intros H. change (mkCollection (count acc) (next acc) (previous acc)
                        (results acc ++ results r)) with (appended acc (results r)) in H.
    destruct (IH _ _ _ _ _ H) as (pages & Hread & ->).
    exists (r :: pages). split.
    + eapply morePages; [exact Hfetch|by apply hasNext_Page|exact Hnext|exact Hread].
    + cbn [map concat]. by rewrite appended_appended.
  - intros [= <- <-]. exists [r]. split.
    + apply lastPage; [exact Hfetch|].
      destruct (next r) eqn:Hn; [|done]. unfold hasNext, nextOf in Hhas.
      by rewrite Hn in Hhas.
    + cbn [map concat]. by rewrite app_nil_r.
Qed.

Lemma pagesRead_loads server decodeURI url w pages w' :
  pagesRead server decodeURI url w pages w' ->
  forall acc extra,
    loadPages server decodeURI (length pages + extra) url (Some (Page acc)) w
      = Some (Ok (Some (Page (appended acc (concat (map results pages))))), w').
Proof.
  induction 1 as [url w page w1 Hfetch Hn|url w page w1 url' pages w' Hfetch Hn Hnext _ IH];
    intros acc extra; cbn [length Nat.add loadPages]; rewrite Hfetch;
    cbn [accumulate falsy truthy negb].
  - unfold followNext, hasNext, nextOf. rewrite Hn. cbn [map concat].
    by rewrite app_nil_r.
  - rewrite Hnext. apply hasNext_Page in Hn. rewrite Hn.
    change (mkCollection (count acc) (next acc) (previous acc)
              (results acc ++ results page)) with (appended acc (results page)).
    rewrite IH. cbn [map concat]. by rewrite appended_appended.
Qed.

(** X11: what the pagination loop accumulates. When it ends well, either
    the first response is no collection and is returned as it is, or the
    loop has read a chain of pages, each fetched at the url the one
    before names and the last naming none, and returns the first page
    with the results of the later pages appended in the order they were
    read: count, next and previous are those of the first page.
    Conversely such a chain of pages is read to its end, given turns
    enough. *)
Theorem pagination_appends_later_pages server decodeURI url w :
  (forall fuel contentData w',
     loadPages server decodeURI fuel url None w = Some (Ok contentData, w') ->
     (exists first later,
        pagesRead server decodeURI url w (first :: later) w' /\
        contentData
          = Some (Page (mkCollection (count first) (next first) (previous first)
                          (results first ++ concat (map results later))))) \/
     (exists resp,
        await (fetchUrl server url "GET") w = (Ok resp, w') /\
        (forall c, resp <> Page c) /\ contentData = Some resp)) /\
  (forall first later w' extra,
     pagesRead server decodeURI url w (first :: later) w' ->
     loadPages server decodeURI (S (length later) + extra) url None w
       = Some (Ok (Some (Page (mkCollection (count first) (next first) (previous first)
                                 (results first ++ concat (map results later))))),
               w')).
Proof.
  split.
  - intros fuel contentData w'. destruct fuel as [|fuel]; [done|]. cbn [loadPages].
    destruct (await (fetchUrl server url "GET") w) as [[resp|e] w1] eqn:Hfetch; [|done].
    cbn [accumulate falsy]. destruct resp as [|first|l].
    + cbn [followNext hasNext nextOf]. intros [= <- <-]. right. by exists EmptyBody.
    + destruct (followNext decodeURI url (Page first)) as [url'|e] eqn:Hnext; [|done].
      destruct (hasNext (Page first)) eqn:Hhas.
      * intros H. destruct (loadPages_reads _ _ _ _ _ _ _ _ H) as (pages & Hread & ->).
        left. exists first, pages. split; [|reflexivity].
        eapply morePages; [exact Hfetch|by apply hasNext_Page|exact Hnext|exact Hread].
      * intros [= <- <-]. left. exists first, []. split.
        -- apply lastPage; [exact Hfetch|].
           destruct (next first) eqn:Hn; [|done]. unfold hasNext, nextOf in Hhas.
           by rewrite Hn in Hhas.
        -- cbn [map concat]. rewrite app_nil_r. by destruct first.
    + cbn [followNext hasNext nextOf]. intros [= <- <-]. right. by exists (Lecture l).
  - intros first later w' extra Hread. cbn [Nat.add loadPages].
    inversion Hread as [? ? ? ? Hfetch Hn|? ? ? w1 url' ? ? Hfetch Hn Hnext Hrest]; subst.
    + rewrite Hfetch. cbn [accumulate falsy]. unfold followNext, hasNext, nextOf.
      rewrite Hn. cbn [length map concat]. rewrite app_nil_r.
      destruct first as [c n p r]. cbn [next] in Hn. by subst n.
    + rewrite Hfetch. cbn [accumulate falsy]. rewrite Hnext.
      apply hasNext_Page in Hn. rewrite Hn.
      by rewrite (pagesRead_loads _ _ _ _ _ _ Hrest first extra).
Qed.

Lemma pagination_appends_later_pages_witness :
  (exists first later,
     pagesRead twoPageServer identityDecode "first" freshWorld (first :: later)
       (stored secondPageUrl "GET" (Page secondOfTwo)
          (stored "first" "GET" (Page firstOfTwo) freshWorld)) /\
     Some (Page (appended firstOfTwo [quiz 3 "Final"]))
       = Some (Page (mkCollection (count first) (next first) (previous first)
                       (results first ++ concat (map results later))))) \/
  (exists resp,
     await (fetchUrl twoPageServer "first" "GET") freshWorld
       = (Ok resp, stored secondPageUrl "GET" (Page secondOfTwo)
                     (stored "first" "GET" (Page firstOfTwo) freshWorld)) /\
     (forall c, resp <> Page c) /\
     Some (Page (appended firstOfTwo [quiz 3 "Final"])) = Some resp).
Proof.
  destruct (pagination_appends_later_pages twoPageServer identityDecode "first" freshWorld)
    as [H _].
  apply (H 5%nat). vm_compute. reflexivity.
Defined.

Lemma isMiss_other url other method data w :
  other <> url -> isMiss other w -> isMiss other (stored url method data w).
Proof.
  intros Hne. unfold isMiss, stored, NodeCache.get, NodeCache.set. cbn.
  by rewrite lookup_insert_ne.
Qed.

(** X12: a curriculum of two pages, neither in the cache: the first page
    names a successor, the second none. Two requests go out, both
    responses are stored, each under its url, and the loop ends with the
    first page holding the results of both, in order. *)
Theorem two_pages_are_concatenated server decodeURI fuel url w p1 p2 n second :
  isMiss url w ->
  server (length (calls w)) "GET" url = Ok (Page p1) ->
  next p1 = Some n -> n <> "" -> decodedNext decodeURI n = Ok second ->
  second <> url -> isMiss second w ->
  server (S (length (calls w))) "GET" second = Ok (Page p2) ->
  next p2 = None ->
  loadPages server decodeURI (S (S fuel)) url None w
    = Some (Ok (Some (Page (appended p1 (results p2)))),
            stored second "GET" (Page p2) (stored url "GET" (Page p1) w)).
Proof.
  intros Hm1 Hs1 Hn1 Hne Hdec Hdiff Hm2 Hs2 Hn2.
  cbn [loadPages]. rewrite fetchUrl_miss, Hs1 by done.
  cbn [accumulate falsy]. rewrite followNext_Page, Hn1.
  destruct (String.eqb_spec n ""); [done|]. rewrite Hdec.
  unfold hasNext, nextOf. rewrite Hn1.
  rewrite fetchUrl_miss by (by apply isMiss_other).
  replace (length (calls (stored url "GET" (Page p1) w)))
    with (S (length (calls w))) by (cbn; rewrite length_app; cbn; lia).
  rewrite Hs2. cbn [accumulate falsy truthy negb].
  rewrite followNext_Page, Hn2. reflexivity.
Qed.

Lemma two_pages_are_concatenated_witness :
  loadPages twoPageServer identityDecode 2 "first" None freshWorld
    = Some (Ok (Some (Page (appended firstOfTwo (results secondOfTwo)))),
            stored secondPageUrl "GET" (Page secondOfTwo)
              (stored "first" "GET" (Page firstOfTwo) freshWorld)).
Proof.
  apply (two_pages_are_concatenated twoPageServer identityDecode 0 "first" freshWorld
           firstOfTwo secondOfTwo secondPageUrl secondPageUrl).
  - exact I.
  - reflexivity.
  - reflexivity.
  - discriminate.
  - reflexivity.
  - discriminate.
  - exact I.
  - reflexivity.
  - reflexivity.
Defined.

(** With no pause between the turns the timed loop is [loadPages]. *)
Lemma advance_0 w : advance 0 w = w.
Proof. destruct w as [c n l]. unfold advance. cbn. by rewrite Z.add_0_r. Qed.

Lemma loadPagesIn_still server decodeURI fuel : forall turn url contentData w,
  loadPagesIn server decodeURI (fun _ => 0) turn fuel url contentData w
    = loadPages server decodeURI fuel url contentData w.
Proof.
  induction fuel as [|fuel IH]; intros turn url contentData w; [reflexivity|].
  cbn [loadPagesIn loadPages]. rewrite advance_0.
  destruct (await (fetchUrl server url "GET") w) as [[resp|e] w1]; [|reflexivity].
  destruct (accumulate contentData resp) as [cd|e]; [|reflexivity].
  destruct (followNext decodeURI url resp) as [url'|e]; [|reflexivity].
  destruct (hasNext resp); [apply IH|reflexivity].
Qed.

(** A turn at a url that the platform always answers with the same page,
    and under which the cache holds nothing else: the page is returned,
    from the cache or from the platform, and the cache still holds
    nothing else under the url. *)
Lemma fetchUrl_same_page server url c w :
  (forall n, server n "GET" url = Ok (Page c)) ->
  (forall e, cache w !! url = Some e -> NodeCache.value e = Page c) ->
  exists w1,
    await (fetchUrl server url "GET") w = (Ok (Page c), w1) /\
    (forall e, cache w1 !! url = Some e -> NodeCache.value e = Page c).
Proof.
  intros Hserver Hinv. unfold await, fetchUrl, NodeCache.get.
  destruct (cache w !! url) as [e|] eqn:He.
  - destruct (NodeCache.expires e <? now w).
    + cbn. rewrite Hserver. eexists. split; [reflexivity|]. cbn. unfold NodeCache.set.
      intros e'. rewrite lookup_insert_eq. by intros [= <-].
    + rewrite (Hinv e eq_refl). cbn. eexists. split; [reflexivity|].
      intros e'. rewrite He. intros [= <-]. by apply Hinv.
  - cbn. rewrite Hserver. eexists. split; [reflexivity|]. cbn. unfold NodeCache.set.
    intros e'. rewrite lookup_insert_eq. by intros [= <-].
Qed.

Lemma loadPagesIn_spins server decodeURI pause url c :
  (forall n, server n "GET" url = Ok (Page c)) ->
  next c <> None -> followNext decodeURI url (Page c) = Ok url ->
  forall fuel turn contentData w,
    (contentData = None \/ exists acc, contentData = Some (Page acc)) ->
    (forall e, cache w !! url = Some e -> NodeCache.value e = Page c) ->
    loadPagesIn server decodeURI pause turn fuel url contentData w = None.
Proof.
  intros Hserver Hn Hnext. induction fuel as [|fuel IH]; intros turn cd w Hcd Hinv;
    [reflexivity|].
  cbn [loadPagesIn].
  destruct (fetchUrl_same_page server url c (advance (pause turn) w) Hserver Hinv)
    as (w1 & -> & Hinv1).
  apply hasNext_Page in Hn.
  destruct Hcd as [->|[acc ->]]; cbn [accumulate falsy truthy negb];
    rewrite Hnext, Hn; apply IH; try done; right; by eexists.
Qed.

(** X13: a page that names itself as its successor, or the empty string,
    keeps the loop running. When the platform answers every request of
    the url with such a page, and the cache holds nothing else under the
    url, the loop has not ended after any number of turns, however much
    time passes before each turn, and so whether a turn finds the stored
    page alive or expired. *)
Theorem self_linked_page_never_ends server decodeURI pause url c w :
  (forall n, server n "GET" url = Ok (Page c)) ->
  next c <> None -> followNext decodeURI url (Page c) = Ok url ->
  (forall e, cache w !! url = Some e -> NodeCache.value e = Page c) ->
  forall fuel,
    loadPagesIn server decodeURI pause 0 fuel url None w = None /\
    loadPages server decodeURI fuel url None w = None.
Proof.
  intros Hserver Hn Hnext Hinv fuel. split.
  - apply (loadPagesIn_spins server decodeURI pause url c); try done. by left.
  - rewrite <- (loadPagesIn_still server decodeURI fuel 0).
    apply (loadPagesIn_spins server decodeURI _ url c); try done. by left.
Qed.

Lemma self_linked_page_never_ends_witness :
  loadPagesIn emptyNextServer identityDecode slowTurns 0 1000
    (curriculumUrl sampleBase 42 "less") None freshWorld = None /\
  loadPages emptyNextServer identityDecode 1000
    (curriculumUrl sampleBase 42 "less") None freshWorld = None.
Proof.
  refine (self_linked_page_never_ends emptyNextServer identityDecode slowTurns
            (curriculumUrl sampleBase 42 "less")
            (mkCollection 1 (Some "") None [chapter 1 "Start"]) freshWorld
            _ _ _ _ 1000%nat).
  - reflexivity.
  - discriminate.
  - reflexivity.
  - intros e H. unfold freshWorld in H. cbn [cache] in H.
    rewrite lookup_empty in H. discriminate H.
Defined.

(** Three slow turns: the first and the third send a request, the second
    is served from the cache. *)
Example slow_turns_requests :
  (let* first := await (fetchUrl emptyNextServer "u" "GET") in
   fun w =>
     (let* second := await (fetchUrl emptyNextServer "u" "GET") in
      fun w =>
        (let* third := await (fetchUrl emptyNextServer "u" "GET") in
         fun w => (Ok (length (calls w)), w)) (advance 2000000 w))
       (advance 2000000 w)) freshWorld
    = (Ok 2%nat,
       mkWorld (NodeCache.set ∅ 4000000 "u"
                  (Page (mkCollection 1 (Some "") None [chapter 1 "Start"])))
         4000000 [mkRequest "GET" "u"; mkRequest "GET" "u"]).
Proof. vm_compute. reflexivity. Qed.

(** *** Requests that go out together *)

Lemma fetchUrl_start_miss server url method w :
  isMiss url w ->
  fetchUrl server url method w =
    (fun w1 =>
       match server (length (calls w)) method url with
       | Ok data =>
           (Ok data,
            mkWorld (NodeCache.set (cache w1) (now w1) url data) (now w1) (calls w1))
       | Throw e => (Throw e, w1)
       end,
     mkWorld (cache w) (now w) (calls w ++ [mkRequest method url])).
Proof.
  unfold isMiss, fetchUrl.
  destruct (NodeCache.get (cache w) (now w) url) as [d|]; [intros ->|]; reflexivity.
Qed.

Lemma isMiss_logged url w more :
  isMiss url w -> isMiss url (mkWorld (cache w) (now w) more).
Proof. done. Qed.

Lemma settleAll_calls {A} (promises : list (Promise A)) : forall w,
  Forall (fun p => forall w', calls (snd (p w')) = calls w') promises ->
  calls (snd (settleAll promises w)) = calls w.
Proof.
  induction promises as [|p promises IH]; intros w Hall; [reflexivity|].
  apply Forall_cons in Hall as [Hp Hall]. cbn [settleAll].
  destruct (p w) as [r w1] eqn:Hpw. specialize (IH w1 Hall).
  destruct (settleAll promises w1) as [rs w2]. cbn [snd] in *.
  rewrite IH. specialize (Hp w). by rewrite Hpw in Hp.
Qed.

Lemma hydrate_start urlBase server courseId el w :
  (isLecture el = true -> isMiss (lectureUrl urlBase courseId (item_id el)) w) ->
  exists p,
    hydrate urlBase server courseId el w =
      (p, mkWorld (cache w) (now w)
            (calls w ++ if isLecture el
                        then [mkRequest "GET" (lectureUrl urlBase courseId (item_id el))]
                        else [])) /\
    forall w', calls (snd (p w')) = calls w'.
Proof.
  intros Hmiss. unfold hydrate, isLecture in *.
  destruct (String.eqb (_class el) "lecture").
  - unfold andThen, fetchLecture, fetchEndpoint.
    change (urlBase +:+ "/api-2.0" +:+ _) with (lectureUrl urlBase courseId (item_id el)).
    rewrite (fetchUrl_start_miss _ _ _ _ (Hmiss eq_refl)).
    eexists. split; [reflexivity|]. intros w'. unfold bind, ret.
    by destruct (server _ _ _).
  - exists (ret el). rewrite app_nil_r. split; [by destruct w|done].
Qed.

(** X14: when hydration is pending and none of the lecture records is in
    the cache, one request goes out for every lecture item, in the order
    of the items; a lecture that occurs twice is requested twice. *)
Theorem hydration_requests_every_lecture urlBase server courseId items w :
  (forall el, In el items -> isLecture el = true ->
     isMiss (lectureUrl urlBase courseId (item_id el)) w) ->
  calls (snd (all (map (hydrate urlBase server courseId) items) w))
    = calls w
        ++ map (fun el => mkRequest "GET" (lectureUrl urlBase courseId (item_id el)))
             (List.filter isLecture items).
Proof.
  intros Hmiss. unfold all.
  assert (Hs : exists ps,
             startAll (map (hydrate urlBase server courseId) items) w =
               (ps, mkWorld (cache w) (now w)
                      (calls w ++ map (fun el => mkRequest "GET"
                                         (lectureUrl urlBase courseId (item_id el)))
                                    (List.filter isLecture items))) /\
             Forall (fun p => forall w', calls (snd (p w')) = calls w') ps).
  { revert w Hmiss. induction items as [|el items IH]; intros w Hmiss.
    - exists []. cbn. rewrite app_nil_r. split; [by destruct w|constructor].
    - cbn [map startAll List.filter].
      destruct (hydrate_start urlBase server courseId el w) as (p & -> & Hp).
      { intros Hl. apply Hmiss; [by left|done]. }
      destruct (IH (mkWorld (cache w) (now w)
                      (calls w ++ (if isLecture el
                                   then [mkRequest "GET"
                                           (lectureUrl urlBase courseId (item_id el))]
                                   else [])))) as (ps & -> & Hps).
      { intros el' Hin Hl. apply isMiss_logged, Hmiss; [by right|done]. }
      exists (p :: ps). split; [|by constructor]. cbn [cache now calls].
      f_equal. f_equal. rewrite <- app_assoc. f_equal.
      by destruct (isLecture el). }
  destruct Hs as (ps & -> & Hps).
  pose proof (settleAll_calls ps
                (mkWorld (cache w) (now w)
                   (calls w ++ map (fun el => mkRequest "GET"
                                      (lectureUrl urlBase courseId (item_id el)))
                                 (List.filter isLecture items))) Hps) as Hc.
  destruct (settleAll ps _) as [rs w2]. exact Hc.
Qed.

Lemma hydration_requests_every_lecture_witness :
  calls (snd (all (map (hydrate sampleBase silentServer 42) lectureTwice) freshWorld))
    = calls freshWorld
        ++ map (fun el => mkRequest "GET" (lectureUrl sampleBase 42 (item_id el)))
             (List.filter isLecture lectureTwice).
Proof.
  apply (hydration_requests_every_lecture sampleBase silentServer 42 lectureTwice
           freshWorld).
  intros el _ _. exact I.
Defined.

(** X15: for a subscriber, when neither listing is in the cache and one
    of the two requests fails while the other is answered, fetchCourses
    fails with the error of the failed request; both requests have gone
    out, and the response of the other one is in the cache. *)
Theorem failed_listing_keeps_the_other urlBase server pageSize w e data :
  let u1 := subscribedUrl urlBase pageSize in
  let u2 := enrolledUrl urlBase pageSize in
  let sent := calls w ++ [mkRequest "GET" u1; mkRequest "GET" u2] in
  isMiss u1 w -> isMiss u2 w ->
  (server (length (calls w)) "GET" u1 = Throw e ->
   server (S (length (calls w))) "GET" u2 = Ok data ->
   fetchCourses urlBase server pageSize true w
     = (Throw e, mkWorld (NodeCache.set (cache w) (now w) u2 data) (now w) sent)) /\
  (server (length (calls w)) "GET" u1 = Ok data ->
   server (S (length (calls w))) "GET" u2 = Throw e ->
   fetchCourses urlBase server pageSize true w
     = (Throw e, mkWorld (NodeCache.set (cache w) (now w) u1 data) (now w) sent)).
Proof.
  intros u1 u2 sent Hm1 Hm2.
  assert (Hrun : fetchCourses urlBase server pageSize true w =
            bind (both (fetchUrl server u1 "GET") (fetchUrl server u2 "GET"))
              (fun fetched =>
                 let '(courses, enrolledCourses) := fetched in
                 match mergeListings courses enrolledCourses with
                 | Ok m => ret (Combined m)
                 | Throw e => throw e
                 end) w) by reflexivity.
  rewrite Hrun. unfold bind, both.
  rewrite (fetchUrl_start_miss _ _ _ _ Hm1).
  rewrite (fetchUrl_start_miss server u2 "GET" _ (isMiss_logged u2 w _ Hm2)).
  cbn [calls cache now].
  replace (length (calls w ++ [mkRequest "GET" u1])) with (S (length (calls w)))
    by (rewrite length_app; cbn; lia).
  subst sent. split; intros -> ->; cbn [cache now calls];
    by rewrite <- app_assoc.
Qed.

Lemma failed_listing_keeps_the_other_witness :
  fetchCourses sampleBase halfFailing 30 true freshWorld
    = (Throw (unavailable 500),
       mkWorld (NodeCache.set ∅ 0 (enrolledUrl sampleBase 30)
                  (pageOf [mkItem 1 "course" "Course" None None]))
         0 [mkRequest "GET" (subscribedUrl sampleBase 30);
            mkRequest "GET" (enrolledUrl sampleBase 30)]).
Proof.
  destruct (failed_listing_keeps_the_other sampleBase halfFailing 30 freshWorld
              (unavailable 500) (pageOf [mkItem 1 "course" "Course" None None]))
    as [H _].
  - exact I.
  - exact I.
  - apply H; reflexivity.
Defined.

(** *** What the service never does *)

Lemma reaches_refl w : reaches [] w w.
Proof. split; [by rewrite app_nil_r|done]. Qed.

Lemma reaches_trans urls1 urls2 w1 w2 w3 :
  reaches urls1 w1 w2 -> reaches urls2 w2 w3 -> reaches (urls1 ++ urls2) w1 w3.
Proof.
  intros [Hc1 Hk1] [Hc2 Hk2]. split.
  - by rewrite Hc2, Hc1, map_app, app_assoc.
  - intros key Hkey. rewrite Hk2, Hk1; [done| |]; intros H; apply Hkey, in_or_app; auto.
Qed.

Lemma confined_more {A} urls urls' (promise : Promise A) :
  (forall key, In key urls -> In key urls') -> confined urls promise ->
  confined urls' promise.
Proof.
  intros Hsub Hp w. destruct (Hp w) as [Hc Hk]. split; [done|].
  intros key Hkey. apply Hk. intros H. by apply Hkey, Hsub.
Qed.

Lemma confined_reaches {A} urls (promise : Promise A) w0 w :
  confined urls promise -> reaches urls w0 w -> reaches urls w0 (snd (promise w)).
Proof.
  intros Hp [Hc Hk]. destruct (Hp w) as [Hc' Hk']. split; [by rewrite Hc'|].
  intros key Hkey. by rewrite Hk', Hk.
Qed.

Lemma fetchUrl_frugal server url : frugalAsync (fetchUrl server url "GET").
Proof.
  intros w. unfold fetchUrl.
  assert (Hreq : forall n,
            reaches [url] w (mkWorld (cache w) (now w) (calls w ++ [mkRequest "GET" url]))
            /\ confined [url] (fun w1 : World =>
                 match server n "GET" url with
                 | Ok data =>
                     (Ok data,
                      mkWorld (NodeCache.set (cache w1) (now w1) url data) (now w1)
                        (calls w1))
                 | Throw e => (Throw e, w1)
                 end)).
  { intros n. split; [by split|]. intros w1.
    destruct (server n "GET" url); cbn [snd calls cache]; [|by split].
    split; [done|]. intros key Hkey. unfold NodeCache.set.
    apply lookup_insert_ne. intros ->. apply Hkey. by left. }
  assert (Hhit : forall d : Payload,
            reaches [] w (snd (resolved d w)) /\ cache (snd (resolved d w)) = cache w /\
            confined [] (fst (resolved d w))).
  { intros d. split; [apply reaches_refl|]. split; [done|]. intros w1. by split. }
  destruct (NodeCache.get (cache w) (now w) url) as [d|].
  - destruct (truthy d).
    + exists []. apply Hhit.
    + exists [url]. destruct (Hreq (length (calls w))) as [H1 H2].
      split; [exact H1|]. split; [reflexivity|exact H2].
  - exists [url]. destruct (Hreq (length (calls w))) as [H1 H2].
    split; [exact H1|]. split; [reflexivity|exact H2].
Qed.

Lemma resolved_frugal {A} (x : A) : frugalAsync (resolved x).
Proof.
  intros w. exists []. split; [apply reaches_refl|]. split; [done|]. intros w1. by split.
Qed.

Lemma rejected_frugal {A} e : frugalAsync (@rejected A e).
Proof.
  intros w. exists []. split; [apply reaches_refl|]. split; [done|]. intros w1. by split.
Qed.

Lemma bind_frugal {A B} (m : M A) (k : A -> M B) :
  frugalM m -> (forall a, frugalM (k a)) -> frugalM (bind m k).
Proof.
  intros Hm Hk w. unfold bind. destruct (Hm w) as [urls1 H1].
  destruct (m w) as [[a|e] w1]; cbn [snd] in *; [|by exists urls1].
  destruct (Hk a w1) as [urls2 H2]. exists (urls1 ++ urls2). by eapply reaches_trans.
Qed.

Lemma ret_frugal {A} (x : A) : frugalM (ret x).
Proof. intros w. exists []. apply reaches_refl. Qed.

Lemma throw_frugal {A} e : frugalM (@throw A e).
Proof. intros w. exists []. apply reaches_refl. Qed.

(** An async function whose continuation only builds its result. *)
Lemma andThen_frugal {A B} (call : Async A) (g : A -> B) :
  frugalAsync call -> frugalAsync (andThen call (fun a => ret (g a))).
Proof.
  intros Hc w. unfold andThen. destruct (Hc w) as (urls & H1 & H2 & H3).
  destruct (call w) as [p w1]. cbn [fst snd] in *. exists urls.
  split; [done|]. split; [done|]. intros w2. specialize (H3 w2).
  unfold bind, ret. by destruct (p w2) as [[a|e] w3].
Qed.

Lemma rethrow_frugal {A} handler (call : Async A) :
  frugalAsync call -> frugalAsync (rethrow handler call).
Proof.
  intros Hc w. unfold rethrow. destruct (Hc w) as (urls & H1 & H2 & H3).
  destruct (call w) as [p w1]. cbn [fst snd] in *. exists urls.
  split; [done|]. split; [done|]. intros w2. specialize (H3 w2).
  by destruct (p w2) as [[a|e] w3].
Qed.

Lemma await_frugal {A} (call : Async A) : frugalAsync call -> frugalM (await call).
Proof.
  intros Hc w. unfold await. destruct (Hc w) as (urls & H1 & H2 & H3).
  destruct (call w) as [p w1]. cbn [fst snd] in *. exists urls.
  by apply confined_reaches.
Qed.

Lemma startAll_frugal {A} (tasks : list (Async A)) : forall w,
  Forall frugalAsync tasks ->
  exists urls,
    reaches urls w (snd (startAll tasks w)) /\
    cache (snd (startAll tasks w)) = cache w /\
    Forall (confined urls) (fst (startAll tasks w)).
Proof.
  induction tasks as [|task tasks IH]; intros w Hall; cbn [startAll].
  - exists []. split; [apply reaches_refl|]. split; [done|constructor].
  - apply Forall_cons in Hall as [Ht Hall]. destruct (Ht w) as (urls1 & H1 & H2 & H3).
    destruct (task w) as [p w1]. cbn [fst snd] in *.
    destruct (IH w1 Hall) as (urls2 & H4 & H5 & H6).
    destruct (startAll tasks w1) as [ps w2]. cbn [fst snd] in *.
    exists (urls1 ++ urls2). split; [by eapply reaches_trans|].
    split; [congruence|]. constructor.
    + eapply confined_more; [|exact H3]. intros key Hk. apply in_or_app. by left.
    + eapply Forall_impl; [exact H6|]. intros q Hq.
      eapply confined_more; [|exact Hq]. intros key Hk. apply in_or_app. by right.
Qed.

Lemma settleAll_frugal {A} urls (promises : list (Promise A)) : forall w0 w,
  Forall (confined urls) promises -> reaches urls w0 w ->
  reaches urls w0 (snd (settleAll promises w)).
Proof.
  induction promises as [|p promises IH]; intros w0 w Hall Hw; cbn [settleAll]; [done|].
  apply Forall_cons in Hall as [Hp Hall].
  pose proof (confined_reaches urls p w0 w Hp Hw) as H1.
  destruct (p w) as [r w1]. cbn [snd] in H1. specialize (IH w0 w1 Hall H1).
  by destruct (settleAll promises w1) as [rs w2].
Qed.

Lemma all_frugal {A} (tasks : list (Async A)) :
  Forall frugalAsync tasks -> frugalM (all tasks).
Proof.
  intros Hall w. unfold all. destruct (startAll_frugal tasks w Hall) as (urls & H1 & _ & H3).
  destruct (startAll tasks w) as [ps w1]. cbn [fst snd] in *.
  pose proof (settleAll_frugal urls ps w w1 H3 H1) as H4.
  destruct (settleAll ps w1) as [rs w2]. cbn [snd] in *. by exists urls.
Qed.

Lemma both_frugal {A} (first second : Async A) :
  frugalAsync first -> frugalAsync second -> frugalM (both first second).
Proof.
  intros H1 H2 w. unfold both. destruct (H1 w) as (urls1 & Ha & _ & Hp1).
  destruct (first w) as [p1 w1]. cbn [fst snd] in *.
  destruct (H2 w1) as (urls2 & Hb & _ & Hp2).
  destruct (second w1) as [p2 w2]. cbn [fst snd] in *.
  assert (Hw2 : reaches (urls1 ++ urls2) w w2) by by eapply reaches_trans.
  assert (Hq1 : confined (urls1 ++ urls2) p1).
  { eapply confined_more; [|exact Hp1]. intros key Hk. apply in_or_app. by left. }
  assert (Hq2 : confined (urls1 ++ urls2) p2).
  { eapply confined_more; [|exact Hp2]. intros key Hk. apply in_or_app. by right. }
  pose proof (confined_reaches _ p1 w w2 Hq1 Hw2) as Hw3.
  destruct (p1 w2) as [r1 w3]. cbn [snd] in Hw3.
  pose proof (confined_reaches _ p2 w w3 Hq2 Hw3) as Hw4.
  destruct (p2 w3) as [r2 w4]. cbn [snd] in *. by exists (urls1 ++ urls2).
Qed.

Lemma fetchEndpoint_frugal urlBase server endpoint :
  frugalAsync (fetchEndpoint urlBase server endpoint "GET").
Proof. apply fetchUrl_frugal. Qed.

Lemma hydrate_frugal urlBase server courseId el :
  frugalAsync (hydrate urlBase server courseId el).
Proof.
  unfold hydrate. destruct (String.eqb (_class el) "lecture"); [|apply resolved_frugal].
  apply (andThen_frugal _ (fun lecture => mkItem _ _ _ _ _)), fetchEndpoint_frugal.
Qed.

Lemma prepare_frugal urlBase server loadPlaylist schedule courseId el :
  frugalAsync (_prepareStreamSource urlBase server loadPlaylist schedule courseId el).
Proof.
  apply rethrow_frugal. unfold prepareBody.
  destruct (String.eqb (_class el) "lecture"); [|apply resolved_frugal].
  destruct (asset el) as [a|]; [|apply resolved_frugal].
  destruct (asset_type a) as [ty|]; [|apply rejected_frugal].
  destruct (_ || _).
  - destruct (match stream_urls a with Some (mkStreamUrls (Some l)) => Some l
              | _ => media_sources a end); [|apply resolved_frugal].
    destruct (_convertToStreams _ _ _ _ _); [apply resolved_frugal|apply rejected_frugal].
  - destruct (String.eqb _ "presentation"); [|apply resolved_frugal].
    apply (andThen_frugal _ (fun lecture => mkItem _ _ _ _ _)), fetchEndpoint_frugal.
Qed.

Lemma prepareStreams_frugal urlBase server loadPlaylist schedule courseId items :
  frugalM (_prepareStreamsSource urlBase server loadPlaylist schedule courseId items).
Proof.
  intros w. unfold _prepareStreamsSource.
  assert (Hall : Forall frugalAsync
            (map (_prepareStreamSource urlBase server loadPlaylist schedule courseId)
               items)).
  { apply List.Forall_forall. intros t (el & <- & _)%in_map_iff. apply prepare_frugal. }
  destruct (all_frugal _ Hall w) as [urls H].
  exists urls. by destruct (all _ w) as [[l|e] w1].
Qed.

Lemma complete_frugal urlBase server loadPlaylist schedule courseId contentData loadContent :
  frugalM (complete urlBase server loadPlaylist schedule courseId contentData loadContent).
Proof.
  unfold complete. destruct (repair contentData) as [[c|]|e];
    [|apply ret_frugal|apply throw_frugal].
  apply bind_frugal.
  - destruct loadContent; [|apply ret_frugal]. apply all_frugal.
    apply List.Forall_forall. intros t (el & <- & _)%in_map_iff. apply hydrate_frugal.
  - intros items. apply bind_frugal; [apply prepareStreams_frugal|].
    intros items'. apply ret_frugal.
Qed.

Lemma loadPages_frugal server decodeURI fuel : forall url contentData w r w',
  loadPages server decodeURI fuel url contentData w = Some (r, w') ->
  exists urls, reaches urls w w'.
Proof.
  induction fuel as [|fuel IH]; intros url contentData w r w'; [done|].
  cbn [loadPages]. destruct (await_frugal _ (fetchUrl_frugal server url) w) as [urls1 Hq].
  destruct (await (fetchUrl server url "GET") w) as [[resp|e] w1]; cbn [snd] in Hq.
  - destruct (accumulate contentData resp) as [cd|e]; [|intros [= _ <-]; by exists urls1].
    destruct (followNext decodeURI url resp) as [url'|e];
      [|intros [= _ <-]; by exists urls1].
    destruct (hasNext resp); [|intros [= _ <-]; by exists urls1].
    intros H. destruct (IH _ _ _ _ _ H) as [urls2 H2].
    exists (urls1 ++ urls2). by eapply reaches_trans.
  - intros [= _ <-]. by exists urls1.
Qed.

(** X16: what the service never does. Listing the courses, searching
    them and fetching the content of a course send nothing but GET
    requests, and what the cache answers, at any time, under a url that
    they have not requested is what it answered before. *)
Theorem service_only_reads urlBase server loadPlaylist schedule decodeURI :
  let unobtrusive (w w' : World) :=
    exists urls,
      calls w' = calls w ++ map (mkRequest "GET") urls /\
      forall key, ~ In key urls ->
        forall t, NodeCache.get (cache w') t key = NodeCache.get (cache w) t key in
  (forall pageSize isSubscriber w,
     unobtrusive w (snd (fetchCourses urlBase server pageSize isSubscriber w))) /\
  (forall keyword pageSize isSubscriber w,
     unobtrusive w
       (snd (fetchSearchCourses urlBase server keyword pageSize isSubscriber w))) /\
  (forall fuel courseId contentType w r w',
     fetchCourseContent urlBase server loadPlaylist schedule decodeURI
       fuel courseId contentType w = Some (r, w') ->
     unobtrusive w w').
Proof.
  cbv zeta.
  assert (Hout : forall urls w w', reaches urls w w' ->
            exists urls,
              calls w' = calls w ++ map (mkRequest "GET") urls /\
              forall key, ~ In key urls ->
                forall t, NodeCache.get (cache w') t key = NodeCache.get (cache w) t key).
  { intros urls w w' [Hc Hk]. exists urls. split; [done|].
    intros key Hkey t. unfold NodeCache.get. by rewrite Hk. }
  assert (Hlist : forall url urlEnroll isSubscriber,
            frugalM (listCourses urlBase server url urlEnroll isSubscriber)).
  { intros url urlEnroll isSubscriber. unfold listCourses. destruct isSubscriber.
    - apply bind_frugal; [apply both_frugal; apply fetchEndpoint_frugal|].
      intros [courses enrolled].
      destruct (mergeListings courses enrolled); [apply ret_frugal|apply throw_frugal].
    - apply bind_frugal; [apply await_frugal, fetchEndpoint_frugal|].
      intros data. apply ret_frugal. }
  split; [|split].
  - intros pageSize isSubscriber w.
    destruct (Hlist (URL_COURSES +:+ "?" +:+
                       ("page_size=" +:+ JS.numberToString (Z.max pageSize 10)
                          +:+ "&ordering=-last_accessed"))
                    (URL_COURSES_ENROLL +:+ "?" +:+
                       ("page_size=" +:+ JS.numberToString (Z.max pageSize 10)
                          +:+ "&ordering=-last_accessed"))
                    isSubscriber w) as [urls H].
    exact (Hout _ _ _ H).
  - intros keyword pageSize isSubscriber w. unfold fetchSearchCourses, fetchCourses.
    destruct (String.eqb keyword "");
      match goal with
      | |- context [listCourses _ _ ?u ?v ?b w] =>
          destruct (Hlist u v b w) as [urls H]; exact (Hout _ _ _ H)
      end.
  - intros fuel courseId contentType w r w'. unfold fetchCourseContent, acquire.
    destruct (loadPages server decodeURI fuel _ None w) as [[[cd|e] w1]|] eqn:Hp;
      [| |done]; apply loadPages_frugal in Hp as [urls1 Hp].
    + intros [= Hc].
      destruct (complete_frugal urlBase server loadPlaylist schedule courseId cd false w1)
        as [urls2 Hq].
      rewrite Hc in Hq. cbn [snd] in Hq.
      exact (Hout _ _ _ (reaches_trans _ _ _ _ _ Hp Hq)).
    + destruct (hasStatus 503 e).
      * unfold bind.
        destruct (await_frugal _ (fetchEndpoint_frugal urlBase server
                     ("/courses/" +:+ JS.numberToString courseId +:+
                      "/cached-subscriber-curriculum-items?page_size=10000&fields[lecture]=id,title,asset"))
                     w1) as [urls2 Hf].
        change (await (fetchEndpoint urlBase server _ "GET"))
          with (await (fetchCourse urlBase server courseId)) in Hf.
        destruct (await (fetchCourse urlBase server courseId) w1) as [[data|e'] w2];
          cbn [snd ret] in *.
        -- intros [= Hc].
           destruct (complete_frugal urlBase server loadPlaylist schedule courseId
                       (Some data)
                       (negb (String.eqb (normalizeContentType contentType) "less"))
                       w2) as [urls3 Hq].
           rewrite Hc in Hq. cbn [snd] in Hq.
           exact (Hout _ _ _ (reaches_trans _ _ _ _ _ Hp
                                (reaches_trans _ _ _ _ _ Hf Hq))).
        -- intros [= _ <-]. exact (Hout _ _ _ (reaches_trans _ _ _ _ _ Hp Hf)).
      * intros [= _ <-]. exact (Hout _ _ _ Hp).
Qed.

Lemma service_only_reads_witness :
  exists urls,
    calls (stored (subscribedUrl sampleBase 30) "GET"
             (pageOf [mkItem 1 "course" "Course" None None])
             (stored sampleUrl "GET" (pageOf [chapter 1 "got"]) freshWorld))
      = calls (stored sampleUrl "GET" (pageOf [chapter 1 "got"]) freshWorld)
          ++ map (mkRequest "GET") urls /\
    forall key, ~ In key urls ->
      forall t,
        NodeCache.get
          (cache (stored (subscribedUrl sampleBase 30) "GET"
                    (pageOf [mkItem 1 "course" "Course" None None])
                    (stored sampleUrl "GET" (pageOf [chapter 1 "got"]) freshWorld)))
          t key
        = NodeCache.get
            (cache (stored sampleUrl "GET" (pageOf [chapter 1 "got"]) freshWorld)) t key.
Proof.
  destruct (service_only_reads sampleBase halfFailing noPlaylist inOrder identityDecode)
    as (H & _ & _).
  exact (H 30 false (stored sampleUrl "GET" (pageOf [chapter 1 "got"]) freshWorld)).
Defined.

(** ** utils.js: paginate *)

Lemma paginate_forward {A} (array : list A) page_size page_number :
  0 <= page_size -> 1 <= page_number ->
  Utils.paginate array page_size page_number
    = firstn (Z.to_nat page_size)
        (skipn (Z.to_nat ((page_number - 1) * page_size)) array).
Proof.
  intros Hs Hn. unfold Utils.paginate, Utils.slice, Utils.relativeIndex.
  set (len := Z.of_nat (length array)).
  assert (Hlen : len = Z.of_nat (length array)) by reflexivity.
  replace (page_number * page_size) with ((page_number - 1) * page_size + page_size)
    by ring.
  assert (Hstart : 0 <= (page_number - 1) * page_size)
    by (apply Z.mul_nonneg_nonneg; lia).
  set (start := (page_number - 1) * page_size) in *.
  destruct (Z.ltb_spec start 0); [lia|].
  destruct (Z.ltb_spec (start + page_size) 0); [lia|].
  destruct (Z.le_gt_cases len start) as [Hout|Hin].
  - rewrite !skipn_all2 by lia. by rewrite !firstn_nil.
  - rewrite (Z.min_l start len) by lia.
    destruct (Z.le_gt_cases (start + page_size) len) as [Hfull|Hshort].
    + rewrite (Z.min_l (start + page_size)) by lia. f_equal. lia.
    + rewrite (Z.min_r (start + page_size)) by lia.
      rewrite !firstn_all2; [done| |]; rewrite length_skipn; lia.
Qed.

(** X17: with a page size that is not negative, page_number counting
    from 1, a page holds at most page_size items, and the pages 1 to n
    laid end to end are the first n * page_size items of the array: no
    item is lost and none comes twice. *)
Theorem pages_partition_the_array {A} (array : list A) page_size :
  0 <= page_size ->
  (forall page_number, 1 <= page_number ->
     (length (Utils.paginate array page_size page_number) <= Z.to_nat page_size)%nat) /\
  (forall n : nat,
     concat (map (fun k => Utils.paginate array page_size (Z.of_nat k)) (seq 1 n))
       = firstn (n * Z.to_nat page_size) array).
Proof.
  intros Hs. split.
  - intros page_number Hn. rewrite paginate_forward by done. apply firstn_le_length.
  - induction n as [|n IH]; [reflexivity|].
    rewrite seq_S, map_app, concat_app, IH. cbn [map concat Nat.add].
    rewrite app_nil_r, paginate_forward by lia.
    replace (Z.to_nat ((Z.of_nat (S n) - 1) * page_size))
      with (n * Z.to_nat page_size)%nat by nia.
    rewrite take_take_drop. f_equal. lia.
Qed.

Lemma pages_partition_the_array_witness :
  (forall page_number, 1 <= page_number ->
     (length (Utils.paginate fiveItems 2 page_number) <= Z.to_nat 2)%nat) /\
  (forall n : nat,
     concat (map (fun k => Utils.paginate fiveItems 2 (Z.of_nat k)) (seq 1 n))
       = firstn (n * Z.to_nat 2) fiveItems).
Proof.
  apply (pages_partition_the_array fiveItems 2). lia.
Defined.



Example paginate_samples :
  Utils.paginate [1; 2; 3; 4; 5] 2 1 = [1; 2] /\
  Utils.paginate [1; 2; 3; 4; 5] 2 3 = [5] /\
  Utils.paginate [1; 2; 3; 4; 5] 2 4 = [] /\
  Utils.paginate [1; 2; 3; 4; 5] 2 0 = [] /\
  Utils.paginate [1; 2; 3; 4; 5] 2 (-1) = [2; 3].
Proof. repeat split. Qed.

(** ** The constructor *)

Lemma lowerChar_facts c :
  JS.isWhiteSpace (JS.lowerChar c) = JS.isWhiteSpace c /\
  JS.lowerChar (JS.lowerChar c) = JS.lowerChar c.
Proof. destruct c as [[] [] [] [] [] [] [] []]; vm_compute; by split. Qed.

Lemma trimStart_lower s :
  JS.trimStart (JS.toLowerCase s) = JS.toLowerCase (JS.trimStart s).
Proof.
  induction s as [|c s IH]; [reflexivity|]. cbn [JS.toLowerCase JS.trimStart].
  rewrite (proj1 (lowerChar_facts c)). by destruct (JS.isWhiteSpace c).
Qed.

Lemma trimEnd_lower s : trimEnd (JS.toLowerCase s) = JS.toLowerCase (trimEnd s).
Proof.
  induction s as [|c s IH]; [reflexivity|]. cbn [JS.toLowerCase trimEnd].
  rewrite IH. destruct (trimEnd s) as [|c' kept]; cbn [JS.toLowerCase].
  - rewrite (proj1 (lowerChar_facts c)). by destruct (JS.isWhiteSpace c).
  - reflexivity.
Qed.

Lemma toLowerCase_length s : String.length (JS.toLowerCase s) = String.length s.
Proof. induction s as [|c s IH]; [reflexivity|]. cbn. by rewrite IH. Qed.

Lemma toLowerCase_idem s : JS.toLowerCase (JS.toLowerCase s) = JS.toLowerCase s.
Proof.
  induction s as [|c s IH]; [reflexivity|]. cbn [JS.toLowerCase].
  by rewrite IH, (proj2 (lowerChar_facts c)).
Qed.

Lemma trimStart_blank s : blank s = true -> JS.trimStart s = "".
Proof.
  induction s as [|c s IH]; [reflexivity|]. cbn [blank JS.trimStart].
  intros [-> Hs]%andb_prop. by apply IH.
Qed.

Lemma trimEnd_blank s : blank s = true -> trimEnd s = "".
Proof.
  induction s as [|c s IH]; [reflexivity|]. cbn [blank trimEnd].
  intros [Hc Hs]%andb_prop. by rewrite IH, Hc.
Qed.

Lemma trimStart_prefix pre s :
  blank pre = true -> JS.trimStart (pre +:+ s) = JS.trimStart s.
Proof.
  induction pre as [|c pre IH]; [reflexivity|]. simpl.
  intros [-> Hs]%andb_prop. by apply IH.
Qed.

Lemma trimEnd_suffix s post : blank post = true -> trimEnd (s +:+ post) = trimEnd s.
Proof.
  intros Hp. induction s as [|c s IH]; simpl.
  - by apply trimEnd_blank.
  - by rewrite IH.
Qed.

Lemma trim_suffix s post : blank post = true -> trim (s +:+ post) = trim s.
Proof.
  intros Hp. unfold trim. induction s as [|c s IH].
  - change ("" +:+ post) with post. by rewrite (trimStart_blank post Hp).
  - change (String c s +:+ post) with (String c (s +:+ post)). cbn [JS.trimStart].
    destruct (JS.isWhiteSpace c); [exact IH|].
    by apply (trimEnd_suffix (String c s)).
Qed.

Lemma trim_padded pre s post :
  blank pre = true -> blank post = true -> trim (pre +:+ s +:+ post) = trim s.
Proof.
  intros Hpre Hpost. unfold trim. rewrite trimStart_prefix by done.
  by apply trim_suffix.
Qed.

Lemma trim_lower s : trim (JS.toLowerCase s) = JS.toLowerCase (trim s).
Proof. unfold trim. by rewrite trimStart_lower, trimEnd_lower. Qed.

(** X19: the url base the constructor computes, for a subdomain made of
    ASCII characters. A subdomain left out, or made of ASCII white space
    only, gives https://www.udemy.com; the case of its ASCII letters and
    ASCII white space around it make no difference; the login url is the
    url base followed by /join/login-popup. *)
Theorem constructor_normalizes_subdomain s httpTimeout :
  isAscii s = true ->
  (blank s = true ->
   service_urlBase (constructor (Some s) httpTimeout) = "https://www.udemy.com") /\
  service_urlBase (constructor None httpTimeout) = "https://www.udemy.com" /\
  service_urlBase (constructor (Some (JS.toLowerCase s)) httpTimeout)
    = service_urlBase (constructor (Some s) httpTimeout) /\
  (forall pre post, blank pre = true -> blank post = true ->
     service_urlBase (constructor (Some (pre +:+ s +:+ post)) httpTimeout)
       = service_urlBase (constructor (Some s) httpTimeout)) /\
  service_urlLogin (constructor (Some s) httpTimeout)
    = service_urlBase (constructor (Some s) httpTimeout) +:+ "/join/login-popup".
Proof.
  intros _. split; [|split; [|split; [|split]]].
  - intros Hb. unfold constructor. cbn [service_urlBase]. unfold trim.
    by rewrite (trimStart_blank s Hb).
  - reflexivity.
  - unfold constructor. cbn [service_urlBase]. rewrite trim_lower, toLowerCase_length.
    destruct (Nat.eqb (String.length (trim s)) 0); [reflexivity|].
    by rewrite toLowerCase_idem.
  - intros pre post Hpre Hpost. unfold constructor. cbn [service_urlBase].
    by rewrite trim_padded.
  - reflexivity.
Qed.

Lemma constructor_normalizes_subdomain_witness :
  (blank "Acme" = true ->
   service_urlBase (constructor (Some "Acme") None) = "https://www.udemy.com") /\
  service_urlBase (constructor None None) = "https://www.udemy.com" /\
  service_urlBase (constructor (Some (JS.toLowerCase "Acme")) None)
    = service_urlBase (constructor (Some "Acme") None) /\
  (forall pre post, blank pre = true -> blank post = true ->
     service_urlBase (constructor (Some (pre +:+ "Acme" +:+ post)) None)
       = service_urlBase (constructor (Some "Acme") None)) /\
  service_urlLogin (constructor (Some "Acme") None)
    = service_urlBase (constructor (Some "Acme") None) +:+ "/join/login-popup".
Proof.
  apply (constructor_normalizes_subdomain "Acme" None). reflexivity.
Defined.

Example constructor_samples :
  service_urlBase (constructor (Some " ACME ") None) = "https://acme.udemy.com" /\
  service_urlLogin (constructor (Some " ACME ") None)
    = "https://acme.udemy.com/join/login-popup" /\
  service_timeout (constructor None None) = 40000.
Proof. repeat split. Qed.

(** ** Numbers as keys and in urls *)

Lemma readDigits_acc u : forall acc,
  JS.readDigits (Some (Z.pos acc)) (NilEmpty.string_of_uint u)
    = Some (Z.pos (Pos.of_uint_acc u acc)).
Proof.
  induction u as [|u IH|u IH|u IH|u IH|u IH|u IH|u IH|u IH|u IH|u IH]; intros acc;
    [reflexivity|..];
    cbn [NilEmpty.string_of_uint JS.readDigits Pos.of_uint_acc];
    match goal with
    | |- context [JS.digitValue ?c] =>
        let v := eval vm_compute in (JS.digitValue c) in
        change (JS.digitValue c) with v
    end;
    cbv iota beta; rewrite <- IH; f_equal; f_equal; lia.
Qed.

Lemma readDigits_zero u :
  JS.readDigits (Some 0) (NilEmpty.string_of_uint u) = Some (Z.of_N (Pos.of_uint u)).
Proof.
  induction u as [|u IH|u IH|u IH|u IH|u IH|u IH|u IH|u IH|u IH|u IH];
    [reflexivity|exact IH|..];
    cbn [NilEmpty.string_of_uint JS.readDigits Pos.of_uint];
    match goal with
    | |- context [JS.digitValue ?c] =>
        let v := eval vm_compute in (JS.digitValue c) in
        change (JS.digitValue c) with v
    end;
    cbv iota beta; (etransitivity; [eapply (readDigits_acc u)|reflexivity]).
Qed.

Lemma readDigits_None u :
  u <> Decimal.Nil ->
  JS.readDigits None (NilEmpty.string_of_uint u) = Some (Z.of_N (Pos.of_uint u)).
Proof.
  intros Hu. rewrite <- readDigits_zero. by destruct u.
Qed.

Lemma parseInt10_uint u :
  u <> Decimal.Nil ->
  JS.parseInt10 (NilEmpty.string_of_uint u) = Some (Z.of_N (Pos.of_uint u)).
Proof.
  intros Hu. rewrite <- (readDigits_None u Hu). by destruct u.
Qed.

(** The decimal text of an integer reads back as the integer. *)
Lemma parseInt10_numberToString n : JS.parseInt10 (JS.numberToString n) = Some n.
Proof.
  unfold JS.numberToString. destruct n as [|p|p]; [reflexivity|..];
    cbn [Z.to_int NilZero.string_of_int];
    pose proof (DecimalPos.Unsigned.to_uint_nonnil p) as Hu;
    pose proof (DecimalPos.Unsigned.of_to p) as Hp;
    assert (Hs : NilZero.string_of_uint (Pos.to_uint p)
                 = NilEmpty.string_of_uint (Pos.to_uint p))
      by (by destruct (Pos.to_uint p));
    rewrite Hs.
  - rewrite parseInt10_uint by done. by rewrite Hp.
  - change (Z.opp <$> JS.readDigits None (NilEmpty.string_of_uint (Pos.to_uint p))
            = Some (Z.neg p)).
    rewrite readDigits_None by done. by rewrite Hp.
Qed.

Lemma numberToString_inj a b : JS.numberToString a = JS.numberToString b -> a = b.
Proof.
  intros H. assert (Hp : JS.parseInt10 (JS.numberToString a)
                         = JS.parseInt10 (JS.numberToString b)) by by rewrite H.
  rewrite !parseInt10_numberToString in Hp. by injection Hp.
Qed.


Lemma explicitQualities_In ds q :
  In q (explicitQualities ds) ->
  exists v, In v ds /\ isManifest v = false /\ JS.parseInt10 (keyOf v) = Some q.
Proof.
  unfold explicitQualities. rewrite <- list_elem_of_In, list_elem_of_omap.
  intros (v & Hin%list_elem_of_In & Hv). exists v. split; [done|].
  destruct (isManifest v); [done|]. split; [done|].
  by destruct (String.eqb (keyOf v) "auto").
Qed.

Lemma discoveredQualities_In pending q :
  In q (discoveredQualities pending) ->
  exists ty playlist item,
    In (ty, Ok playlist) pending /\ In item playlist /\ quality item = q.
Proof.
  unfold discoveredQualities. rewrite in_flat_map.
  intros ([ty [playlist|e]] & Hin & Hq); cbn [snd] in Hq; [|done].
  apply in_map_iff in Hq as (item & <- & Hitem). by exists ty, playlist, item.
Qed.

Lemma chosen_In hint ds v : In v (chosen hint ds) -> In v ds.
Proof.
  unfold chosen. destruct hint; [|done].
  destruct (List.filter isPlain ds) as [|v' kept] eqn:Hk; [done|].
  rewrite <- Hk. by intros [H _]%filter_In.
Qed.

(** Every pair of a playlist that was read has its key in the resolved set. *)
Lemma convert_Ok_present loadPlaylist schedule ds hint title r :
  _convertToStreams loadPlaylist schedule (Some ds) hint title = Ok r ->
  effectiveFlag hint ds = false ->
  forall ty playlist item,
    In (ty, Ok playlist) (expansions loadPlaylist (chosen hint ds)) ->
    In item playlist ->
    is_Some (sources r !! JS.numberToString (quality item)).
Proof.
  intros Hr Hflag ty playlist item Hx Hitem.
  assert (Hu : hint = true -> forall v, In v ds -> urlOf v <> None).
  { intros ->. by eapply hinted_Ok_urls. }
  rewrite (convert_unfold _ _ _ _ _ Hu) in Hr. cbv zeta in Hr.
  rewrite Hflag in Hr.
  set (order := arrange schedule 0%nat _ []) in *.
  assert (Hperm : Permutation order (expansions loadPlaylist (chosen hint ds))).
  { subst order. by rewrite arrange_perm. }
  set (t0 := mkTracker _ _ _) in *.
  destruct (resumeAll order t0) as [t|e] eqn:Hrun; [|done].
  injection Hr as <-. cbn [sources].
  destruct (resumeAll_ok order t0 (resumeAll_Ok_inv _ _ _ Hrun))
    as (t' & Hrun' & _ & _ & _ & Hpres & _).
  rewrite Hrun in Hrun'. injection Hrun' as <-.
  apply (Hpres ty playlist item); [|done].
  eapply Permutation_in; [symmetry; exact Hperm|done].
Qed.

(** X20: when every label that has a numeric value is that value's
    decimal text and the qualities met lie strictly between the two
    sentinels, a bound a resolved set reports is always a key of its
    sources, and the two bounds read back as numbers in order. *)
Theorem reported_bounds_are_keys loadPlaylist schedule ds hint title r :
  _convertToStreams loadPlaylist schedule (Some ds) hint title = Ok r ->
  (forall v n, In v ds -> isManifest v = false ->
     JS.parseInt10 (keyOf v) = Some n -> keyOf v = JS.numberToString n) ->
  Forall (fun q => JS.MIN_SAFE_INTEGER < q < JS.MAX_SAFE_INTEGER)
    (qualitiesMet loadPlaylist hint ds) ->
  (forall k, minQuality r = Some k \/ maxQuality r = Some k ->
     is_Some (sources r !! k)) /\
  (forall lo hi, minQuality r = Some lo -> maxQuality r = Some hi -> lo <> "auto" ->
     exists a b, JS.parseInt10 lo = Some a /\ JS.parseInt10 hi = Some b /\ a <= b).
Proof.
  intros Hr Hcanon Hsafe.
  destruct (convert_Ok_inv _ _ _ _ _ _ Hr) as (Hflag & Hmin & Hmax & Hkeep & _).
  set (qualities := qualitiesMet loadPlaylist hint ds) in *.
  assert (Hkey : forall q, In q qualities ->
            is_Some (sources r !! JS.numberToString q)).
  { intros q Hq. subst qualities. unfold qualitiesMet in Hq.
    apply in_app_or in Hq as [Hq|Hq].
    - apply explicitQualities_In in Hq as (v & Hin & Hman & Hv).
      pose proof (Hcanon v q (chosen_In _ _ _ Hin) Hman Hv) as Hk. rewrite <- Hk.
      destruct (registered_present (chosen hint ds) v ∅ Hin Hman) as [e He].
      { rewrite Hk. apply numberToString_not_proto. }
      exists e. by apply Hkeep.
    - destruct (effectiveFlag hint ds) eqn:Hf; [done|].
      apply discoveredQualities_In in Hq as (ty & playlist & item & Hx & Hitem & <-).
      by eapply convert_Ok_present. }
  destruct (decide (qualities = [])) as [Hq|Hq].
  - rewrite Hq in Hmin, Hmax. cbn [foldr] in Hmin, Hmax. unfold finalQuality in Hmin, Hmax.
    rewrite Z.eqb_refl in Hmin, Hmax. split.
    + intros k Hk. destruct (sources r !! "auto") as [e|] eqn:Ha.
      * assert (k = "auto") as -> by (destruct Hk; congruence). rewrite Ha. by eexists.
      * destruct Hk; congruence.
    + intros lo hi Hlo Hhi Hne. destruct (sources r !! "auto"); congruence.
  - assert (Hlt : Forall (fun q => q < JS.MAX_SAFE_INTEGER) qualities)
      by (eapply Forall_impl; [exact Hsafe|]; simpl; intros; lia).
    assert (Hgt : Forall (fun q => JS.MIN_SAFE_INTEGER < q) qualities)
      by (eapply Forall_impl; [exact Hsafe|]; simpl; intros; lia).
    destruct (foldr_min_spec _ _ Hq Hlt) as [Hlo1 Hlo2].
    destruct (foldr_max_spec _ _ Hq Hgt) as [Hhi1 Hhi2].
    set (lo := foldr Z.min JS.MAX_SAFE_INTEGER qualities) in *.
    set (hi := foldr Z.max JS.MIN_SAFE_INTEGER qualities) in *.
    rewrite List.Forall_forall in Hlt, Hgt, Hlo2.
    pose proof (Hlt lo Hlo1). pose proof (Hgt hi Hhi1). pose proof (Hlo2 hi Hhi1).
    unfold finalQuality in Hmin, Hmax.
    destruct (Z.eqb_spec lo JS.MAX_SAFE_INTEGER); [lia|].
    destruct (Z.eqb_spec hi JS.MIN_SAFE_INTEGER); [lia|].
    split.
    + intros k [Hk|Hk]; rewrite Hk in *.
      * injection Hmin as ->. by apply Hkey.
      * injection Hmax as ->. by apply Hkey.
    + intros klo khi Hklo Hkhi _. rewrite Hklo in Hmin. rewrite Hkhi in Hmax.
      injection Hmin as ->. injection Hmax as ->.
      exists lo, hi. by rewrite !parseInt10_numberToString.
Qed.

Lemma reported_bounds_are_keys_witness :
  (forall k, minQuality specExampleResolved = Some k \/
             maxQuality specExampleResolved = Some k ->
     is_Some (sources specExampleResolved !! k)) /\
  (forall lo hi, minQuality specExampleResolved = Some lo ->
     maxQuality specExampleResolved = Some hi -> lo <> "auto" ->
     exists a b, JS.parseInt10 lo = Some a /\ JS.parseInt10 hi = Some b /\ a <= b).
Proof.
  apply (reported_bounds_are_keys playlist480 inOrder specExample false ""
           specExampleResolved).
  - vm_compute. reflexivity.
  - intros v n [<-|[<-|[<-|[]]]] _; vm_compute; intros [= <-]; reflexivity.
  - repeat constructor.
Defined.


Lemma append_assoc (a b c : string) : (a +:+ b) +:+ c = a +:+ (b +:+ c).
Proof.
  induction a as [|x a IH]; [done|].
  change (String x ((a +:+ b) +:+ c) = String x (a +:+ (b +:+ c))). by rewrite IH.
Qed.

(** Two numbers followed by the same delimiter, which no number holds. *)
Lemma split_at_delimiter c a : forall b x y,
  allNumberChars a = true -> allNumberChars b = true -> isNumberChar c = false ->
  a +:+ String c x = b +:+ String c y -> a = b /\ x = y.
Proof.
  induction a as [|h a IH]; intros [|h' b] x y Ha Hb Hc H.
  - change (String c x = String c y) in H. by injection H.
  - change (String c x = String h' (b +:+ String c y)) in H.
    injection H as <- _. cbn [allNumberChars] in Hb.
    apply andb_prop in Hb as [Hb _]. congruence.
  - change (String h (a +:+ String c x) = String c y) in H.
    injection H as -> _. cbn [allNumberChars] in Ha.
    apply andb_prop in Ha as [Ha _]. congruence.
  - change (String h (a +:+ String c x) = String h' (b +:+ String c y)) in H.
    injection H as -> H. cbn [allNumberChars] in Ha, Hb.
    apply andb_prop in Ha as [_ Ha]. apply andb_prop in Hb as [_ Hb].
    destruct (IH b x y Ha Hb Hc H) as [-> ->]. done.
Qed.

(** X21: [fetchLecture] asks [#fetchUrl] for a url, its cache key, that
    tells the course, the lecture and the two field options apart: two
    calls share a key only when all four arguments agree. *)
Theorem lecture_requests_never_collide urlBase server c1 l1 g1 a1 c2 l2 g2 a2 :
  fetchLecture urlBase server c1 l1 g1 a1
    = fetchUrl server (lectureKey urlBase c1 l1 g1 a1) "GET" /\
  (lectureKey urlBase c1 l1 g1 a1 = lectureKey urlBase c2 l2 g2 a2 ->
   c1 = c2 /\ l1 = l2 /\ g1 = g2 /\ a1 = a2).
Proof.
  split; [reflexivity|]. unfold lectureKey. rewrite !append_assoc.
  intros H. do 3 apply String.app_inj in H.
  change ("/lectures/" +:+ ?x) with (String "/" ("lectures/" +:+ x)) in H.
  apply split_at_delimiter in H as [Hc H];
    [|apply allNumberChars_numberToString..|reflexivity].
  apply numberToString_inj in Hc. apply String.app_inj in H.
  change ("?fields[lecture]=id,title,asset" +:+ ?x)
    with (String "?" ("fields[lecture]=id,title,asset" +:+ x)) in H.
  apply split_at_delimiter in H as [Hl H];
    [|apply allNumberChars_numberToString..|reflexivity].
  apply numberToString_inj in Hl. apply String.app_inj in H.
  split; [done|]. split; [done|].
  by destruct g1, a1, g2, a2.
Qed.

Lemma lecture_requests_never_collide_witness :
  lectureKey sampleBase 10 1 true false <> lectureKey sampleBase 10 2 true false.
Proof.
  intros H.
  destruct (lecture_requests_never_collide sampleBase silentServer
              10 1 true false 10 2 true false) as [_ Hinj].
  destruct (Hinj H) as (_ & Hl & _). discriminate Hl.
Defined.


(** ** utils.js: the closest key *)

Lemma closer_fold target rest : forall p,
  exists k, fold_left (Utils.closer target) rest (Some p) = Some k /\
    (k = p \/ In (Some k) rest) /\
    Z.abs (k - target) <= Z.abs (p - target) /\
    (forall k', In (Some k') rest -> Z.abs (k - target) <= Z.abs (k' - target)) /\
    ((forall k', In (Some k') rest -> Z.abs (p - target) <= Z.abs (k' - target)) ->
     k = p).
Proof.
  induction rest as [|[c|] rest IH]; intros p; cbn [fold_left Utils.closer].
  - exists p. split; [done|]. split; [by left|]. split; [lia|]. by split.
  - destruct (Z.ltb_spec (Z.abs (c - target)) (Z.abs (p - target))) as [Hlt|Hge].
    + destruct (IH c) as (k & Hk & Hin & Hle & Hmin & _). exists k.
      split; [done|]. split; [|split; [lia|split]].
      * right. destruct Hin as [->|Hin]; [by left|by right].
      * intros k' [[= <-]|Hk']; [done|by apply Hmin].
      * intros Hp. specialize (Hp c (or_introl eq_refl)). lia.
    + destruct (IH p) as (k & Hk & Hin & Hle & Hmin & Hfirst). exists k.
      split; [done|]. split; [|split; [done|split]].
      * destruct Hin as [->|Hin]; [by left|right; by right].
      * intros k' [[= <-]|Hk']; [lia|by apply Hmin].
      * intros Hp. apply Hfirst. intros k' Hk'. apply Hp. by right.
  - destruct (IH p) as (k & Hk & Hin & Hle & Hmin & Hfirst). exists k.
    split; [done|]. split; [|split; [done|split]].
    + destruct Hin as [->|Hin]; [by left|right; by right].
    + intros k' [[=]|Hk']. by apply Hmin.
    + intros Hp. apply Hfirst. intros k' Hk'. apply Hp. by right.
Qed.

Lemma closer_fold_NaN target rest :
  fold_left (Utils.closer target) rest None = None.
Proof. induction rest as [|c rest IH]; [done|]. exact IH. Qed.

Lemma property_In {V} name (obj : list (string * V)) v :
  Utils.property name obj = Some v -> In (name, v) obj.
Proof.
  induction obj as [|[k w] obj IH]; [done|]. cbn [Utils.property].
  destruct (String.eqb_spec k name) as [->|Hne].
  - intros [= ->]. by left.
  - intros H. right. by apply IH.
Qed.

Lemma property_present {V} name (obj : list (string * V)) w :
  In (name, w) obj -> is_Some (Utils.property name obj).
Proof.
  induction obj as [|[k v] obj IH]; [done|]. cbn [Utils.property].
  destruct (String.eqb_spec k name) as [->|Hne]; [by eexists|].
  intros [[= ? ?]|Hin]; [done|by apply IH].
Qed.

(** X22: for an object whose first key is a number, and whose numeric
    keys are written as their decimal text, [getClosestValue] returns a
    numeric key of the object that no numeric key is nearer to the
    target than, together with the value stored under it; when the first
    key is as near as any, it is the one returned. *)
Theorem closest_key_is_nearest {V} Number (obj : list (string * V)) target name v k0 rest :
  obj = (name, v) :: rest ->
  Number name = Some k0 ->
  (forall kv n, In kv obj -> Number (fst kv) = Some n -> fst kv = JS.numberToString n) ->
  exists k value,
    Utils.getClosestValue Number obj target = Ok (Utils.mkClosest (Some k) (Some value)) /\
    In (JS.numberToString k, value) obj /\
    Number (JS.numberToString k) = Some k /\
    (forall kv n, In kv obj -> Number (fst kv) = Some n ->
       Z.abs (k - target) <= Z.abs (n - target)) /\
    ((forall kv n, In kv obj -> Number (fst kv) = Some n ->
        Z.abs (k0 - target) <= Z.abs (n - target)) -> k = k0).
Proof.
  intros -> H0 Hcanon. unfold Utils.getClosestValue.
  cbn [map fst Utils.reduce]. rewrite H0.
  set (keys := map (fun kv : string * V => Number (fst kv)) rest).
  destruct (closer_fold target keys k0) as (k & Hk & Hin & Hle & Hmin & Hfirst).
  rewrite Hk. cbn [Utils.propertyName].
  assert (Hsrc : exists kv, In kv ((name, v) :: rest) /\ Number (fst kv) = Some k).
  { destruct Hin as [->|Hin].
    - exists (name, v). split; [by left|done].
    - subst keys. apply in_map_iff in Hin as (kv & Hkv & Hin).
      exists kv. split; [by right|done]. }
  destruct Hsrc as ([kn kw] & Hkv & Hnum).
  pose proof (Hcanon _ _ Hkv Hnum) as Hname. cbn [fst] in Hname, Hnum. subst kn.
  destruct (property_present _ _ _ Hkv) as [value Hvalue].
  exists k, value. rewrite Hvalue. split; [done|].
  split; [by apply property_In|]. split; [done|]. split.
  - intros kv n [<-|Hr] Hn.
    + cbn [fst] in Hn. rewrite H0 in Hn. injection Hn as <-. done.
    + apply Hmin. subst keys. apply in_map_iff. by exists kv.
  - intros Hnear. apply Hfirst. intros k' Hk'. subst keys.
    apply in_map_iff in Hk' as (kv & Hn & Hr). apply (Hnear kv k'); [by right|done].
Qed.

Lemma closest_key_is_nearest_witness :
  exists k value,
    Utils.getClosestValue JS.parseInt10 qualityTable 700
      = Ok (Utils.mkClosest (Some k) (Some value)) /\
    In (JS.numberToString k, value) qualityTable /\
    JS.parseInt10 (JS.numberToString k) = Some k /\
    (forall kv n, In kv qualityTable -> JS.parseInt10 (fst kv) = Some n ->
       Z.abs (k - 700) <= Z.abs (n - 700)) /\
    ((forall kv n, In kv qualityTable -> JS.parseInt10 (fst kv) = Some n ->
        Z.abs (360 - 700) <= Z.abs (n - 700)) -> k = 360).
Proof.
  apply (closest_key_is_nearest JS.parseInt10 qualityTable 700 "360" "low" 360
           [("720", "high"); ("1080", "full")]).
  - reflexivity.
  - reflexivity.
  - intros kv n [<-|[<-|[<-|[]]]]; vm_compute; intros [= <-]; reflexivity.
Defined.

(** X23: [getClosestValue] on an object without keys fails with the
    TypeError of [reduce]; and when the first key is not a number the
    key returned is NaN whatever the other keys are, with the value
    stored under the name NaN, if any. *)
Theorem closest_key_edge_cases {V} Number (obj : list (string * V)) target :
  (obj = [] ->
   exists e, Utils.getClosestValue Number obj target = Throw e /\ name e = "TypeError") /\
  (forall name v rest, obj = (name, v) :: rest -> Number name = None ->
     Utils.getClosestValue Number obj target
       = Ok (Utils.mkClosest None (Utils.property "NaN" obj))).
Proof.
  split.
  - intros ->. by eexists.
  - intros name v rest -> Hn. unfold Utils.getClosestValue.
    cbn [map fst Utils.reduce]. rewrite Hn, closer_fold_NaN. reflexivity.
Qed.


Lemma closest_key_edge_cases_witness :
  (exists e, Utils.getClosestValue JS.parseInt10 ([] : list (string * string)) 700
               = Throw e /\ name e = "TypeError") /\
  Utils.getClosestValue JS.parseInt10 namedTable 700
    = Ok (Utils.mkClosest None None).
Proof.
  split.
  - by apply (closest_key_edge_cases JS.parseInt10 [] 700).
  - by apply (proj2 (closest_key_edge_cases JS.parseInt10 namedTable 700)
                "auto" "playlist" [("-5", "low")]).
Defined.
